(** * Intercom manager: bridge pool and session endpoints

    A shallow embedding of the TypeScript sources of the intercom manager:

    - [media_bridge_pool] (class [MediaBridgeInstance], class [MediaBridgePool]),
    - [api_productions] ([sortParticipants] and the session, line, long-poll
      and heartbeat handlers).

    JavaScript numbers that hold counters, weights and millisecond clocks are
    integers here ([Z]); [Math.random()] is an explicit rational argument;
    [throw] / [try ... catch] is the sum type [Exc]; asynchronous collaborator
    calls are either fields of an environment record (their awaited outcome)
    or functions of this file when the collaborator is not part of the
    sources. *)

From Stdlib Require Import ZArith List String Ascii Bool Lia QArith.
From Stdlib Require Import Permutation Sorted.
Import ListNotations.

#[local] Open Scope string_scope.
#[local] Open Scope Z_scope.

(** ** Exceptions *)

(** A computation that may [throw]: [inl msg] is the thrown [Error(msg)]. *)
Definition Exc (A : Type) : Type := (string + A)%type.

Definition ret {A} (a : A) : Exc A := inr a.
Definition throw {A} (msg : string) : Exc A := inl msg.
Definition bind {A B} (m : Exc A) (k : A -> Exc B) : Exc B :=
  match m with
  | inl e => inl e
  | inr a => k a
  end.

Notation "x <- m ;; k" := (bind m (fun x => k))
  (at level 61, m at next level, right associativity).
Notation "m ;;; k" := (bind m (fun _ => k))
  (at level 61, right associativity).

(** JavaScript truthiness of a [string | undefined] value. *)
Definition truthy (s : option string) : bool :=
  match s with
  | Some EmptyString => false
  | Some _ => true
  | None => false
  end.

(** ** media_bridge_pool: one bridge instance *)

Module MediaBridgeInstance.

Record MediaBridgeDefinition : Type := {
  def_id : string;
  def_baseUrl : string;
  def_apiKey : option string;
  def_weight : option Z;
  def_healthCheckPath : option string;
  def_metadata : option (list (string * string))
}.

Inductive MediaBridgeHealthState : Type := healthy_ | unhealthy_ | degraded_.

Record t : Type := {
  id : string;
  baseUrl : string;
  apiKey : string;
  weight : Z;
  healthCheckPath : string;
  metadata : list (string * string);
  healthy : bool;
  lastCheckedAt : option Z;
  lastLatencyMs : option Z;
  consecutiveFailures : Z
}.

(** [s.replace(/\/?$/, '/')]: a string that ends in a slash is kept, any
    other string gets one appended. *)
Fixpoint withTrailingSlash (s : string) : string :=
  match s with
  | EmptyString => "/"
  | String c EmptyString =>
      if Ascii.eqb c "/"%char then s else String c "/"
  | String c rest => String c (withTrailingSlash rest)
  end.

Definition orDefault (s : option string) (d : string) : string :=
  if truthy s then match s with Some v => v | None => d end else d.

(** The constructor: field initialisers [healthy = true],
    [consecutiveFailures = 0], and [weight = Math.max(1, weight ?? 1)]. *)
Definition new (definition : MediaBridgeDefinition) : t :=
  {| id := def_id definition;
     baseUrl := withTrailingSlash (def_baseUrl definition);
     apiKey := orDefault (def_apiKey definition) "";
     weight := Z.max 1 (match def_weight definition with
                        | Some w => w
                        | None => 1
                        end);
     healthCheckPath := orDefault (def_healthCheckPath definition) "health";
     metadata := match def_metadata definition with
                 | Some m => m
                 | None => []
                 end;
     healthy := true;
     lastCheckedAt := None;
     lastLatencyMs := None;
     consecutiveFailures := 0 |}.

(** [get state()] *)
Definition state (b : t) : MediaBridgeHealthState :=
  if negb (healthy b) then unhealthy_
  else if 0 <? consecutiveFailures b then degraded_
  else healthy_.

Definition setCounters (b : t) (h : bool) (n : Z) : t :=
  {| id := id b; baseUrl := baseUrl b; apiKey := apiKey b;
     weight := weight b; healthCheckPath := healthCheckPath b;
     metadata := metadata b;
     healthy := h;
     lastCheckedAt := lastCheckedAt b;
     lastLatencyMs := lastLatencyMs b;
     consecutiveFailures := n |}.

Definition setTiming (b : t) (latency checked : Z) : t :=
  {| id := id b; baseUrl := baseUrl b; apiKey := apiKey b;
     weight := weight b; healthCheckPath := healthCheckPath b;
     metadata := metadata b;
     healthy := healthy b;
     lastCheckedAt := Some checked;
     lastLatencyMs := Some latency;
     consecutiveFailures := consecutiveFailures b |}.

(** [recordFailure()] *)
Definition recordFailure (b : t) : t :=
  let n := consecutiveFailures b + 1 in
  setCounters b (if 2 <? n then false else healthy b) n.

(** [recordSuccess()] *)
Definition recordSuccess (b : t) : t :=
  setCounters b true 0.

(** What the health request did: a response with [ok], a response without
    it (non-2xx), or a rejected [fetch] (transport error, abort). *)
Inductive ProbeOutcome : Type :=
| ResponseOk
| ResponseNotOk
| FetchThrew.

Definition probeFailed (o : ProbeOutcome) : bool :=
  match o with
  | ResponseOk => false
  | ResponseNotOk | FetchThrew => true
  end.

(** The ['probe'] event the instance emits. *)
Record ProbeEvent : Type := {
  ev_id : string;
  ev_ok : bool;
  ev_error : bool
}.

(** [probe(signal)]: [start] is the first [Date.now()], [t1] and [t2] the
    two that follow the request. The counters are updated in both failure
    branches by the same three statements as [recordFailure]. *)
Definition probe (o : ProbeOutcome) (start t1 t2 : Z) (b : t)
  : t * ProbeEvent :=
  let b1 := setTiming b (t1 - start) t2 in
  match o with
  | ResponseOk =>
      (setCounters b1 true 0,
       {| ev_id := id b; ev_ok := true; ev_error := false |})
  | ResponseNotOk =>
      let n := consecutiveFailures b1 + 1 in
      (setCounters b1 (if 2 <? n then false else healthy b1) n,
       {| ev_id := id b; ev_ok := false; ev_error := false |})
  | FetchThrew =>
      let n := consecutiveFailures b1 + 1 in
      (setCounters b1 (if 2 <? n then false else healthy b1) n,
       {| ev_id := id b; ev_ok := false; ev_error := true |})
  end.

Definition probed (o : ProbeOutcome) (start t1 t2 : Z) (b : t) : t :=
  fst (probe o start t1 t2 b).

(** [n] failed probes in a row, each with its own outcome and clock. *)
Fixpoint failedProbes (n : nat) (o : nat -> ProbeOutcome)
    (clock : nat -> Z * Z * Z) (b : t) : t :=
  match n with
  | O => b
  | S k =>
      let b' := failedProbes k o clock b in
      let '(s, t1, t2) := clock k in
      probed (o k) s t1 t2 b'
  end.

(** The operations a caller or the probe timer can apply to an instance. *)
Inductive Op : Type :=
| OpProbe (o : ProbeOutcome) (start t1 t2 : Z)
| OpRecordFailure
| OpRecordSuccess.

Definition apply (op : Op) (b : t) : t :=
  match op with
  | OpProbe o s t1 t2 => probed o s t1 t2 b
  | OpRecordFailure => recordFailure b
  | OpRecordSuccess => recordSuccess b
  end.

(** Instances that exist at run time: built by the constructor and then
    changed by the three operations only. *)
Inductive Reachable : t -> Prop :=
| reach_new : forall definition, Reachable (new definition)
| reach_op : forall op b, Reachable b -> Reachable (apply op b).

Definition run (ops : list Op) (b : t) : t :=
  fold_left (fun acc op => apply op acc) ops b.

End MediaBridgeInstance.

(** ** media_bridge_pool: the pool *)

Module MediaBridgePool.

Import MediaBridgeInstance.

(** A JavaScript string as its UTF-16 code units, the view [charCodeAt]
    and [length] give of it. *)
Definition CodeUnits : Type := list Z.

Record BridgeSelectionOptions : Type := {
  affinityKey : option CodeUnits;
  allowUnhealthy : option bool
}.

Record MediaBridgeSnapshot : Type := {
  snap_id : string;
  snap_baseUrl : string;
  snap_apiKey : string;
  snap_weight : Z;
  snap_healthy : bool;
  snap_state : MediaBridgeHealthState;
  snap_lastCheckedAt : option Z;
  snap_latencyMs : option Z;
  snap_consecutiveFailures : Z;
  snap_metadata : list (string * string)
}.

(** [MediaBridgeInstance.snapshot()] *)
Definition snapshot (b : MediaBridgeInstance.t) : MediaBridgeSnapshot :=
  {| snap_id := id b;
     snap_baseUrl := baseUrl b;
     snap_apiKey := apiKey b;
     snap_weight := weight b;
     snap_healthy := healthy b;
     snap_state := state b;
     snap_lastCheckedAt := lastCheckedAt b;
     snap_latencyMs := lastLatencyMs b;
     snap_consecutiveFailures := consecutiveFailures b;
     snap_metadata := metadata b |}.

Record t : Type := {
  bridges : list MediaBridgeInstance.t;
  probeIntervalMs : Z
}.

(** [new MediaBridgePool(definitions, options)] *)
Definition new (definitions : list MediaBridgeDefinition)
    (probeInterval : option Z) : Exc t :=
  match definitions with
  | [] =>
      throw "MediaBridgePool requires at least one media bridge definition"
  | _ =>
      ret {| bridges := map MediaBridgeInstance.new definitions;
             probeIntervalMs := match probeInterval with
                                | Some ms => ms
                                | None => 15000
                                end |}
  end.

(** [ToInt32], the effect of [x | 0] and of the operands of [<<]. *)
Definition toInt32 (z : Z) : Z :=
  (z + 2147483648) mod 4294967296 - 2147483648.

(** One round of the loop of [hash]:
    [hash = (hash << 5) - hash + input.charCodeAt(i); hash |= 0]. *)
Definition hashStep (h c : Z) : Z :=
  toInt32 (toInt32 (Z.shiftl (toInt32 h) 5) - h + c).

(** [hash(input)] *)
Definition hash (input : CodeUnits) : Z :=
  Z.abs (fold_left hashStep input 0).

(** [candidates.reduce((sum, bridge) => sum + bridge.weight, 0)] *)
Definition weightSum (candidates : list MediaBridgeInstance.t) : Z :=
  fold_left (fun sum bridge => sum + weight bridge) candidates 0.

(** The affinity loop: the first candidate whose cumulative weight exceeds
    [m]. *)
Fixpoint firstAbove (m cursor : Z) (candidates : list MediaBridgeInstance.t)
  : option MediaBridgeInstance.t :=
  match candidates with
  | [] => None
  | bridge :: rest =>
      let cursor' := cursor + weight bridge in
      if m <? cursor' then Some bridge else firstAbove m cursor' rest
  end.

(** The random loop: the first candidate whose cumulative weight reaches
    [pick]. *)
Fixpoint firstReaching (pick : Q) (cursor : Z)
    (candidates : list MediaBridgeInstance.t)
  : option MediaBridgeInstance.t :=
  match candidates with
  | [] => None
  | bridge :: rest =>
      let cursor' := cursor + weight bridge in
      if Qle_bool pick (inject_Z cursor') then Some bridge
      else firstReaching pick cursor' rest
  end.

(** A supplied key that passes the test [options?.affinityKey && ...]:
    the empty string is falsy. *)
Definition usableKey (options : option BridgeSelectionOptions)
  : option CodeUnits :=
  match options with
  | Some o =>
      match affinityKey o with
      | Some (c :: cs) => Some (c :: cs)
      | Some [] | None => None
      end
  | None => None
  end.

(** [healthy.length && !allowUnhealthy ? healthy : this.bridges] *)
Definition candidatesOf (pool : t) (options : option BridgeSelectionOptions)
  : list MediaBridgeInstance.t :=
  let allow := match options with
               | Some o => match allowUnhealthy o with
                           | Some a => a
                           | None => false
                           end
               | None => false
               end in
  let healthyOnes := filter healthy (bridges pool) in
  match healthyOnes with
  | _ :: _ => if negb allow then healthyOnes else bridges pool
  | [] => bridges pool
  end.

(** [getBridge(options)]; [random] is the value of [Math.random()], read
    only when the affinity branch selected nothing. *)
Definition getBridge (pool : t) (options : option BridgeSelectionOptions)
    (random : Q) : Exc MediaBridgeSnapshot :=
  let candidates := candidatesOf pool options in
  match candidates with
  | [] => throw "No media bridges configured"
  | first :: _ =>
      let byAffinity :=
        match usableKey options with
        | Some key =>
            if 1 <? Z.of_nat (List.length candidates) then
              firstAbove (Z.rem (hash key) (weightSum candidates)) 0
                candidates
            else None
        | None => None
        end in
      let selected :=
        match byAffinity with
        | Some bridge => Some bridge
        | None =>
            firstReaching
              (Qmult random (inject_Z (weightSum candidates))) 0 candidates
        end in
      ret (snapshot (match selected with
                     | Some bridge => bridge
                     | None => first
                     end))
  end.

(** Every weight is at least 1, as the instance constructor leaves it. *)
Definition wellWeighted (l : list MediaBridgeInstance.t) : Prop :=
  Forall (fun b => 1 <= weight b) l.

(** [this.bridges.find((b) => b.id === bridgeId)] followed by a method of
    the found instance: the first instance with that id is replaced. *)
Fixpoint onFirst (bridgeId : string)
    (f : MediaBridgeInstance.t -> MediaBridgeInstance.t)
    (l : list MediaBridgeInstance.t) : list MediaBridgeInstance.t :=
  match l with
  | [] => []
  | b :: rest =>
      if String.eqb (id b) bridgeId then f b :: rest
      else b :: onFirst bridgeId f rest
  end.

Definition withBridges (pool : t) (l : list MediaBridgeInstance.t) : t :=
  {| bridges := l; probeIntervalMs := probeIntervalMs pool |}.

(** [recordFailure(bridgeId)] and [recordSuccess(bridgeId)] *)
Definition recordFailure (bridgeId : string) (pool : t) : t :=
  withBridges pool
    (onFirst bridgeId MediaBridgeInstance.recordFailure (bridges pool)).

Definition recordSuccess (bridgeId : string) (pool : t) : t :=
  withBridges pool
    (onFirst bridgeId MediaBridgeInstance.recordSuccess (bridges pool)).

(** One tick of the probe timer: every instance is probed, instance [i]
    with the outcome and clock readings [tick i]. *)
Fixpoint probeEach (i : nat) (tick : nat -> ProbeOutcome * (Z * Z * Z))
    (l : list MediaBridgeInstance.t) : list MediaBridgeInstance.t :=
  match l with
  | [] => []
  | b :: rest =>
      let '(o, (s, t1, t2)) := tick i in
      probed o s t1 t2 b :: probeEach (S i) tick rest
  end.

Definition probeAll (tick : nat -> ProbeOutcome * (Z * Z * Z)) (pool : t) : t :=
  withBridges pool (probeEach 0 tick (bridges pool)).

(** The probes of a tick complete one by one: when the probe of the
    instance at [index] completes, that instance changes and the others
    are as they were. *)
Fixpoint onNth (index : nat)
    (f : MediaBridgeInstance.t -> MediaBridgeInstance.t)
    (l : list MediaBridgeInstance.t) : list MediaBridgeInstance.t :=
  match l, index with
  | [], _ => []
  | b :: rest, O => f b :: rest
  | b :: rest, S k => b :: onNth k f rest
  end.

Definition probeOne (index : nat) (o : ProbeOutcome) (start t1 t2 : Z)
    (pool : t) : t :=
  withBridges pool (onNth index (probed o start t1 t2) (bridges pool)).

(** *** [fromEnv] *)

(** [JSON.parse] gives values of any kind. A property of an element of
    the parsed [MEDIA_BRIDGES] array is read here against the type that
    [MediaBridgeDefinition] declares for it: the property is missing, or it
    holds a value of that type, or a value of another kind, of which only
    the truthiness is kept ([null] is such a value, and falsy). Weights of
    the declared kind are the integers. *)
Inductive Field (A : Type) : Type :=
| Absent
| Typed (a : A)
| Other (isTruthy : bool).

Arguments Absent {A}.
Arguments Typed {A} a.
Arguments Other {A} isTruthy.

(** An element of the array; [None] stands for [null] and for values
    without properties. *)
Record RawEntry : Type := {
  raw_id : Field string;
  raw_baseUrl : Field string;
  raw_apiKey : Field string;
  raw_weight : Field Z;
  raw_healthCheckPath : Field string;
  raw_metadata : Field (list (string * string))
}.

(** What [JSON.parse(params.envJson)] gave. *)
Inductive Parsed : Type :=
| ParseThrew
| NotAnArray
| AnArray (entries : list (option RawEntry)).

Record FromEnvParams : Type := {
  defaultBaseUrl : string;
  defaultApiKey : option string;
  envJson : option string;
  paramProbeIntervalMs : option Z
}.

(** Truthiness of [entry.id] and [entry.baseUrl]. *)
Definition fieldTruthy (f : Field string) : bool :=
  match f with
  | Absent => false
  | Typed s => truthy (Some s)
  | Other isTruthy => isTruthy
  end.

(** An optional property as the constructor reads it through [|| default]
    or [?? 1]: a missing or falsy value of another kind leaves the default
    in force, as a missing property does; a truthy value of another kind is
    not of the declared type. *)
Definition declared {A} (f : Field A) : option (option A) :=
  match f with
  | Absent => Some None
  | Typed a => Some (Some a)
  | Other false => Some None
  | Other true => None
  end.

(** A definition that [fromEnv] pushed, as the instance constructor will
    find it: of the declared types; or with a [baseUrl] that is no string,
    on which [definition.baseUrl.replace] is not a function; or with a
    string [baseUrl] and another property that is not of its declared
    type. *)
Inductive Pushed : Type :=
| Declared (d : MediaBridgeDefinition)
| BadBaseUrl
| Undeclared.

Definition classify (e : RawEntry) : Pushed :=
  match raw_baseUrl e with
  | Typed u =>
      match raw_id e, declared (raw_apiKey e), declared (raw_weight e),
            declared (raw_healthCheckPath e), declared (raw_metadata e) with
      | Typed i, Some k, Some w, Some h, Some m =>
          Declared {| def_id := i; def_baseUrl := u;
                      def_apiKey := k;
                      def_weight := w;
                      def_healthCheckPath := h;
                      def_metadata := m |}
      | _, _, _, _, _ => Undeclared
      end
  | Absent | Other _ => BadBaseUrl
  end.

(** The callback of [parsed.forEach]: [None] is the throw for an entry
    without a truthy [id] or [baseUrl]. *)
Definition validEntry (entry : option RawEntry) : option Pushed :=
  match entry with
  | Some e =>
      if fieldTruthy (raw_id e) && fieldTruthy (raw_baseUrl e)
      then Some (classify e)
      else None
  | None => None
  end.

(** [parsed.forEach(...)]: definitions are pushed until the first invalid
    entry throws; the [catch] keeps what was pushed before. *)
Fixpoint pushEntries (entries : list (option RawEntry)) : list Pushed :=
  match entries with
  | [] => []
  | entry :: rest =>
      match validEntry entry with
      | Some d => d :: pushEntries rest
      | None => []
      end
  end.

Definition definitionsFromEnv (parse : string -> Parsed)
    (params : FromEnvParams) : list Pushed :=
  let parsedDefs :=
    if truthy (envJson params) then
      match envJson params with
      | Some json =>
          match parse json with
          | AnArray entries => pushEntries entries
          | NotAnArray | ParseThrew => []
          end
      | None => []
      end
    else [] in
  match parsedDefs with
  | [] => [ Declared {| def_id := "default";
                        def_baseUrl := defaultBaseUrl params;
                        def_apiKey := defaultApiKey params;
                        def_weight := Some 1;
                        def_healthCheckPath := None;
                        def_metadata := None |} ]
  | _ => parsedDefs
  end.

Definition isBadBaseUrl (p : Pushed) : bool :=
  match p with
  | BadBaseUrl => true
  | Declared _ | Undeclared => false
  end.

(** The definitions, when every one of them is of the declared types. *)
Fixpoint allDeclared (definitions : list Pushed)
  : option (list MediaBridgeDefinition) :=
  match definitions with
  | [] => Some []
  | Declared d :: rest => option_map (cons d) (allDeclared rest)
  | BadBaseUrl :: _ | Undeclared :: _ => None
  end.

(** What [new MediaBridgePool(definitions, options)] gives for pushed
    definitions: the pool; or, when a definition holds a value that is not
    of its declared type and no constructor call throws, a pool of that
    many instances, which the instances of this file do not describe. *)
Inductive Built : Type :=
| Pool (pool : t)
| UndeclaredPool (instances : nat).

(** The constructor on pushed definitions: the empty list throws;
    [definitions.map] throws the TypeError of the first definition whose
    [baseUrl] has no [replace]. *)
Definition construct (definitions : list Pushed) (probeInterval : option Z)
  : Exc Built :=
  match definitions with
  | [] =>
      throw "MediaBridgePool requires at least one media bridge definition"
  | _ =>
      if existsb isBadBaseUrl definitions then
        throw "definition.baseUrl.replace is not a function"
      else
        match allDeclared definitions with
        | Some typed => pool <- new typed probeInterval ;; ret (Pool pool)
        | None => ret (UndeclaredPool (List.length definitions))
        end
  end.

(** [MediaBridgePool.fromEnv(params)]; [parse] is [JSON.parse]. Nothing
    catches what the constructor throws. *)
Definition fromEnv (parse : string -> Parsed) (params : FromEnvParams)
  : Exc Built :=
  construct (definitionsFromEnv parse params) (paramProbeIntervalMs params).

(** Pools that exist at run time. *)
Inductive PoolOp : Type :=
| PoolProbeAll (tick : nat -> ProbeOutcome * (Z * Z * Z))
| PoolRecordFailure (bridgeId : string)
| PoolRecordSuccess (bridgeId : string)
| PoolProbeOne (index : nat) (o : ProbeOutcome) (start t1 t2 : Z).

Definition applyPool (op : PoolOp) (pool : t) : t :=
  match op with
  | PoolProbeAll tick => probeAll tick pool
  | PoolRecordFailure i => recordFailure i pool
  | PoolRecordSuccess i => recordSuccess i pool
  | PoolProbeOne index o start t1 t2 => probeOne index o start t1 t2 pool
  end.

Inductive Reachable : t -> Prop :=
| pool_new : forall definitions interval pool,
    new definitions interval = inr pool -> Reachable pool
| pool_op : forall op pool, Reachable pool -> Reachable (applyPool op pool).

End MediaBridgePool.

(** ** api_productions: data *)

Module Api.

Definition dquote : string := String (ascii_of_nat 34) EmptyString.

(** [String(err)] for [err = new Error(msg)], the text the [catch] blocks
    append to their reply. *)
Definition Error (msg : string) : string := "Error: " ++ msg.

Record Line : Type := {
  line_id : string;
  line_name : string;
  smbConferenceId : option string;
  programOutputLine : bool
}.

Record Production : Type := {
  prod_id : Z;
  prod_name : string;
  lines : list Line
}.

(** The part of the bridge's endpoint description the handlers read. *)
Record Audio : Type := { ssrcs : option (list Z) }.
Record SmbEndpointDescription : Type := { audio : option Audio }.

Record UserSession : Type := {
  doc_id : string;
  productionId : string;
  lineId : string;
  name : option string;
  endpointId : option string;
  sessionDescription : option SmbEndpointDescription;
  isActive : bool;
  isExpired : bool;
  isWhip : bool;
  lastSeen : Z
}.

Record UserResponse : Type := {
  sessionId : option string;
  ur_endpointId : option string;
  ur_name : option string;
  ur_isActive : bool;
  ur_isWhip : bool
}.

Inductive Body : Type :=
| NoBody
| Text (s : string)
| Message (message : string)
| MessageTrace (message stackTrace : string)
| SessionCreated (sessionId sdp : string)
| Participants (l : list UserResponse).

Record Reply : Type := { code : Z; body : Body }.

Definition reply (c : Z) (b : Body) : Reply := {| code := c; body := b |}.

(** *** [parseInt(s, 10)]: [None] is [NaN]. A string is a sequence of
    code units below 256 here; among those the white space that [parseInt]
    skips is TAB to CR, the space and the no-break space. *)
Definition isWhiteSpace (c : ascii) : bool :=
  let n := Z.of_nat (nat_of_ascii c) in
  (n =? 32) || ((9 <=? n) && (n <=? 13)) || (n =? 160).

Fixpoint trimStart (s : string) : string :=
  match s with
  | String c rest => if isWhiteSpace c then trimStart rest else s
  | EmptyString => s
  end.

Definition digitOf (c : ascii) : option Z :=
  let n := Z.of_nat (nat_of_ascii c) in
  if (48 <=? n) && (n <=? 57) then Some (n - 48) else None.

Fixpoint digitsPrefix (s : string) (acc : option Z) : option Z :=
  match s with
  | String c rest =>
      match digitOf c with
      | Some d =>
          digitsPrefix rest
            (Some (10 * match acc with Some a => a | None => 0 end + d))
      | None => acc
      end
  | EmptyString => acc
  end.

(** The Number for the integer that the digits denote: the integer itself
    up to 2^53 in size, beyond that the nearest double (of 53 significant
    bits), a tie going to the even one. Integers of more than 308 digits,
    which JavaScript reads as [Infinity], are not told apart from the
    large doubles. *)
Definition nearestDouble (n : Z) : Z :=
  let a := Z.abs n in
  if a <=? 2 ^ 53 then n
  else
    let e := Z.log2 a - 52 in
    let q := Z.shiftr a e in
    let r := a - Z.shiftl q e in
    let half := Z.shiftl 1 (e - 1) in
    let q' := if (half <? r) || ((half =? r) && Z.odd q) then q + 1 else q in
    Z.sgn n * Z.shiftl q' e.

Definition parseInt (s : string) : option Z :=
  option_map nearestDouble
    match trimStart s with
    | String "-" rest => option_map Z.opp (digitsPrefix rest None)
    | String "+" rest => digitsPrefix rest None
    | t => digitsPrefix t None
    end.

(** *** [sortParticipants] *)

(** The host's locale services: [String.prototype.toLocaleLowerCase],
    [localeCompare] with [{ sensitivity: 'base' }] and plain
    [localeCompare]. They belong to the JavaScript engine and its locale
    data, so the embedding takes them as an interface. *)
Class Collator : Type := {
  toLocaleLowerCase : string -> string;
  localeCompareBase : string -> string -> Z;
  localeCompare : string -> string -> Z
}.

(** A comparison function is consistent (ECMAScript, SortCompare) when it
    is a total preorder read through its sign. *)
Record Consistent {A} (cmp : A -> A -> Z) : Prop := {
  cmp_refl : forall a, cmp a a = 0;
  cmp_flip : forall a b, cmp a b <= 0 <-> 0 <= cmp b a;
  cmp_trans : forall a b c, cmp a b <= 0 -> cmp b c <= 0 -> cmp a c <= 0
}.

Class LawfulCollator (C : Collator) : Prop := {
  base_consistent : Consistent localeCompareBase;
  plain_consistent : Consistent localeCompare
}.

(** A collator for running examples: ASCII lower-casing and comparison by
    code point. *)
Definition lowerAscii (c : ascii) : ascii :=
  let n := nat_of_ascii c in
  if ((65 <=? n) && (n <=? 90))%nat then ascii_of_nat (n + 32) else c.

Fixpoint lowerString (s : string) : string :=
  match s with
  | EmptyString => EmptyString
  | String c rest => String (lowerAscii c) (lowerString rest)
  end.

Definition signOf (c : comparison) : Z :=
  match c with Lt => -1 | Eq => 0 | Gt => 1 end.

Definition codePointCompare (a b : string) : Z := signOf (String.compare a b).

Definition codePointCollator : Collator :=
  {| toLocaleLowerCase := lowerString;
     localeCompareBase := codePointCompare;
     localeCompare := codePointCompare |}.

Section Sorting.

Context {C : Collator}.

Definition orEmpty (s : option string) : string :=
  match s with Some v => v | None => "" end.

Definition nonEmpty (s : string) : bool :=
  match s with EmptyString => false | _ => true end.

(** The comparison function passed to [sort]. *)
Definition compareParticipants (a b : UserResponse) : Z :=
  let nameA := orEmpty (option_map toLocaleLowerCase (ur_name a)) in
  let nameB := orEmpty (option_map toLocaleLowerCase (ur_name b)) in
  let bySession :=
    localeCompare (orEmpty (sessionId a)) (orEmpty (sessionId b)) in
  if nonEmpty nameA || nonEmpty nameB then
    let cmp := localeCompareBase nameA nameB in
    if negb (cmp =? 0) then cmp else bySession
  else bySession.

(** The order of the prose: names compared without regard to case, the
    session id deciding between names that compare equal. *)
Definition byNameThenSessionId (a b : UserResponse) : Z :=
  let byName :=
    localeCompareBase
      (orEmpty (option_map toLocaleLowerCase (ur_name a)))
      (orEmpty (option_map toLocaleLowerCase (ur_name b))) in
  if byName =? 0
  then localeCompare (orEmpty (sessionId a)) (orEmpty (sessionId b))
  else byName.

End Sorting.

(** [a] may stand before [b] in an array sorted by [cmp]. *)
Definition ordered {A} (cmp : A -> A -> Z) (a b : A) : Prop := cmp a b <= 0.

(** [Array.prototype.sort(cmp)]: the sort is stable, and with a consistent
    [cmp] its result is determined; it is computed here by insertion. *)
Fixpoint insertBy {A} (cmp : A -> A -> Z) (x : A) (l : list A) : list A :=
  match l with
  | [] => [x]
  | y :: rest =>
      if cmp x y <=? 0 then x :: l else y :: insertBy cmp x rest
  end.

Definition arraySort {A} (cmp : A -> A -> Z) (l : list A) : list A :=
  fold_right (insertBy cmp) [] l.

(** [sortParticipants(participants)] as a function of the array contents. *)
Definition sortParticipants {C : Collator} (participants : list UserResponse)
  : list UserResponse :=
  arraySort compareParticipants participants.

(** Arrays live in a heap and are passed by reference; [sort] works in
    place on the array it is called on. *)
Definition Heap : Type := list (list UserResponse).

Definition readArray (h : Heap) (r : nat) : list UserResponse := nth r h [].

Fixpoint writeArray (h : Heap) (r : nat) (v : list UserResponse) : Heap :=
  match h, r with
  | [], _ => []
  | _ :: rest, O => v :: rest
  | a :: rest, S k => a :: writeArray rest k v
  end.

(** [[...participants]] allocates the copy, [.sort(...)] sorts the copy in
    place and returns its reference. *)
Definition sortParticipantsRef {C : Collator} (h : Heap) (participants : nat)
  : Heap * nat :=
  let copy := List.length h in
  let h1 := (h ++ [readArray h participants])%list in
  (writeArray h1 copy (arraySort compareParticipants (readArray h1 copy)),
   copy).

End Api.

(** ** db: the session part of the storage manager *)

Module DbManager.

Import Api.

(** The two implementations of the interface. *)
Inductive Backend : Type := CouchDb | MongoDb.

(** The [_id] under which a manager keeps the session [sessionId]:
    [`session_${sessionId}`] in DbManagerCouchDb, [sessionId] itself in
    DbManagerMongoDb. *)
Definition keyOf (backend : Backend) (sessionId : string) : string :=
  match backend with
  | CouchDb => "session_" ++ sessionId
  | MongoDb => sessionId
  end.

(** Which manager it is, the session documents ([doc_id] is the stored
    [_id]), and the error with which the calls to the database reject
    while it cannot be reached ([await this.connect()] and the driver
    calls reject, or the handle is missing and the method throws
    ['Database not connected']). *)
Record t : Type := {
  backend : Backend;
  outage : option string;
  sessions : list UserSession
}.

Definition docKey (db : t) (sessionId : string) : string :=
  keyOf (backend db) sessionId.

Definition connected (db : t) : bool :=
  match outage db with
  | None => true
  | Some _ => false
  end.

(** [Partial<UserSession>] as used for selectors. *)
Record SessionQuery : Type := {
  q_productionId : option string;
  q_lineId : option string;
  q_isExpired : option bool
}.

Definition agrees {A} (eqb : A -> A -> bool) (wanted : option A) (v : A)
  : bool :=
  match wanted with
  | Some w => eqb w v
  | None => true
  end.

Definition matches (q : SessionQuery) (s : UserSession) : bool :=
  agrees String.eqb (q_productionId q) (productionId s)
  && agrees String.eqb (q_lineId q) (lineId s)
  && agrees Bool.eqb (q_isExpired q) (isExpired s).

Definition rejected {A} (db : t) : Exc A :=
  throw (match outage db with
         | Some err => err
         | None => Error "Database not connected"
         end).

(** [getSession(sessionId)]: the document, or [null] on a 404. *)
Definition getSession (db : t) (sessionId : string)
  : Exc (option UserSession) :=
  if connected db
  then ret (find (fun s => String.eqb (doc_id s) (docKey db sessionId))
              (sessions db))
  else rejected db.

(** [getSessionsByQuery(q)]: the documents the selector matches. *)
Definition getSessionsByQuery (db : t) (q : SessionQuery)
  : Exc (list UserSession) :=
  if connected db then ret (filter (matches q) (sessions db))
  else rejected db.

(** [deleteUserSession(sessionId)]: [false] when there is no such
    document. *)
Definition deleteUserSession (db : t) (sessionId : string)
  : Exc bool * t :=
  if connected db then
    (ret (existsb (fun s => String.eqb (doc_id s) (docKey db sessionId))
            (sessions db)),
     {| backend := backend db;
        outage := None;
        sessions :=
          filter (fun s => negb (String.eqb (doc_id s) (docKey db sessionId)))
            (sessions db) |})
  else (rejected db, db).

End DbManager.

(** ** production_manager *)

Module ProductionManager.

Import Api.

(** The productions and the session records the manager works on;
    [backend] says under which [_id] a session is kept. *)
Record Store : Type := {
  productions : list Production;
  backend : DbManager.Backend;
  sessions : list UserSession
}.

(** Modelled from the spec: [requireProduction] of production_manager,
    which is not among the sources. A production is identified by its
    numeric id, and an unknown production is the NotFound failure. *)
Definition requireProduction (st : Store) (productionId : option Z)
  : Exc Production :=
  match productionId with
  | Some n =>
      match find (fun p => prod_id p =? n) (productions st) with
      | Some p => ret p
      | None => throw (Error "Trying to get a production that does not exist")
      end
  | None => throw (Error "Trying to get a production that does not exist")
  end.

(** Modelled from the spec: [getLine] of production_manager, which is not
    among the sources. A line is identified by its id, unique within the
    production. *)
Definition getLine (lines : list Line) (lineId : string) : option Line :=
  find (fun l => String.eqb (line_id l) lineId) lines.

(** The production a session record belongs to is the one its
    [productionId] names, read as the handlers read it
    ([parseInt(userSession.productionId, 10)]). *)
Definition ofProduction (n : Z) (s : UserSession) : bool :=
  match parseInt (Api.productionId s) with
  | Some m => m =? n
  | None => false
  end.

(** Modelled from the spec: [getActiveUsers] of production_manager, which
    is not among the sources: "enumerate active users for a Production".
    A Production's identity is numeric, so the production is the one
    whose number the argument holds, however it is written; an expired
    session is no user any more. *)
Definition getActiveUsers (st : Store) (productionId : string)
  : list UserSession :=
  match parseInt productionId with
  | Some n =>
      filter (fun s => ofProduction n s && isActive s && negb (isExpired s))
        (sessions st)
  | None => []
  end.

Definition withoutLine (p : Production) (lineId : string) : Production :=
  {| prod_id := prod_id p;
     prod_name := prod_name p;
     lines := filter (fun l => negb (String.eqb (line_id l) lineId))
                (lines p) |}.

(** Modelled from the spec: [deleteProductionLine] of production_manager,
    which is not among the sources: the line leaves the production, and
    the production is persisted. *)
Definition deleteProductionLine (st : Store) (production : Production)
    (lineId : string) : Store :=
  {| productions :=
       map (fun p => if prod_id p =? prod_id production
                     then withoutLine production lineId else p)
         (productions st);
     backend := backend st;
     sessions := sessions st |}.

Definition seenAt (s : UserSession) (stamp : Z) : UserSession :=
  {| doc_id := doc_id s; productionId := Api.productionId s;
     lineId := lineId s; name := name s; endpointId := endpointId s;
     sessionDescription := sessionDescription s;
     isActive := isActive s; isExpired := isExpired s;
     isWhip := isWhip s; lastSeen := stamp |}.

(** The record of the session [sessionId], not expired. *)
Definition live (st : Store) (sessionId : string) (s : UserSession) : bool :=
  String.eqb (doc_id s) (DbManager.keyOf (backend st) sessionId)
  && negb (isExpired s).

(** Modelled from the spec: the stamp [updateUserLastSeen] writes. "On a
    live session it returns true and strictly increases lastSeen": the new
    stamp is the clock reading [now], or the instant after the old stamp
    where the clock has not moved past that. *)
Definition nextStamp (now : Z) (s : UserSession) : Z :=
  Z.max now (lastSeen s + 1).

(** Modelled from the spec: [updateUserLastSeen] of production_manager,
    which is not among the sources: "update last-seen timestamp for a
    Session, returning false if the Session does not exist or is already
    expired". *)
Definition updateUserLastSeen (st : Store) (now : Z) (sessionId : string)
  : bool * Store :=
  (existsb (live st sessionId) (sessions st),
   {| productions := productions st;
      backend := backend st;
      sessions := map (fun s => if live st sessionId s
                                then seenAt s (nextStamp now s) else s)
                    (sessions st) |}).

(** The stamp of the session with that id. *)
Definition lastSeenOf (st : Store) (sessionId : string) : option Z :=
  option_map lastSeen
    (find (fun s => String.eqb (doc_id s)
                      (DbManager.keyOf (backend st) sessionId))
       (sessions st)).

End ProductionManager.

(** ** api_productions: the handlers *)

Module Handlers.

Import Api.

(** *** [POST /session] *)

Record NewSession : Type := {
  ns_lineId : string;
  ns_productionId : string;
  ns_username : string
}.

(** The fields [POST /session] writes with [dbManager.updateSession]. *)
Record SessionUpdate : Type := {
  up_endpointId : option string;
  up_sessionDescription : option SmbEndpointDescription;
  up_isActive : bool;
  up_lastSeen : Z
}.

(** The awaited outcome of every collaborator call of the handler, the
    two identifiers [uuidv4()] generates, the clock and the configured
    idle timeout. *)
Record SessionEnv : Type := {
  newSessionId : string;
  newEndpointId : string;
  endpointIdleTimeout : string;
  dateNow : Z;
  createConferenceForLine : string -> string -> Exc string;
  createUserSession :
    string -> string -> string -> string -> string -> bool -> Exc unit;
  createEndpoint :
    string -> string -> bool -> bool -> bool -> string -> option Z ->
    Exc SmbEndpointDescription;
  updateSession : string -> SessionUpdate -> Exc bool;
  createConnection :
    string -> string -> string -> SmbEndpointDescription -> string ->
    string -> string -> Exc (option string)
}.

(** The collaborator calls the handler makes, in order. *)
Inductive Call : Type :=
| CreateConferenceForLine (productionId lineId : string)
| CreateUserSession
    (smbConferenceId productionId lineId sessionId username : string)
    (isWhip : bool)
| CreateEndpoint (smbConferenceId endpointId : string)
    (idleTimeout : option Z)
| UpdateSession (sessionId : string) (update : SessionUpdate)
| CreateConnection (smbConferenceId productionId lineId : string)
    (endpoint : SmbEndpointDescription)
    (username endpointId sessionId : string).

(** A handler body that records its calls: the outcome, and the calls
    made up to the end or up to the throw. *)
Definition Calls (A : Type) : Type := (Exc A * list Call)%type.

Definition call {A} (c : Call) (outcome : Exc A) : Calls A := (outcome, [c]).

Definition quietly {A} (x : Exc A) : Calls A := (x, []).

Definition cbind {A B} (m : Calls A) (k : A -> Calls B) : Calls B :=
  match m with
  | (inl e, made) => (inl e, made)
  | (inr a, made) =>
      let '(r, more) := k a in (r, (made ++ more)%list)
  end.

Notation "x <; m ;; k" := (cbind m (fun x => k))
  (at level 61, m at next level, right associativity).
Notation "m ;; k" := (cbind m (fun _ => k))
  (at level 61, right associativity).

Definition postSessionBody (env : SessionEnv) (request : NewSession)
  : Calls Reply :=
  let lineId := ns_lineId request in
  let productionId := ns_productionId request in
  let username := ns_username request in
  let sessionId := newSessionId env in
  smbConferenceId <;
    call (CreateConferenceForLine productionId lineId)
      (createConferenceForLine env productionId lineId) ;;
  call (CreateUserSession smbConferenceId productionId lineId sessionId
          username false)
    (createUserSession env smbConferenceId productionId lineId sessionId
       username false) ;;
  let endpointId := newEndpointId env in
  let idleTimeout := parseInt (endpointIdleTimeout env) in
  endpoint <;
    call (CreateEndpoint smbConferenceId endpointId idleTimeout)
      (createEndpoint env smbConferenceId endpointId true true true
         "ssrc-rewrite" idleTimeout) ;;
  match audio endpoint with
  | None =>
      quietly
        (throw (Error "Missing audio when creating sdp offer for endpoint"))
  | Some a =>
      match ssrcs a with
      | None =>
          quietly
            (throw
               (Error "Missing ssrcs when creating sdp offer for endpoint"))
      | Some _ =>
          let update := {| up_endpointId := Some endpointId;
                           up_sessionDescription := Some endpoint;
                           up_isActive := true;
                           up_lastSeen := dateNow env |} in
          call (UpdateSession sessionId update)
            (updateSession env sessionId update) ;;
          sdpOffer <;
            call (CreateConnection smbConferenceId productionId lineId
                    endpoint username endpointId sessionId)
              (createConnection env smbConferenceId productionId lineId
                 endpoint username endpointId sessionId) ;;
          if truthy sdpOffer then
            quietly
              (ret (reply 201 (SessionCreated sessionId (orEmpty sdpOffer))))
          else
            quietly
              (ret (reply 400
                      (MessageTrace "Could not establish a media connection"
                         "Failed to generate sdp offer for endpoint")))
      end
  end.

(** The handler: the body inside [try], and the [catch]; its reply, and
    the calls it made. *)
Definition postSession (env : SessionEnv) (request : NewSession)
  : Reply * list Call :=
  match postSessionBody env request with
  | (inr r, made) => (r, made)
  | (inl err, made) =>
      (reply 500
         (Text ("Exception thrown when trying to create endpoint: " ++ err)),
       made)
  end.

(** *** [PATCH /session/:sessionId] *)

(** What the handler does to the outside, in order. *)
Inductive Effect : Type :=
| Slept (ms : Z)
| ReadSession (sessionId : string) (time : Z)
| UpdatedSession (sessionId : string) (active : bool) (seen : Z)
| AnswerHandled (conferenceId : option string) (endpointId : string)
    (description : SmbEndpointDescription) (sdpAnswer : string).

Record World : Type := { clock : Z; log : list Effect }.

(** A handler body: it reads the clock, leaves effects and may throw. *)
Definition Prog (A : Type) : Type := World -> Exc A * World.

Definition pret {A} (a : A) : Prog A := fun w => (inr a, w).
Definition pthrow {A} (msg : string) : Prog A := fun w => (inl msg, w).
Definition pbind {A B} (m : Prog A) (k : A -> Prog B) : Prog B :=
  fun w =>
    match m w with
    | (inl e, w') => (inl e, w')
    | (inr a, w') => k a w'
    end.
Definition lift {A} (x : Exc A) : Prog A := fun w => (x, w).
Definition emit (e : Effect) : Prog unit :=
  fun w => (inr tt, {| clock := clock w; log := (log w ++ [e])%list |}).
Definition getClock : Prog Z := fun w => (inr (clock w), w).

(** [await new Promise((r) => setTimeout(r, ms))] *)
Definition sleep (ms : Z) : Prog unit :=
  fun w => (inr tt, {| clock := clock w + ms;
                       log := (log w ++ [Slept ms])%list |}).

Notation "x <~ m ;; k" := (pbind m (fun x => k))
  (at level 61, m at next level, right associativity).
Notation "m ~;; k" := (pbind m (fun _ => k))
  (at level 61, right associativity).

(** The session store as a read at each instant finds it (writes of other
    requests arrive while the handler waits), and the outcome of the
    other collaborator calls. *)
Record PatchEnv : Type := {
  dbAt : Z -> DbManager.t;
  requireProduction : option Z -> Exc Production;
  requireLine : list Line -> string -> Exc Line;
  handleAnswerRequest :
    option string -> string -> SmbEndpointDescription -> string -> Exc unit
}.

(** [await dbManager.getSession(sessionId)] *)
Definition readSession (env : PatchEnv) (sessionId : string)
  : Prog (option UserSession) :=
  now <~ getClock ;;
  emit (ReadSession sessionId now) ~;;
  lift (DbManager.getSession (dbAt env now) sessionId).

(** [!userSession || !userSession.sessionDescription] *)
Definition incomplete (userSession : option UserSession) : bool :=
  match userSession with
  | None => true
  | Some s =>
      match sessionDescription s with
      | None => true
      | Some _ => false
      end
  end.

(** The [for] loop; [remaining] is [5 - i]. *)
Fixpoint retryRead (env : PatchEnv) (sessionId : string) (remaining : nat)
    (userSession : option UserSession) : Prog (option UserSession) :=
  match remaining with
  | O => pret userSession
  | S k =>
      if incomplete userSession then
        sleep 100 ~;;
        again <~ readSession env sessionId ;;
        retryRead env sessionId k again
      else pret userSession
  end.

(** The reply for a session id that is not known. *)
Definition gone (sessionId : string) : Reply :=
  reply 410
    (Message ("User session id " ++ dquote ++ sessionId ++ dquote
              ++ " not found.")).

(** The statements after the loop. *)
Definition applyAnswer (env : PatchEnv) (sessionId sdpAnswer : string)
    (found : option UserSession) : Prog Reply :=
  match found with
  | None => pret (gone sessionId)
  | Some userSession =>
      now <~ getClock ;;
      (if DbManager.connected (dbAt env now)
       then emit (UpdatedSession sessionId true now)
       else lift (DbManager.rejected (dbAt env now))) ~;;
      production <~ lift (requireProduction env
                            (parseInt (productionId userSession))) ;;
      line <~ lift (requireLine env (lines production)
                      (lineId userSession)) ;;
      match sessionDescription userSession with
      | None =>
          pthrow (Error "Could not get connection endpoint description")
      | Some connectionEndpointDescription =>
          if truthy (endpointId userSession) then
            let endpointId := orEmpty (endpointId userSession) in
            lift (handleAnswerRequest env (smbConferenceId line) endpointId
                    connectionEndpointDescription sdpAnswer) ~;;
            emit (AnswerHandled (smbConferenceId line) endpointId
                    connectionEndpointDescription sdpAnswer) ~;;
            pret (reply 204 NoBody)
          else pthrow (Error "Could not get connection endpoint id")
      end
  end.

Definition patchSessionBody (env : PatchEnv) (sessionId sdpAnswer : string)
  : Prog Reply :=
  first <~ readSession env sessionId ;;
  found <~ retryRead env sessionId 5 first ;;
  applyAnswer env sessionId sdpAnswer found.

(** The handler, started at time [start]: its reply, and the world it
    leaves. *)
Definition patchSession (env : PatchEnv) (start : Z)
    (sessionId sdpAnswer : string) : Reply * World :=
  match patchSessionBody env sessionId sdpAnswer
          {| clock := start; log := [] |} with
  | (inr r, w) => (r, w)
  | (inl err, w) =>
      (reply 500
         (Text ("Exception thrown when trying to configure endpoint: "
                ++ err)), w)
  end.

(** What the [j]-th read of a handler started at [start] finds ([j = 0]
    is the read before the loop), and the effects of [k] rounds of the
    loop entered at time [t]. *)
Definition attempt (env : PatchEnv) (start : Z) (sessionId : string)
    (j : nat) : Exc (option UserSession) :=
  DbManager.getSession (dbAt env (start + 100 * Z.of_nat j)) sessionId.

Fixpoint trail (sessionId : string) (t : Z) (k : nat) : list Effect :=
  match k with
  | O => []
  | S k' =>
      Slept 100 :: ReadSession sessionId (t + 100)
      :: trail sessionId (t + 100) k'
  end.

Definition isWait (e : Effect) : bool :=
  match e with
  | Slept _ | ReadSession _ _ => true
  | UpdatedSession _ _ _ | AnswerHandled _ _ _ _ => false
  end.

(** The description has what an offer needs: audio, and its ssrcs. *)
Definition complete (d : SmbEndpointDescription) : bool :=
  match audio d with
  | Some a => match ssrcs a with Some _ => true | None => false end
  | None => false
  end.

(** *** [DELETE /production/:productionId/line/:lineId] *)

Definition deleteLine (st : ProductionManager.Store)
    (productionId lineId : string) : Reply * ProductionManager.Store :=
  match ProductionManager.requireProduction st (parseInt productionId) with
  | inl err =>
      (reply 500 (Text ("Exception thrown when trying to get line: " ++ err)),
       st)
  | inr production =>
      match ProductionManager.getLine (lines production) lineId with
      | None =>
          (reply 404 (Message ("Line with id " ++ lineId ++ " not found")),
           st)
      | Some line =>
          let activeUsers :=
            ProductionManager.getActiveUsers st productionId in
          let activeUsersOnLine :=
            filter (fun s => String.eqb (Api.lineId s) (line_id line)
                             && isActive s) activeUsers in
          if 0 <? Z.of_nat (List.length activeUsersOnLine) then
            (reply 400
               (Message "Cannot remove a line with active participants"),
             st)
          else
            (reply 200 (Text "deleted"),
             ProductionManager.deleteProductionLine st production lineId)
      end
  end.

(** The active participants present on a line of a production: the
    session records of that production that carry the line's id, are
    active and have not expired. *)
Definition activeOnLine (st : ProductionManager.Store)
    (production : Production) (line : Line) : list UserSession :=
  filter (fun s => ProductionManager.ofProduction (prod_id production) s
                   && String.eqb (Api.lineId s) (line_id line)
                   && isActive s && negb (isExpired s))
    (ProductionManager.sessions st).

(** *** [GET /heartbeat/:sessionId] *)

(** The handler after [await productionManager.updateUserLastSeen]. *)
Definition heartbeatReply (status : bool) (sessionId : string) : Reply :=
  if status then reply 200 (Text "ok")
  else reply 410
         (Text ("User session id " ++ dquote ++ sessionId ++ dquote
                ++ " not found.")).

Definition heartbeat (st : ProductionManager.Store) (now : Z)
    (sessionId : string) : Reply * ProductionManager.Store :=
  let '(status, st') :=
    ProductionManager.updateUserLastSeen st now sessionId in
  (heartbeatReply status sessionId, st').

End Handlers.

(** ** api_productions: the long-poll endpoint *)

Module LongPoll.

Import Api.

Definition timeoutMs : Z := 25000.

Inductive Wake : Type := ByChange | ByTimeout.

(** The promise the handler awaits, with the timer and the listener its
    executor installs: [timer] is the due time of the pending
    [setTimeout], [listening] says that [onChange] is registered on
    ['users:change'], [settled] is when and why [resolve()] was first
    called. *)
Record Wait : Type := {
  now : Z;
  timer : option Z;
  listening : bool;
  settled : option (Z * Wake)
}.

(** The executor: [setTimeout(..., timeoutMs)] and
    [productionManager.once('users:change', onChange)]. *)
Definition startWait (start : Z) : Wait :=
  {| now := start;
     timer := Some (start + timeoutMs);
     listening := true;
     settled := None |}.

(** [resolve()]: only the first call settles the promise. *)
Definition resolve (w : Wait) (time : Z) (why : Wake) : option (Z * Wake) :=
  match settled w with
  | Some s => Some s
  | None => Some (time, why)
  end.

(** [onChange]: [once] has removed the listener; [clearTimeout(timer);
    resolve()]. *)
Definition onChange (w : Wait) : Wait :=
  {| now := now w;
     timer := None;
     listening := false;
     settled := resolve w (now w) ByChange |}.

(** The timer callback, run when the timer is due:
    [productionManager.off('users:change', onChange); resolve()]. *)
Definition onTimer (w : Wait) (due : Z) : Wait :=
  {| now := due;
     timer := None;
     listening := false;
     settled := resolve w due ByTimeout |}.

(** What happens while the request waits: the production manager emits
    ['users:change'], or time passes. *)
Inductive LoopEvent : Type :=
| UsersChange
| Elapse (ms : N).

Definition advance (w : Wait) (t : Z) : Wait :=
  {| now := t; timer := timer w; listening := listening w;
     settled := settled w |}.

Definition step (w : Wait) (e : LoopEvent) : Wait :=
  match e with
  | UsersChange => if listening w then onChange w else w
  | Elapse ms =>
      let t := now w + Z.of_N ms in
      match timer w with
      | Some due => if due <=? t then advance (onTimer w due) t
                    else advance w t
      | None => advance w t
      end
  end.

Definition run (schedule : list LoopEvent) (w : Wait) : Wait :=
  fold_left step schedule w.

(** Time that passes during a schedule, and whether it holds an
    emission. *)
Fixpoint elapsed (schedule : list LoopEvent) : Z :=
  match schedule with
  | [] => 0
  | UsersChange :: rest => elapsed rest
  | Elapse ms :: rest => Z.of_N ms + elapsed rest
  end.

Definition isChange (e : LoopEvent) : bool :=
  match e with UsersChange => true | Elapse _ => false end.

Definition quiet (schedule : list LoopEvent) : bool :=
  forallb (fun e => negb (isChange e)) schedule.

(** The participant the handler builds from a session document. *)
Definition toParticipant (s : UserSession) : UserResponse :=
  {| sessionId := Some (doc_id s);
     ur_endpointId := endpointId s;
     ur_name := name s;
     ur_isActive := if isWhip s then true else isActive s;
     ur_isWhip := isWhip s |}.

(** The part of the handler after the wait, run against the store as it
    is then. *)
Definition respond {C : Collator} (db : DbManager.t)
    (productionId lineId : string) : Reply :=
  match DbManager.getSessionsByQuery db
          {| DbManager.q_productionId := Some productionId;
             DbManager.q_lineId := Some lineId;
             DbManager.q_isExpired := Some false |} with
  | inr dbSessions =>
      reply 200 (Participants (sortParticipants (map toParticipant dbSessions)))
  | inl err =>
      reply 500
        (Text ("Exception thrown when trying to set connection status for session: "
               ++ err))
  end.

(** The handler for a request that arrives at [start], under a schedule
    of events and a store that changes with time: [None] while the
    request is still waiting when the schedule ends, otherwise the time
    of the reply, what woke the handler, and the reply. *)
Definition participants {C : Collator} (dbAt : Z -> DbManager.t)
    (start : Z) (schedule : list LoopEvent) (productionId lineId : string)
  : option (Z * Wake * Reply) :=
  match settled (run schedule (startWait start)) with
  | Some (time, why) =>
      Some (time, why, respond (dbAt time) productionId lineId)
  | None => None
  end.

(** The wait of a request that has neither been woken nor timed out. *)
Definition pending (t due : Z) : Wait :=
  {| now := t; timer := Some due; listening := true; settled := None |}.

(** The current participant list of a line: its sessions that are not
    expired. *)
Definition currentParticipants (db : DbManager.t)
    (productionId lineId : string) : list UserSession :=
  filter (fun s => String.eqb (Api.productionId s) productionId
                   && String.eqb (Api.lineId s) lineId
                   && negb (isExpired s))
    (DbManager.sessions db).

End LongPoll.


(** ** Numbers as text *)

Module Numbers.

Import Api.

(** The digit [0..9] as a character. *)
Definition digitChar (d : Z) : ascii := ascii_of_nat (Z.to_nat (48 + d)).

(** The decimal digits of [n >= 0] in front of [acc]; [fuel] bounds the
    number of digits. *)
Fixpoint decimal (fuel : positive) (n : Z) (acc : string) : string :=
  let acc' := String (digitChar (n mod 10)) acc in
  if n <? 10 then acc'
  else match fuel with
       | xH => acc'
       | xI f | xO f => decimal f (n / 10) acc'
       end.

Definition digits (a : Z) : string := decimal (Z.to_pos a) a "".

(** The decimal with the fewest significant digits that is read as the
    double [a]: the multiple of the highest power of ten that rounds to
    [a]; of two such multiples the one nearer to [a], and the even one of
    two equally near. The result is the significand and the power of
    ten. *)
Fixpoint shortest (p : nat) (a : Z) : Z * Z :=
  match p with
  | O => (a, 0)
  | S p' =>
      let unit := 10 ^ Z.of_nat p in
      let below := a / unit in
      let above := below + 1 in
      let okBelow := nearestDouble (below * unit) =? a in
      let okAbove := nearestDouble (above * unit) =? a in
      let gapBelow := a - below * unit in
      let gapAbove := above * unit - a in
      if okBelow && okAbove then
        if gapBelow <? gapAbove then (below, Z.of_nat p)
        else if gapAbove <? gapBelow then (above, Z.of_nat p)
        else if Z.even below then (below, Z.of_nat p)
        else (above, Z.of_nat p)
      else if okBelow then (below, Z.of_nat p)
      else if okAbove then (above, Z.of_nat p)
      else shortest p' a
  end.

Fixpoint zeros (n : nat) : string :=
  match n with
  | O => ""
  | S k => String "0" (zeros k)
  end.

(** The text of an integral double [a] above 2^53: the significant digits
    and the zeros after them while that makes at most 21 digits, and the
    exponent form beyond. *)
Definition largeText (a : Z) : string :=
  let '(s, p) := shortest (String.length (digits a)) a in
  let significand := digits s in
  let n := Z.of_nat (String.length significand) + p in
  if n <=? 21 then significand ++ zeros (Z.to_nat p)
  else
    match significand with
    | String d EmptyString => String d ("e+" ++ digits (n - 1))
    | String d rest => String d ("." ++ rest ++ "e+" ++ digits (n - 1))
    | EmptyString => ""
    end.

(** [n.toString()] for the Number that the integer [n] is: up to 2^53 in
    size every integer is a Number and all its digits are printed; a
    larger one stands for the double nearest to it, of which JavaScript
    prints the shortest decimal that is read back as that double. *)
Definition numberToString (n : Z) : string :=
  if Z.abs n <=? 2 ^ 53 then
    if n <? 0 then String "-" (decimal (Z.to_pos (- n)) (- n) "")
    else decimal (Z.to_pos n) n ""
  else
    let v := nearestDouble n in
    if v <? 0 then String "-" (largeText (- v)) else largeText v.

(** A string of white space, and a string that does not go on with a
    digit. *)
Fixpoint allWhiteSpace (s : string) : bool :=
  match s with
  | EmptyString => true
  | String c rest => isWhiteSpace c && allWhiteSpace rest
  end.

Definition noDigitAhead (s : string) : bool :=
  match s with
  | EmptyString => true
  | String c _ => match digitOf c with Some _ => false | None => true end
  end.

End Numbers.

(** ** api_productions: the line listing and the session removal *)

Module Listing.

Import Api Numbers.

(** [toUserResponse(doc)] for a session document: the id and the name are
    rendered as strings, the flags as booleans, and [endpointId] is set only
    when the document has a non-empty string there. *)
Definition toUserResponse (doc : UserSession) : UserResponse :=
  {| sessionId := Some (doc_id doc);
     ur_endpointId := if truthy (endpointId doc) then endpointId doc else None;
     ur_name := Some (orEmpty (name doc));
     ur_isActive := isActive doc;
     ur_isWhip := isWhip doc |}.

Record LineResponse : Type := {
  lr_name : string;
  lr_id : string;
  lr_smbConferenceId : option string;
  lr_participants : list UserResponse;
  lr_programOutputLine : bool
}.

(** [production.lines.map((line) => ...)] over the sessions the query
    returned. *)
Definition linesOf {C : Collator} (production : Production)
    (dbSessions : list UserSession) : list LineResponse :=
  map (fun line =>
         {| lr_name := line_name line;
            lr_id := line_id line;
            lr_smbConferenceId := smbConferenceId line;
            lr_participants :=
              sortParticipants
                (map toUserResponse
                   (filter (fun s => String.eqb (lineId s) (line_id line))
                      dbSessions));
            lr_programOutputLine := programOutputLine line || false |})
    (lines production).

Inductive LinesReply : Type :=
| LinesOk (code : Z) (allLines : list LineResponse)
| LinesFailed (code : Z) (text : string).

(** [GET /production/:productionId/line]; [required] is the outcome of
    [productionManager.requireProduction(parseInt(productionId, 10))]. *)
Definition getProductionLines {C : Collator} (required : Exc Production)
    (db : DbManager.t) : LinesReply :=
  match
    (production <- required ;;
     dbSessions <- DbManager.getSessionsByQuery db
                     {| DbManager.q_productionId :=
                          Some (numberToString (prod_id production));
                        DbManager.q_lineId := None;
                        DbManager.q_isExpired := Some false |} ;;
     ret (linesOf production dbSessions))
  with
  | inr allLinesResponse => LinesOk 200 allLinesResponse
  | inl err =>
      LinesFailed 500 ("Exception thrown when trying to get lines: " ++ err)
  end.

(** The sessions the listing is about: those of the production that are
    not expired and sit on one of its lines. *)
Definition listedSessions (production : Production) (db : DbManager.t)
  : list UserSession :=
  filter (fun s =>
            String.eqb (productionId s) (numberToString (prod_id production))
            && negb (isExpired s)
            && existsb (String.eqb (lineId s))
                 (map line_id (lines production)))
    (DbManager.sessions db).

(** [DELETE /session/:sessionId] *)
Definition deleteSession (db : DbManager.t) (sessionId : string)
  : Reply * DbManager.t :=
  let '(deleted, db') := DbManager.deleteUserSession db sessionId in
  let failed err :=
    reply 500
      (Text ("Exception thrown when trying to delete connection: " ++ err)) in
  match deleted with
  | inr true => (reply 200 (Text ("Deleted connection " ++ sessionId)), db')
  | inr false =>
      (failed (Error ("Could not delete connection " ++ sessionId)), db')
  | inl err => (failed err, db')
  end.

End Listing.

(** ** auth: scopes and the request hook *)

Module Auth.

Import Api.

(** [AuthenticatedUser] as the interface declares it: [scopes] and
    [roles] are arrays of strings. *)
Record AuthenticatedUser : Type := {
  user_id : string;
  organizationId : option string;
  roles : list string;
  scopes : list string;
  provider : option string
}.

(** [hasRequiredScopes(user, required)] *)
Definition hasRequiredScopes (user : option AuthenticatedUser)
    (required : list string) : bool :=
  match user with
  | None => false
  | Some u =>
      match required with
      | [] => true
      | _ =>
          existsb (fun scope => existsb (fun have => String.eqb have scope)
                                  (scopes u))
            required
      end
  end.

(** The argument of [requireScopes]: one scope or an array of scopes. *)
Inductive ScopeArg : Type :=
| OneScope (scope : string)
| ManyScopes (l : list string).

(** [requireScopes(scopes)] as a pre-handler: [Some] is the reply it sends,
    [None] lets the request through to the route. *)
Definition requireScopes (arg : ScopeArg) (user : option AuthenticatedUser)
  : option Reply :=
  let required := match arg with
                  | OneScope s => [s]
                  | ManyScopes l => l
                  end in
  if negb (hasRequiredScopes user required)
  then Some (reply 403 (Message "Insufficient scope"))
  else None.

(** The two gates api_productions builds. *)
Definition requireEngineer : option AuthenticatedUser -> option Reply :=
  requireScopes (ManyScopes ["admin"; "engineer"]).

Definition requireOperator : option AuthenticatedUser -> option Reply :=
  requireScopes (ManyScopes ["admin"; "engineer"; "operator"]).

(** Header values are strings of Latin-1 code units; among those the white
    space of [\s] and of [trim()] is TAB to CR, the space and the
    no-break space. *)
Definition isSpace (c : ascii) : bool :=
  let n := nat_of_ascii c in
  ((n =? 32) || ((9 <=? n) && (n <=? 13)) || (n =? 160))%nat.

Fixpoint dropSpaces (s : string) : string :=
  match s with
  | String c rest => if isSpace c then dropSpaces rest else s
  | EmptyString => s
  end.

Fixpoint trimEnd (s : string) : string :=
  match s with
  | EmptyString => EmptyString
  | String c rest =>
      match trimEnd rest with
      | EmptyString => if isSpace c then EmptyString else String c EmptyString
      | kept => String c kept
      end
  end.

(** [s.trim()] *)
Definition trim (s : string) : string := trimEnd (dropSpaces s).

(** What is left of [s] after the prefix [p], letters compared without
    regard to case. *)
Fixpoint afterPrefixNoCase (p s : string) : option string :=
  match p, s with
  | EmptyString, _ => Some s
  | String a p', String b s' =>
      if Ascii.eqb (lowerAscii a) (lowerAscii b)
      then afterPrefixNoCase p' s' else None
  | String _ _, EmptyString => None
  end.

(** [bearer.replace(/^Bearer\s+/i, '')] *)
Definition stripBearer (bearer : string) : string :=
  match afterPrefixNoCase "bearer" bearer with
  | Some (String c rest) => if isSpace c then dropSpaces rest else bearer
  | _ => bearer
  end.

(** [s.slice(n)] for [n >= 0] *)
Fixpoint slice (n : nat) (s : string) : string :=
  match n, s with
  | O, _ => s
  | S k, String _ rest => slice k rest
  | S _, EmptyString => EmptyString
  end.

(** The object [JSON.parse(Buffer.from(token, 'base64url').toString('utf8'))]
    gives, as far as [parseSimpleToken] reads it: an [id] that is a string
    and [scopes] and [roles] that are arrays of strings, each of them
    possibly missing. *)
Record DecodedToken : Type := {
  dec_id : option string;
  dec_scopes : option (list string);
  dec_roles : option (list string);
  dec_organizationId : option string;
  dec_provider : option string
}.

Definition roleNames : list string := ["admin"; "engineer"; "operator"; "talent"].

(** [parseSimpleToken(token)]; [decode] gives the decoded object, [None]
    when decoding or parsing throws or gives a falsy value. Only the ASCII
    letters of [token.toLowerCase()] matter for the comparison with the four
    role names. *)
Definition parseSimpleToken (decode : string -> option DecodedToken)
    (token : string) : option AuthenticatedUser :=
  let fromJson :=
    match decode token with
    | Some decoded =>
        if truthy (dec_id decoded) then
          match dec_scopes decoded with
          | Some scopes =>
              Some {| user_id := orEmpty (dec_id decoded);
                      organizationId := dec_organizationId decoded;
                      roles := match dec_roles decoded with
                               | Some r => r
                               | None => []
                               end;
                      scopes := scopes;
                      provider := Some (match dec_provider decoded with
                                        | Some p => p
                                        | None => "token"
                                        end) |}
          | None => None
          end
        else None
    | None => None
    end in
  match fromJson with
  | Some user => Some user
  | None =>
      let normalized := lowerString token in
      if existsb (String.eqb normalized) roleNames then
        Some {| user_id := normalized ++ "-token";
                organizationId := None;
                roles := [];
                scopes := [normalized];
                provider := Some "token" |}
      else None
  end.

(** The options of [registerAuth]; the two providers are given by what
    their [authenticate] resolves to. *)
Record AuthOptions : Type := {
  allowAnonymous : option bool;
  defaultScopes : option (list string);
  oidc : option (string -> option AuthenticatedUser);
  saml : option (string -> option AuthenticatedUser);
  decodeToken : string -> option DecodedToken
}.

Inductive Admission : Type :=
| Authenticated (user : AuthenticatedUser)
| Rejected (r : Reply).

Definition anonymous (options : AuthOptions) : AuthenticatedUser :=
  {| user_id := "anonymous";
     organizationId := None;
     roles := [];
     scopes := match defaultScopes options with Some l => l | None => [] end;
     provider := Some "anonymous" |}.

(** The [onRequest] hook; [bearer] is the Authorization header. *)
Definition onRequest (options : AuthOptions) (bearer : option string)
  : Admission :=
  let allow := match allowAnonymous options with
               | Some a => a
               | None => false
               end in
  if negb (truthy bearer) then
    if allow then Authenticated (anonymous options)
    else Rejected (reply 401 (Message "Missing Authorization header"))
  else
    let token := trim (stripBearer (orEmpty bearer)) in
    let user :=
      if String.prefix "oidc." token then
        match oidc options with
        | Some authenticate => authenticate (slice 5 token)
        | None => None
        end
      else if String.prefix "saml." token then
        match saml options with
        | Some authenticate => authenticate (slice 5 token)
        | None => None
        end
      else parseSimpleToken (decodeToken options) token in
    match user with
    | Some u => Authenticated u
    | None =>
        if allow then Authenticated (anonymous options)
        else Rejected (reply 401 (Message "Invalid credentials"))
    end.

(** The user a route's pre-handler sees. *)
Definition userOf (a : Admission) : option AuthenticatedUser :=
  match a with
  | Authenticated u => Some u
  | Rejected _ => None
  end.

End Auth.

(** ** couchdb: sequence numbers and slugs *)

Module Couch.

Import Api Numbers.

(** *** [parseInt(s)] without a radix: radix 16 after [0x] or [0X],
    radix 10 otherwise. *)
Definition hexDigitOf (c : ascii) : option Z :=
  let n := Z.of_nat (nat_of_ascii c) in
  if (48 <=? n) && (n <=? 57) then Some (n - 48)
  else if (97 <=? n) && (n <=? 102) then Some (n - 87)
  else if (65 <=? n) && (n <=? 70) then Some (n - 55)
  else None.

Fixpoint hexPrefix (s : string) (acc : option Z) : option Z :=
  match s with
  | String c rest =>
      match hexDigitOf c with
      | Some d =>
          hexPrefix rest
            (Some (16 * match acc with Some a => a | None => 0 end + d))
      | None => acc
      end
  | EmptyString => acc
  end.

Definition unsigned (t : string) : option Z :=
  match t with
  | String z (String x rest) =>
      if Ascii.eqb z "0" && (Ascii.eqb x "x" || Ascii.eqb x "X")
      then hexPrefix rest None
      else digitsPrefix t None
  | _ => digitsPrefix t None
  end.

Definition parseIntAuto (s : string) : option Z :=
  option_map nearestDouble
    match trimStart s with
    | String "-" rest => option_map Z.opp (unsigned rest)
    | String "+" rest => unsigned rest
    | t => unsigned t
    end.

(** [v.toString()] for a number that is an integer or [NaN]. *)
Definition numberText (v : option Z) : string :=
  match v with
  | Some n => numberToString n
  | None => "NaN"
  end.

(** *** The counter documents *)

Record CounterDoc : Type := {
  counter_id : string;
  counter_value : string
}.

(** The database as one client sees it: whether it can be reached, and the
    counter documents by [_id]. *)
Record t : Type := {
  base : DbManager.t;
  counters : list CounterDoc
}.

(** [nanoDb.get(id)]: [None] is the rejection for a missing document. *)
Definition get (id : string) (db : t) : option CounterDoc :=
  find (fun d => String.eqb (counter_id d) id) (counters db).

(** [nanoDb.insert(doc)]: the document replaces the one with its [_id]. *)
Fixpoint put (doc : CounterDoc) (docs : list CounterDoc) : list CounterDoc :=
  match docs with
  | [] => [doc]
  | d :: rest =>
      if String.eqb (counter_id d) (counter_id doc) then doc :: rest
      else d :: put doc rest
  end.

Definition insert (doc : CounterDoc) (db : t) : t :=
  {| base := base db; counters := put doc (counters db) |}.

(** [getNextSequence(collectionName)]; the number returned is [None] for
    [NaN]. *)
Definition getNextSequence (collectionName : string) (db : t)
  : Exc (option Z) * t :=
  if DbManager.connected (base db) then
    let counterDocId := "counter_" ++ collectionName in
    let counterDoc :=
      match get counterDocId db with
      | Some doc =>
          {| counter_id := counter_id doc;
             counter_value :=
               numberText
                 (option_map (fun n => n + 1)
                    (parseIntAuto (counter_value doc))) |}
      | None => {| counter_id := counterDocId; counter_value := "1" |}
      end in
    (ret (parseInt (counter_value counterDoc)), insert counterDoc db)
  else (DbManager.rejected (base db), db).

(** [n] calls of [getNextSequence] in a row: what each returned, and the
    database after the last. *)
Fixpoint drawSequences (n : nat) (collectionName : string) (db : t)
  : list (Exc (option Z)) * t :=
  match n with
  | O => ([], db)
  | S m =>
      let (result, db') := getNextSequence collectionName db in
      let (results, db'') := drawSequences m collectionName db' in
      (result :: results, db'')
  end.

(** *** [slugify] *)

Definition isSlugChar (c : ascii) : bool :=
  let n := nat_of_ascii c in
  (((97 <=? n) && (n <=? 122)) || ((48 <=? n) && (n <=? 57)))%nat.

Definition isDash (c : ascii) : bool := Ascii.eqb c "-".

(** [replace(/[^a-z0-9]+/g, '-')]; [inRun] says that the character before
    belongs to the run being replaced. *)
Fixpoint dashRuns (inRun : bool) (s : string) : string :=
  match s with
  | EmptyString => EmptyString
  | String c rest =>
      if isSlugChar c then String c (dashRuns false rest)
      else if inRun then dashRuns true rest
      else String "-" (dashRuns true rest)
  end.

Fixpoint dropDashes (s : string) : string :=
  match s with
  | String c rest => if isDash c then dropDashes rest else s
  | EmptyString => s
  end.

Fixpoint dropEndDashes (s : string) : string :=
  match s with
  | EmptyString => EmptyString
  | String c rest =>
      match dropEndDashes rest with
      | EmptyString => if isDash c then EmptyString else String c EmptyString
      | kept => String c kept
      end
  end.

(** [replace(/^-+|-+$/g, '')] *)
Definition trimDashes (s : string) : string := dropEndDashes (dropDashes s).

(** [replace(/-{2,}/g, '-')]; [inRun] says that the character before is a
    dash. *)
Fixpoint squeeze (inRun : bool) (s : string) : string :=
  match s with
  | EmptyString => EmptyString
  | String c rest =>
      if isDash c then
        if inRun then squeeze true rest else String "-" (squeeze true rest)
      else String c (squeeze false rest)
  end.

Definition slugify (toLowerCase : string -> string) (value : string)
  : string :=
  squeeze false (trimDashes (dashRuns false (toLowerCase value))).

(** Strings of [a-z0-9] and dashes in which no dash follows a dash;
    [afterDash] says that the character before is a dash (or that the
    string may not start with one). *)
Fixpoint dashed (afterDash : bool) (s : string) : bool :=
  match s with
  | EmptyString => true
  | String c rest =>
      if isSlugChar c then dashed false rest
      else isDash c && negb afterDash && dashed true rest
  end.

End Couch.

(** ** media pipelines *)

Module MediaPipelineRegistry.

Inductive MediaPipelineType : Type := recording | transcription | streaming.

Inductive Provider : Type := mediaconnect | kinesis | s3 | custom.

Record MediaPipelineDestination : Type := {
  provider : Provider;
  streamArn : option string;
  flowArn : option string;
  bucket : option string;
  endpoint : option string
}.

Record TranscriptionSettings : Type := {
  languageCode : string;
  vocabularyName : option string;
  outputBucket : option string
}.

Record RecordingSettings : Type := {
  retentionDays : Z;
  audioOnly : option bool
}.

Record ProductionMediaPipeline : Type := {
  pipeline_id : string;
  enabled : bool;
  pipeline_type : MediaPipelineType;
  destination : MediaPipelineDestination;
  transcriptionSettings : option TranscriptionSettings;
  recordingSettings : option RecordingSettings;
  tags : option (list (string * string))
}.

(** The argument of [upsert]: a pipeline whose [id] may be missing. *)
Record Draft : Type := {
  draft_id : option string;
  draft_enabled : bool;
  draft_type : MediaPipelineType;
  draft_destination : MediaPipelineDestination;
  draft_transcription : option TranscriptionSettings;
  draft_recording : option RecordingSettings;
  draft_tags : option (list (string * string))
}.

(** The registry is its [pipelines] array. *)
Definition t : Type := list ProductionMediaPipeline.

Definition new (initialPipelines : list ProductionMediaPipeline) : t :=
  initialPipelines.

Definition list (registry : t) : list ProductionMediaPipeline := registry.

(** [findIndex]: [None] is -1. *)
Fixpoint findIndex {A} (p : A -> bool) (l : List.list A) : option nat :=
  match l with
  | [] => None
  | x :: rest =>
      if p x then Some O else option_map S (findIndex p rest)
  end.

(** [splice(index, 1, item)] for an index inside the array. *)
Fixpoint splice1 {A} (index : nat) (item : A) (l : List.list A)
  : List.list A :=
  match l, index with
  | [], _ => [item]
  | _ :: rest, O => item :: rest
  | x :: rest, S i => x :: splice1 i item rest
  end.

(** [{ ...pipeline, id }] *)
Definition withId (pipeline : Draft) (id : string)
  : ProductionMediaPipeline :=
  {| pipeline_id := id;
     enabled := draft_enabled pipeline;
     pipeline_type := draft_type pipeline;
     destination := draft_destination pipeline;
     transcriptionSettings := draft_transcription pipeline;
     recordingSettings := draft_recording pipeline;
     tags := draft_tags pipeline |}.

(** [upsert(pipeline)]; [uuid] is what [randomUUID()] gives. *)
Definition upsert (uuid : string) (pipeline : Draft) (registry : t)
  : ProductionMediaPipeline * t :=
  let id := match draft_id pipeline with
            | Some i => i
            | None => uuid
            end in
  let existingIndex :=
    findIndex (fun p => String.eqb (pipeline_id p) id) registry in
  let payload := withId pipeline id in
  match existingIndex with
  | Some index => (payload, splice1 index payload registry)
  | None => (payload, (registry ++ [payload])%list)
  end.

(** [remove(id)] *)
Definition remove (id : string) (registry : t) : bool * t :=
  let initialLength := List.length registry in
  let kept :=
    filter (fun pipeline => negb (String.eqb (pipeline_id pipeline) id))
      registry in
  (negb (Nat.eqb (List.length kept) initialLength), kept).

End MediaPipelineRegistry.

(** ** metrics: the QoS telemetry collector and its routes *)

Module QoS.

(** The arithmetic of JavaScript numbers that [getAggregates] uses: zero,
    [+], [/] and the number that stands for an array length. *)
Class Arithmetic : Type := {
  number : Type;
  zero : number;
  add : number -> number -> number;
  divide : number -> number -> number;
  ofLength : nat -> number
}.

Section Collector.

Context {A : Arithmetic}.

Inductive Direction : Type := ingress | egress.

Record QoSSample : Type := {
  sessionId : string;
  mos : number;
  packetLoss : number;
  roundTripTime : number;
  bridgeId : option string;
  productionId : option string;
  lineId : option string;
  direction : option Direction;
  observedAt : Z
}.

(** The argument of [recordSample]: [observedAt] may be missing. *)
Record Report : Type := {
  r_sessionId : string;
  r_mos : number;
  r_packetLoss : number;
  r_roundTripTime : number;
  r_bridgeId : option string;
  r_productionId : option string;
  r_lineId : option string;
  r_direction : option Direction;
  r_observedAt : option Z
}.

Record QoSAggregateMetrics : Type := {
  averageMos : number;
  averagePacketLoss : number;
  averageRtt : number;
  sampleCount : nat
}.

(** The [samples] map: its entries in insertion order. *)
Definition t : Type := list QoSSample.

Definition new : t := [].

(** [{ ...sample, observedAt: sample.observedAt ?? Date.now() }] *)
Definition normalize (now : Z) (sample : Report) : QoSSample :=
  {| sessionId := r_sessionId sample;
     mos := r_mos sample;
     packetLoss := r_packetLoss sample;
     roundTripTime := r_roundTripTime sample;
     bridgeId := r_bridgeId sample;
     productionId := r_productionId sample;
     lineId := r_lineId sample;
     direction := r_direction sample;
     observedAt := match r_observedAt sample with
                   | Some at_ => at_
                   | None => now
                   end |}.

(** [Map.prototype.set]: an entry with the key keeps its place and takes
    the value, a new key goes to the end. *)
Fixpoint set (value : QoSSample) (entries : t) : t :=
  match entries with
  | [] => [value]
  | e :: rest =>
      if String.eqb (sessionId e) (sessionId value) then value :: rest
      else e :: set value rest
  end.

(** [recordSample(sample)] at the time [now]. *)
Definition recordSample (now : Z) (sample : Report) (samples : t) : t :=
  set (normalize now sample) samples.

(** [dropSample(sessionId)] *)
Definition dropSample (id : string) (samples : t) : t :=
  filter (fun e => negb (String.eqb (sessionId e) id)) samples.

Definition getSnapshot (samples : t) : list QoSSample := samples.

Record Totals : Type := { t_mos : number; t_packetLoss : number; t_rtt : number }.

Definition getAggregates (samples : t) : QoSAggregateMetrics :=
  let snapshot := getSnapshot samples in
  match snapshot with
  | [] => {| averageMos := zero; averagePacketLoss := zero;
             averageRtt := zero; sampleCount := O |}
  | _ =>
      let totals :=
        fold_left
          (fun acc sample =>
             {| t_mos := add (t_mos acc) (mos sample);
                t_packetLoss := add (t_packetLoss acc) (packetLoss sample);
                t_rtt := add (t_rtt acc) (roundTripTime sample) |})
          snapshot
          {| t_mos := zero; t_packetLoss := zero; t_rtt := zero |} in
      let n := ofLength (List.length snapshot) in
      {| averageMos := divide (t_mos totals) n;
         averagePacketLoss := divide (t_packetLoss totals) n;
         averageRtt := divide (t_rtt totals) n;
         sampleCount := List.length snapshot |}
  end.

(** The collectors a program can hold: a new one, and what [recordSample]
    and [dropSample] make of one. *)
Inductive Reachable : t -> Prop :=
| reach_new : Reachable new
| reach_record : forall samples now sample,
    Reachable samples -> Reachable (recordSample now sample samples)
| reach_drop : forall samples id,
    Reachable samples -> Reachable (dropSample id samples).

(** *** The routes of the metrics plugin *)

Inductive MetricsBody : Type :=
| Disabled (error : string)
| Accepted (status : string)
| QosReport (samples : list QoSSample) (aggregates : QoSAggregateMetrics).

Record MetricsReply : Type := { code : Z; body : MetricsBody }.

(** GET /api/v1/metrics/qos; [telemetry] is [opts.telemetryCollector]. *)
Definition getQos (telemetry : option t) : MetricsReply :=
  match telemetry with
  | None =>
      {| code := 503; body := Disabled "QoS telemetry collector disabled" |}
  | Some samples =>
      {| code := 200;
         body := QosReport (getSnapshot samples) (getAggregates samples) |}
  end.

(** POST /api/v1/metrics/qos *)
Definition postQos (telemetry : option t) (now : Z) (requestBody : Report)
  : MetricsReply * option t :=
  match telemetry with
  | None =>
      ({| code := 503; body := Disabled "QoS telemetry collector disabled" |},
       None)
  | Some samples =>
      ({| code := 202; body := Accepted "accepted" |},
       Some (recordSample now requestBody samples))
  end.

End Collector.

(** Exact rational arithmetic, for examples. *)
Definition rationals : Arithmetic :=
  {| number := Q;
     zero := 0%Q;
     add := Qplus;
     divide := Qdiv;
     ofLength := fun n => inject_Z (Z.of_nat n) |}.

End QoS.
(** ** Sample data for the examples *)

Module Samples.

Import MediaBridgeInstance.

Definition sampleDefinition : MediaBridgeDefinition :=
  {| def_id := "smb-a"; def_baseUrl := "http://smb-a:8080";
     def_apiKey := None; def_weight := Some 2;
     def_healthCheckPath := None; def_metadata := None |}.

Definition otherDefinition : MediaBridgeDefinition :=
  {| def_id := "smb-b"; def_baseUrl := "http://smb-b:8080/";
     def_apiKey := Some "secret"; def_weight := None;
     def_healthCheckPath := None;
     def_metadata := Some [("region", "eu-north-1")] |}.

Definition twoBridges : MediaBridgePool.t :=
  {| MediaBridgePool.bridges :=
       [MediaBridgeInstance.new sampleDefinition;
        MediaBridgeInstance.new otherDefinition];
     MediaBridgePool.probeIntervalMs := 15000 |}.

(** Entries of a MEDIA_BRIDGES array: two that are as declared, one
    without a [baseUrl], and one whose [baseUrl] is a number. *)
Definition entry (i : string) (u : MediaBridgePool.Field string)
    (w : MediaBridgePool.Field Z) : option MediaBridgePool.RawEntry :=
  Some {| MediaBridgePool.raw_id := MediaBridgePool.Typed i;
          MediaBridgePool.raw_baseUrl := u;
          MediaBridgePool.raw_apiKey := MediaBridgePool.Absent;
          MediaBridgePool.raw_weight := w;
          MediaBridgePool.raw_healthCheckPath := MediaBridgePool.Absent;
          MediaBridgePool.raw_metadata := MediaBridgePool.Absent |}.

Definition entryA : option MediaBridgePool.RawEntry :=
  entry "a" (MediaBridgePool.Typed "http://a") (MediaBridgePool.Typed 3).

Definition entryC : option MediaBridgePool.RawEntry :=
  entry "c" (MediaBridgePool.Typed "http://c") MediaBridgePool.Absent.

Definition entryNoUrl : option MediaBridgePool.RawEntry :=
  entry "b" MediaBridgePool.Absent MediaBridgePool.Absent.

Definition entryNumberUrl : option MediaBridgePool.RawEntry :=
  entry "n" (MediaBridgePool.Other true) MediaBridgePool.Absent.

Definition envParams (json : string) : MediaBridgePool.FromEnvParams :=
  {| MediaBridgePool.defaultBaseUrl := "http://localhost:8080";
     MediaBridgePool.defaultApiKey := None;
     MediaBridgePool.envJson := Some json;
     MediaBridgePool.paramProbeIntervalMs := None |}.

(** [{ affinityKey: '' }] and [{ affinityKey: 'line-1' }] *)
Definition emptyKeyOptions : option MediaBridgePool.BridgeSelectionOptions :=
  Some {| MediaBridgePool.affinityKey := Some [];
          MediaBridgePool.allowUnhealthy := None |}.

Definition lineKeyOptions : option MediaBridgePool.BridgeSelectionOptions :=
  Some {| MediaBridgePool.affinityKey :=
            Some [108; 105; 110; 101; 45; 49];
          MediaBridgePool.allowUnhealthy := None |}.

(** Participants: Bob and alice, and two entries that agree on name and
    session id and differ in [isActive]. *)
Definition participant (n i : string) (active : bool) : Api.UserResponse :=
  {| Api.sessionId := Some i; Api.ur_endpointId := None;
     Api.ur_name := Some n; Api.ur_isActive := active;
     Api.ur_isWhip := false |}.

Definition bob : Api.UserResponse := participant "Bob" "s-2" true.
Definition alice : Api.UserResponse := participant "alice" "s-9" true.
Definition aliceUpper : Api.UserResponse := participant "ALICE" "s-1" false.
Definition twinOn : Api.UserResponse := participant "carol" "s-5" true.
Definition twinOff : Api.UserResponse := participant "carol" "s-5" false.

(** A bridge that answers, with or without audio, and a connection step
    that yields [offer]. *)
Definition fullDescription : Api.SmbEndpointDescription :=
  {| Api.audio := Some {| Api.ssrcs := Some [1001; 1002] |} |}.

Definition noAudioDescription : Api.SmbEndpointDescription :=
  {| Api.audio := None |}.

Definition noSsrcsDescription : Api.SmbEndpointDescription :=
  {| Api.audio := Some {| Api.ssrcs := None |} |}.

Definition sessionEnv (endpoint : Api.SmbEndpointDescription)
    (offer : option string) : Handlers.SessionEnv :=
  {| Handlers.newSessionId := "7d0c";
     Handlers.newEndpointId := "e41a";
     Handlers.endpointIdleTimeout := "60";
     Handlers.dateNow := 1700000000000;
     Handlers.createConferenceForLine := fun _ _ => inr "conf-1";
     Handlers.createUserSession := fun _ _ _ _ _ _ => inr tt;
     Handlers.createEndpoint := fun _ _ _ _ _ _ _ => inr endpoint;
     Handlers.updateSession := fun _ _ => inr true;
     Handlers.createConnection := fun _ _ _ _ _ _ _ => inr offer |}.

Definition joinRequest : Handlers.NewSession :=
  {| Handlers.ns_lineId := "1"; Handlers.ns_productionId := "1";
     Handlers.ns_username := "alice" |}.

(** A session whose record reaches the store 200 ms after the request
    starts, in production 1, line "1"; the sample stores are kept by the
    MongoDB manager, where the [_id] is the session id. *)
Definition storedSession : Api.UserSession :=
  {| Api.doc_id := "7d0c"; Api.productionId := "1"; Api.lineId := "1";
     Api.name := Some "alice"; Api.endpointId := Some "e41a";
     Api.sessionDescription := Some fullDescription;
     Api.isActive := true; Api.isExpired := false; Api.isWhip := false;
     Api.lastSeen := 1000 |}.

Definition laggingDb (t : Z) : DbManager.t :=
  {| DbManager.backend := DbManager.MongoDb;
     DbManager.outage := None;
     DbManager.sessions := if 200 <=? t then [storedSession] else [] |}.

Definition emptyDb (t : Z) : DbManager.t :=
  {| DbManager.backend := DbManager.MongoDb;
     DbManager.outage := None; DbManager.sessions := [] |}.

Definition sampleLine : Api.Line :=
  {| Api.line_id := "1"; Api.line_name := "Control Room";
     Api.smbConferenceId := Some "conf-1";
     Api.programOutputLine := false |}.

Definition sampleProduction : Api.Production :=
  {| Api.prod_id := 1; Api.prod_name := "Studio A";
     Api.lines := [sampleLine] |}.

Definition patchEnv (db : Z -> DbManager.t) : Handlers.PatchEnv :=
  {| Handlers.dbAt := db;
     Handlers.requireProduction := fun n =>
       match n with
       | Some 1 => inr sampleProduction
       | _ => inl "Error: Trying to get a production that does not exist"
       end;
     Handlers.requireLine := fun ls i =>
       match ProductionManager.getLine ls i with
       | Some l => inr l
       | None => inl "Error: Trying to get a line that does not exist"
       end;
     Handlers.handleAnswerRequest := fun _ _ _ _ => inr tt |}.

(** Studio A with its control room, alice active on it. *)
Definition studio : ProductionManager.Store :=
  {| ProductionManager.productions := [sampleProduction];
     ProductionManager.backend := DbManager.MongoDb;
     ProductionManager.sessions := [storedSession] |}.

(** The studio after alice has left. *)
Definition studioAfterLeave : ProductionManager.Store :=
  {| ProductionManager.productions := [sampleProduction];
     ProductionManager.backend := DbManager.MongoDb;
     ProductionManager.sessions := [] |}.

Definition expiredSession : Api.UserSession :=
  {| Api.doc_id := "0ld"; Api.productionId := "1"; Api.lineId := "1";
     Api.name := Some "bob"; Api.endpointId := Some "e000";
     Api.sessionDescription := Some fullDescription;
     Api.isActive := false; Api.isExpired := true; Api.isWhip := false;
     Api.lastSeen := 10 |}.

(** The record as [createUserSession] leaves it, before the endpoint
    and its description are written. *)
Definition pendingSession : Api.UserSession :=
  {| Api.doc_id := "7d0c"; Api.productionId := "1"; Api.lineId := "1";
     Api.name := Some "alice"; Api.endpointId := None;
     Api.sessionDescription := None;
     Api.isActive := true; Api.isExpired := false; Api.isWhip := false;
     Api.lastSeen := 1000 |}.

Definition pendingDb (t : Z) : DbManager.t :=
  {| DbManager.backend := DbManager.MongoDb;
     DbManager.outage := None;
     DbManager.sessions := [pendingSession] |}.

(** A store that cannot be reached. *)
Definition downDb (t : Z) : DbManager.t :=
  {| DbManager.backend := DbManager.MongoDb;
     DbManager.outage := Some "Error: connect ECONNREFUSED";
     DbManager.sessions := [storedSession] |}.

End Samples.


(** ** More sample data *)

Module MoreSamples.

Import Samples.

(** A WHIP ingest on the control room whose own flag says inactive. *)
Definition whipSession : Api.UserSession :=
  {| Api.doc_id := "wh1p"; Api.productionId := "1"; Api.lineId := "1";
     Api.name := Some "Program feed"; Api.endpointId := Some "e777";
     Api.sessionDescription := Some fullDescription;
     Api.isActive := false; Api.isExpired := false; Api.isWhip := true;
     Api.lastSeen := 1000 |}.

Definition studioDb : DbManager.t :=
  {| DbManager.backend := DbManager.MongoDb;
     DbManager.outage := None;
     DbManager.sessions := [storedSession; expiredSession; whipSession] |}.

(** The same documents, returned by the store in the opposite order. *)
Definition studioDbReversed : DbManager.t :=
  {| DbManager.backend := DbManager.MongoDb;
     DbManager.outage := None;
     DbManager.sessions := [whipSession; expiredSession; storedSession] |}.

(** Alice's session as the CouchDB manager keeps it, under
    [session_<id>]. *)
Definition couchSession : Api.UserSession :=
  {| Api.doc_id := "session_7d0c"; Api.productionId := "1";
     Api.lineId := "1";
     Api.name := Some "alice"; Api.endpointId := Some "e41a";
     Api.sessionDescription := Some fullDescription;
     Api.isActive := true; Api.isExpired := false; Api.isWhip := false;
     Api.lastSeen := 1000 |}.

Definition couchStudioDb : DbManager.t :=
  {| DbManager.backend := DbManager.CouchDb;
     DbManager.outage := None;
     DbManager.sessions := [couchSession; whipSession] |}.

(** The deployment's options: anonymous access with the operator scope,
    no provider, and tokens that are not base64url JSON. *)
Definition openOptions : Auth.AuthOptions :=
  {| Auth.allowAnonymous := Some true;
     Auth.defaultScopes := Some ["operator"];
     Auth.oidc := None;
     Auth.saml := None;
     Auth.decodeToken := fun _ => None |}.

Definition closedOptions : Auth.AuthOptions :=
  {| Auth.allowAnonymous := None;
     Auth.defaultScopes := Some ["operator"];
     Auth.oidc := None;
     Auth.saml := None;
     Auth.decodeToken := fun _ => None |}.

(** A database in which three productions were numbered and no ingest
    yet. *)
Definition numberedDb : Couch.t :=
  {| Couch.base := couchStudioDb;
     Couch.counters :=
       [ {| Couch.counter_id := "counter_productions";
            Couch.counter_value := "3" |} ] |}.

Definition spoiltDb : Couch.t :=
  {| Couch.base := couchStudioDb;
     Couch.counters :=
       [ {| Couch.counter_id := "counter_productions";
            Couch.counter_value := "three" |} ] |}.

Definition toS3 : MediaPipelineRegistry.MediaPipelineDestination :=
  {| MediaPipelineRegistry.provider := MediaPipelineRegistry.s3;
     MediaPipelineRegistry.streamArn := None;
     MediaPipelineRegistry.flowArn := None;
     MediaPipelineRegistry.bucket := Some "archive";
     MediaPipelineRegistry.endpoint := None |}.

Definition recorder : MediaPipelineRegistry.ProductionMediaPipeline :=
  {| MediaPipelineRegistry.pipeline_id := "rec";
     MediaPipelineRegistry.enabled := true;
     MediaPipelineRegistry.pipeline_type := MediaPipelineRegistry.recording;
     MediaPipelineRegistry.destination := toS3;
     MediaPipelineRegistry.transcriptionSettings := None;
     MediaPipelineRegistry.recordingSettings :=
       Some {| MediaPipelineRegistry.retentionDays := 30;
               MediaPipelineRegistry.audioOnly := Some true |};
     MediaPipelineRegistry.tags := None |}.

Definition captions : MediaPipelineRegistry.Draft :=
  {| MediaPipelineRegistry.draft_id := None;
     MediaPipelineRegistry.draft_enabled := true;
     MediaPipelineRegistry.draft_type := MediaPipelineRegistry.transcription;
     MediaPipelineRegistry.draft_destination := toS3;
     MediaPipelineRegistry.draft_transcription :=
       Some {| MediaPipelineRegistry.languageCode := "en-GB";
               MediaPipelineRegistry.vocabularyName := None;
               MediaPipelineRegistry.outputBucket := None |};
     MediaPipelineRegistry.draft_recording := None;
     MediaPipelineRegistry.draft_tags := None |}.

Definition pausedRecorder : MediaPipelineRegistry.Draft :=
  {| MediaPipelineRegistry.draft_id := Some "rec";
     MediaPipelineRegistry.draft_enabled := false;
     MediaPipelineRegistry.draft_type := MediaPipelineRegistry.recording;
     MediaPipelineRegistry.draft_destination := toS3;
     MediaPipelineRegistry.draft_transcription := None;
     MediaPipelineRegistry.draft_recording := None;
     MediaPipelineRegistry.draft_tags := None |}.

(** A report of a session, as a client posts it, and a later one that
    carries its own time. *)
Definition firstReport : @QoS.Report QoS.rationals :=
  @QoS.Build_Report QoS.rationals "7d0c" (43 # 10)%Q (1 # 100)%Q 40%Q
    None (Some "1") (Some "1") (Some QoS.egress) None.

Definition laterReport : @QoS.Report QoS.rationals :=
  @QoS.Build_Report QoS.rationals "7d0c" (31 # 10)%Q (5 # 100)%Q 120%Q
    None (Some "1") (Some "1") (Some QoS.egress) (Some 5000).

End MoreSamples.
(** * Theorems *)

(** ** One bridge instance *)

Module InstanceFacts.

Import MediaBridgeInstance Samples.

Example fresh_instance :
  state (new sampleDefinition) = healthy_
  /\ baseUrl (new sampleDefinition) = "http://smb-a:8080/"
  /\ weight (new sampleDefinition) = 2
  /\ healthCheckPath (new sampleDefinition) = "health".
Proof. repeat split; reflexivity. Qed.

Example degraded_then_unhealthy :
  state (run [OpRecordFailure] (new sampleDefinition)) = degraded_
  /\ state (run [OpRecordFailure; OpRecordFailure] (new sampleDefinition))
     = degraded_
  /\ state (run [OpRecordFailure; OpRecordFailure; OpProbe ResponseNotOk 0 9 9]
              (new sampleDefinition)) = unhealthy_
  /\ state (run [OpRecordFailure; OpRecordFailure; OpRecordFailure;
                 OpProbe ResponseOk 0 9 9] (new sampleDefinition)) = healthy_.
Proof. repeat split; reflexivity. Qed.

Lemma probed_failure_eq : forall o s t1 t2 b,
    probeFailed o = true ->
    consecutiveFailures (probed o s t1 t2 b) = consecutiveFailures b + 1
    /\ healthy (probed o s t1 t2 b)
       = (if 2 <? consecutiveFailures b + 1 then false else healthy b).
Proof.
  intros o s t1 t2 b Hf.
  destruct o; simpl in Hf; try discriminate; unfold probed; simpl; auto.
Qed.

Lemma probed_success_eq : forall s t1 t2 b,
    consecutiveFailures (probed ResponseOk s t1 t2 b) = 0
    /\ healthy (probed ResponseOk s t1 t2 b) = true.
Proof. intros; unfold probed; simpl; auto. Qed.

Lemma failedProbes_counts : forall n os clock b,
    (forall k, (k < n)%nat -> probeFailed (os k) = true) ->
    consecutiveFailures b = 0 -> healthy b = true ->
    consecutiveFailures (failedProbes n os clock b) = Z.of_nat n
    /\ healthy (failedProbes n os clock b) = (Z.of_nat n <? 3).
Proof.
  induction n as [|n IH]; intros os clock b Hall Hc Hh.
  - simpl. rewrite Hc, Hh. auto.
  - cbn [failedProbes].
    destruct (clock n) as [[s t1] t2].
    destruct (IH os clock b) as [IHc IHh]; auto.
    destruct (probed_failure_eq (os n) s t1 t2 (failedProbes n os clock b))
      as [Ec Eh]; auto.
    rewrite Ec, Eh, IHc, IHh.
    split; [lia|].
    destruct (2 <? Z.of_nat n + 1) eqn:E1;
      destruct (Z.of_nat (S n) <? 3) eqn:E2;
      destruct (Z.of_nat n <? 3) eqn:E3;
      rewrite ?Z.ltb_lt, ?Z.ltb_ge in *; try reflexivity; lia.
Qed.

(** C3. A failed probe (a response that is not ok, or a request that
    threw) adds one to the consecutive-failure counter and leaves a healthy
    instance healthy exactly while the new count is below 3; a successful
    probe sets the counter to zero and the instance healthy at once; so
    after a successful probe, [n] failed probes in a row leave the counter
    at [n] and the instance healthy exactly when [n < 3]. *)
Theorem probe_failure_threshold :
  forall (b : t) (o : ProbeOutcome) (s t1 t2 : Z)
         (n : nat) (os : nat -> ProbeOutcome) (clock : nat -> Z * Z * Z),
    (forall k, (k < n)%nat -> probeFailed (os k) = true) ->
    (probeFailed o = true ->
       consecutiveFailures (probed o s t1 t2 b) = consecutiveFailures b + 1
       /\ (healthy b = true ->
           (healthy (probed o s t1 t2 b) = false
            <-> 3 <= consecutiveFailures (probed o s t1 t2 b))))
    /\ (probeFailed o = false ->
          consecutiveFailures (probed o s t1 t2 b) = 0
          /\ healthy (probed o s t1 t2 b) = true)
    /\ consecutiveFailures
         (failedProbes n os clock (probed ResponseOk s t1 t2 b)) = Z.of_nat n
    /\ healthy (failedProbes n os clock (probed ResponseOk s t1 t2 b))
       = (Z.of_nat n <? 3).
Proof.
  intros b o s t1 t2 n os clock Hall.
  split; [|split].
  - intros Hf.
    destruct (probed_failure_eq o s t1 t2 b Hf) as [Ec Eh].
    split; [exact Ec|].
    intros Hh. rewrite Ec, Eh, Hh.
    destruct (2 <? consecutiveFailures b + 1) eqn:E;
      rewrite ?Z.ltb_lt, ?Z.ltb_ge in E; split; intros; try lia;
      try reflexivity; discriminate.
  - intros Hs. destruct o; simpl in Hs; try discriminate.
    apply probed_success_eq.
  - apply failedProbes_counts; auto; apply probed_success_eq.
Qed.

Lemma probe_failure_threshold_witness :
  consecutiveFailures
    (failedProbes 3 (fun _ => FetchThrew) (fun _ => (0, 5, 5))
       (probed ResponseOk 0 4 4 (new sampleDefinition))) = 3
  /\ healthy
       (failedProbes 3 (fun _ => FetchThrew) (fun _ => (0, 5, 5))
          (probed ResponseOk 0 4 4 (new sampleDefinition))) = false.
Proof.
  destruct (probe_failure_threshold (new sampleDefinition) ResponseNotOk
              0 4 4 3 (fun _ => FetchThrew) (fun _ => (0, 5, 5)))
    as [_ [_ [Hc Hh]]].
  - intros k _. reflexivity.
  - split; [exact Hc | exact Hh].
Defined.

Lemma reachable_counter : forall b,
    Reachable b ->
    0 <= consecutiveFailures b
    /\ (healthy b = false -> 3 <= consecutiveFailures b).
Proof.
  induction 1 as [definition | op b Hb [IH0 IH3]].
  - simpl. split; [lia | discriminate].
  - destruct op as [o s t1 t2 | | ]; simpl.
    + destruct o; unfold probed; simpl.
      * split; [lia | discriminate].
      * destruct (2 <? consecutiveFailures b + 1) eqn:E;
          rewrite ?Z.ltb_lt, ?Z.ltb_ge in E; split; try lia;
          intros Hh; specialize (IH3 Hh); lia.
      * destruct (2 <? consecutiveFailures b + 1) eqn:E;
          rewrite ?Z.ltb_lt, ?Z.ltb_ge in E; split; try lia;
          intros Hh; specialize (IH3 Hh); lia.
    + destruct (2 <? consecutiveFailures b + 1) eqn:E;
        rewrite ?Z.ltb_lt, ?Z.ltb_ge in E; split; try lia;
        intros Hh; specialize (IH3 Hh); lia.
    + split; [lia | discriminate].
Qed.

(** C9. In every state an instance can be in (the constructor's, and any
    state after probes, [recordFailure] and [recordSuccess]), an instance
    that is not healthy has at least 3 consecutive failures; and [state] is
    'unhealthy' exactly when [healthy] is false, 'degraded' exactly when
    [healthy] is true and the counter is positive, and 'healthy' exactly in
    the remaining case, [healthy] true and the counter zero. *)
Theorem instance_health_invariant :
  forall b : t,
    Reachable b ->
    (healthy b = false -> 3 <= consecutiveFailures b)
    /\ (state b = unhealthy_ <-> healthy b = false)
    /\ (state b = degraded_
        <-> healthy b = true /\ 0 < consecutiveFailures b)
    /\ (state b = healthy_
        <-> healthy b = true /\ consecutiveFailures b = 0).
Proof.
  intros b Hb. destruct (reachable_counter b Hb) as [H0 H3].
  split; [exact H3|].
  unfold state.
  destruct (healthy b) eqn:Hh; simpl;
    destruct (0 <? consecutiveFailures b) eqn:E;
    rewrite ?Z.ltb_lt, ?Z.ltb_ge in E;
    repeat split; intros; try discriminate; try reflexivity; try lia;
    try (destruct H; discriminate); try (destruct H; lia).
Qed.

Lemma instance_health_invariant_witness :
  let b := run [OpRecordFailure; OpProbe FetchThrew 0 3 3; OpRecordFailure]
             (new sampleDefinition) in
  Reachable b /\ healthy b = false /\ 3 <= consecutiveFailures b
  /\ state b = unhealthy_.
Proof.
  set (b0 := new sampleDefinition).
  assert (R : Reachable
                (apply OpRecordFailure
                   (apply (OpProbe FetchThrew 0 3 3)
                      (apply OpRecordFailure b0)))).
  { repeat apply reach_op. apply reach_new. }
  destruct (instance_health_invariant _ R) as [H3 [Hu _]].
  split; [exact R|].
  split; [reflexivity|].
  split; [apply H3; reflexivity | apply Hu; reflexivity].
Defined.

End InstanceFacts.

(** ** The pool *)

Module PoolFacts.

Import MediaBridgeInstance MediaBridgePool Samples.

Example hash_abc : hash [97; 98; 99] = 96354.
Proof. reflexivity. Qed.

Example hash_wraps :
  hash [122; 122; 122; 122; 122; 122; 122; 122] = 1910022912.
Proof. reflexivity. Qed.

Example fromEnv_keeps_valid_prefix :
  definitionsFromEnv (fun _ => AnArray [entryA; entryNoUrl; entryC])
    (envParams "[...]")
  = [Declared {| def_id := "a"; def_baseUrl := "http://a"; def_apiKey := None;
                 def_weight := Some 3; def_healthCheckPath := None;
                 def_metadata := None |}].
Proof. reflexivity. Qed.

Example fromEnv_default :
  match fromEnv (fun _ => ParseThrew) (envParams "not json") with
  | inr (Pool p) => map id (bridges p) = ["default"]
  | _ => False
  end.
Proof. reflexivity. Qed.

Example fromEnv_number_for_baseUrl :
  fromEnv (fun _ => AnArray [entryA; entryNumberUrl]) (envParams "[...]")
  = inl "definition.baseUrl.replace is not a function".
Proof. reflexivity. Qed.

Example twoBridges_constructed :
  MediaBridgePool.new [sampleDefinition; otherDefinition] None
  = inr twoBridges.
Proof. reflexivity. Qed.

Lemma new_weight : forall d, 1 <= weight (MediaBridgeInstance.new d).
Proof. intros d. simpl. lia. Qed.

Lemma apply_weight : forall op b,
    weight (MediaBridgeInstance.apply op b) = weight b.
Proof.
  intros [o s t1 t2 | | ] b; simpl; try reflexivity.
  destruct o; reflexivity.
Qed.

Lemma onFirst_wellWeighted : forall i f l,
    (forall b, weight (f b) = weight b) ->
    wellWeighted l -> wellWeighted (onFirst i f l).
Proof.
  intros i f l Hf. induction 1 as [|b l Hb Hl IH]; simpl.
  - constructor.
  - destruct (String.eqb (id b) i).
    + constructor; [rewrite Hf; exact Hb | exact Hl].
    + constructor; assumption.
Qed.

Lemma probeEach_wellWeighted : forall tick l i,
    wellWeighted l -> wellWeighted (probeEach i tick l).
Proof.
  intros tick l. induction l as [|b l IH]; intros i H; simpl.
  - constructor.
  - inversion H; subst.
    destruct (tick i) as [o [[s t1] t2]].
    constructor.
    + change (probed o s t1 t2 b)
        with (MediaBridgeInstance.apply (OpProbe o s t1 t2) b).
      rewrite apply_weight. assumption.
    + apply IH. assumption.
Qed.

Lemma onFirst_nonempty : forall i f l, l <> [] -> onFirst i f l <> [].
Proof.
  intros i f [|b l] H; [congruence|]. simpl.
  destruct (String.eqb (id b) i); discriminate.
Qed.

Lemma probeEach_nonempty : forall tick l i, l <> [] -> probeEach i tick l <> [].
Proof.
  intros tick [|b l] i H; [congruence|]. simpl.
  destruct (tick i) as [o [[s t1] t2]]. discriminate.
Qed.

Lemma onNth_nonempty : forall i f l, l <> [] -> onNth i f l <> [].
Proof.
  intros i f [|b l] H; [congruence|]. destruct i; simpl; discriminate.
Qed.

Lemma onNth_wellWeighted : forall f l i,
    (forall b, weight (f b) = weight b) ->
    wellWeighted l -> wellWeighted (onNth i f l).
Proof.
  intros f l. induction l as [|b l IH]; intros i Hf H; [destruct i; exact H|].
  inversion H; subst. destruct i; simpl.
  - constructor; [rewrite Hf|]; assumption.
  - constructor; [assumption | apply IH; assumption].
Qed.

Lemma reachable_pool : forall pool,
    Reachable pool -> bridges pool <> [] /\ wellWeighted (bridges pool).
Proof.
  induction 1 as [defs interval pool Hnew | op pool Hp [IHn IHw]].
  - destruct defs as [|d defs]; [discriminate|].
    unfold MediaBridgePool.new, ret in Hnew. inversion Hnew; subst; simpl.
    split; [discriminate|].
    constructor; [apply new_weight|].
    apply Forall_forall. intros b Hin. apply in_map_iff in Hin.
    destruct Hin as [d' [<- _]]. apply new_weight.
  - destruct op as [tick | i | i | i o s t1 t2]; simpl.
    + split; [apply probeEach_nonempty | apply probeEach_wellWeighted];
        assumption.
    + split; [apply onFirst_nonempty; assumption|].
      apply onFirst_wellWeighted; [|assumption].
      intros b. apply (apply_weight OpRecordFailure).
    + split; [apply onFirst_nonempty; assumption|].
      apply onFirst_wellWeighted; [|assumption].
      intros b. apply (apply_weight OpRecordSuccess).
    + split; [apply onNth_nonempty; assumption|].
      apply onNth_wellWeighted; [|assumption].
      intros b. apply (apply_weight (OpProbe o s t1 t2)).
Qed.

Lemma definitionsFromEnv_nonempty : forall parse params,
    definitionsFromEnv parse params <> [].
Proof.
  intros parse params. unfold definitionsFromEnv.
  match goal with |- context [match ?x with [] => _ | _ :: _ => _ end] =>
    destruct x eqn:E end; discriminate.
Qed.

Lemma allDeclared_nonempty : forall definitions typed,
    definitions <> [] -> allDeclared definitions = Some typed -> typed <> [].
Proof.
  intros [|p rest] typed Hne H; [congruence|].
  destruct p; simpl in H; try discriminate.
  destruct (allDeclared rest); simpl in H; [|discriminate].
  injection H as <-. discriminate.
Qed.

(** C8. The pool is never empty: the constructor throws on an empty list
    of definitions; a pool that was constructed has one instance per
    definition, so at least one; [fromEnv] never hands the constructor an
    empty list (it falls back to the default definition), so it never
    fails for emptiness and what it builds has at least one instance (it
    fails only with the TypeError of an entry whose [baseUrl] is no
    string); and no later operation empties a pool. *)
Theorem pool_never_empty :
  (forall interval,
      MediaBridgePool.new [] interval
      = inl "MediaBridgePool requires at least one media bridge definition")
  /\ (forall definitions interval pool,
         MediaBridgePool.new definitions interval = inr pool ->
         definitions <> []
         /\ List.length (bridges pool) = List.length definitions
         /\ bridges pool <> [])
  /\ (forall parse params,
         definitionsFromEnv parse params <> []
         /\ (forall pool,
                fromEnv parse params = inr (Pool pool) ->
                bridges pool <> [] /\ Reachable pool)
         /\ (forall n,
                fromEnv parse params = inr (UndeclaredPool n) ->
                n = List.length (definitionsFromEnv parse params)
                /\ n <> 0%nat)
         /\ (forall err,
                fromEnv parse params = inl err ->
                err = "definition.baseUrl.replace is not a function"
                /\ In BadBaseUrl (definitionsFromEnv parse params)))
  /\ (forall pool, Reachable pool -> bridges pool <> []).
Proof.
  split; [reflexivity|]. split; [|split].
  - intros defs interval pool Hnew.
    destruct defs as [|d defs]; [discriminate|].
    unfold MediaBridgePool.new, ret in Hnew. inversion Hnew; subst; simpl.
    split; [discriminate|]. split; [|discriminate].
    rewrite length_map. reflexivity.
  - intros parse params. unfold fromEnv.
    pose proof (definitionsFromEnv_nonempty parse params) as Hne.
    split; [exact Hne|].
    destruct (definitionsFromEnv parse params) as [|p defs] eqn:E;
      [congruence|].
    unfold construct.
    destruct (existsb isBadBaseUrl (p :: defs)) eqn:Ebad.
    { split; [discriminate|]. split; [discriminate|].
      intros err H. injection H as <-. split; [reflexivity|].
      apply existsb_exists in Ebad. destruct Ebad as [x [Hin Hx]].
      destruct x; try discriminate. exact Hin. }
    destruct (allDeclared (p :: defs)) as [typed|] eqn:Ety.
    + pose proof (allDeclared_nonempty _ _ Hne Ety) as Hty.
      destruct typed as [|d typed]; [congruence|].
      split; [|split; [discriminate | discriminate]].
      intros pool H. cbn in H. injection H as <-.
      split; [discriminate|].
      apply (pool_new (d :: typed) (paramProbeIntervalMs params)).
      reflexivity.
    + split; [discriminate|]. split; [|discriminate].
      intros n H. injection H as <-. split; [reflexivity | discriminate].
  - intros pool Hp. apply reachable_pool. assumption.
Qed.

Lemma pool_never_empty_witness :
  List.length (bridges twoBridges) = 2%nat
  /\ bridges (applyPool (PoolRecordFailure "smb-b") twoBridges) <> [].
Proof.
  destruct pool_never_empty as [_ [Hnew [_ Hreach]]].
  split.
  - apply (Hnew [sampleDefinition; otherDefinition] None twoBridges).
    reflexivity.
  - apply Hreach. apply pool_op.
    apply (pool_new [sampleDefinition; otherDefinition] None).
    reflexivity.
Defined.

Lemma weightSum_from : forall l a,
    fold_left (fun sum bridge => sum + weight bridge) l a = a + weightSum l.
Proof.
  unfold weightSum. induction l as [|b l IH]; intros a; simpl; [lia|].
  rewrite (IH (a + weight b)), (IH (weight b)). lia.
Qed.

Lemma weightSum_cons : forall b l, weightSum (b :: l) = weight b + weightSum l.
Proof. intros b l. unfold weightSum at 1. simpl. apply weightSum_from. Qed.

Lemma firstAbove_finds : forall l cursor m,
    l <> [] -> m < cursor + weightSum l ->
    exists b, firstAbove m cursor l = Some b.
Proof.
  induction l as [|b l IH]; intros cursor m Hne Hlt; [congruence|].
  simpl. rewrite weightSum_cons in Hlt.
  destruct (m <? cursor + weight b) eqn:E; [eauto|].
  apply Z.ltb_ge in E.
  apply IH; [|lia].
  intros ->. unfold weightSum in Hlt. simpl in Hlt. lia.
Qed.

Lemma weightSum_positive : forall l,
    wellWeighted l -> l <> [] -> 0 < weightSum l.
Proof.
  induction 1 as [|b l Hb Hl IH]; intros Hne; [congruence|].
  rewrite weightSum_cons.
  destruct l as [|c l]; [unfold weightSum; simpl; lia|].
  assert (0 < weightSum (c :: l)) by (apply IH; discriminate). lia.
Qed.

Lemma candidates_wellWeighted : forall pool options,
    wellWeighted (bridges pool) -> wellWeighted (candidatesOf pool options).
Proof.
  intros pool options H. unfold candidatesOf.
  assert (Hf : wellWeighted (filter healthy (bridges pool))).
  { apply Forall_forall. intros b Hin. apply filter_In in Hin.
    destruct Hin as [Hin _]. revert b Hin. apply Forall_forall. exact H. }
  destruct (filter healthy (bridges pool)) as [|h hs]; [exact H|].
  match goal with |- context [if ?c then _ else _] => destruct c end;
    assumption.
Qed.

Lemma hash_nonneg : forall key, 0 <= hash key.
Proof. intros key. unfold hash. apply Z.abs_nonneg. Qed.

(** What [getBridge] returns once the candidates are known, for a key
    that passes the truthiness test. *)
Lemma getBridge_by_key : forall pool options key random c cs,
    usableKey options = Some key ->
    candidatesOf pool options = c :: cs ->
    wellWeighted (c :: cs) ->
    getBridge pool options random
    = ret (snapshot
             (match firstAbove (Z.rem (hash key) (weightSum (c :: cs))) 0
                      (c :: cs) with
              | Some b => if 1 <? Z.of_nat (List.length (c :: cs)) then b else c
              | None => c
              end)).
Proof.
  intros pool options key random c cs Hkey Hcand Hw.
  unfold getBridge. rewrite Hcand, Hkey.
  destruct cs as [|c2 cs].
  - (* a single candidate: whatever the draw, it is selected *)
    replace (1 <? Z.of_nat (List.length [c])) with false by reflexivity.
    cbn [firstReaching firstAbove].
    destruct (Qle_bool _ _); destruct (_ <? _); reflexivity.
  - replace (1 <? Z.of_nat (List.length (c :: c2 :: cs))) with true
      by (symmetry; apply Z.ltb_lt; simpl List.length; lia).
    assert (Hpos : 0 < weightSum (c :: c2 :: cs))
      by (apply weightSum_positive; [assumption | discriminate]).
    destruct (firstAbove_finds (c :: c2 :: cs) 0
                (Z.rem (hash key) (weightSum (c :: c2 :: cs))))
      as [b Hb]; [discriminate | |].
    + pose proof (Z.rem_bound_pos (hash key) (weightSum (c :: c2 :: cs))
                    (hash_nonneg key) Hpos). lia.
    + rewrite Hb. reflexivity.
Qed.

Lemma weightSum_weights : forall l1 l2,
    map weight l1 = map weight l2 -> weightSum l1 = weightSum l2.
Proof.
  induction l1 as [|a l1 IH]; intros [|b l2] H; try discriminate;
    [reflexivity|].
  simpl in H. injection H as Hw Hrest.
  rewrite !weightSum_cons, Hw, (IH l2 Hrest). reflexivity.
Qed.

(** The affinity loop stops at the same place in two candidate lists of
    the same weights. *)
Lemma firstAbove_parallel : forall l1 l2 m cursor,
    map weight l1 = map weight l2 ->
    (firstAbove m cursor l1 = None /\ firstAbove m cursor l2 = None)
    \/ exists j b1 b2,
        firstAbove m cursor l1 = Some b1 /\ firstAbove m cursor l2 = Some b2
        /\ nth_error l1 j = Some b1 /\ nth_error l2 j = Some b2.
Proof.
  induction l1 as [|a l1 IH]; intros [|b l2] m cursor H; try discriminate.
  - left. split; reflexivity.
  - simpl in H. injection H as Hw Hrest. cbn [firstAbove]. rewrite Hw.
    destruct (m <? cursor + weight b).
    + right. exists 0%nat, a, b. repeat split; reflexivity.
    + destruct (IH l2 m (cursor + weight b) Hrest)
        as [[H1 H2] | [j [b1 [b2 [H1 [H2 [N1 N2]]]]]]].
      * left. split; assumption.
      * right. exists (S j), b1, b2. repeat split; assumption.
Qed.

Lemma same_field : forall {A} (f : MediaBridgeInstance.t -> A) l1 l2 i b1 b2,
    map f l1 = map f l2 ->
    nth_error l1 i = Some b1 -> nth_error l2 i = Some b2 ->
    f b1 = f b2.
Proof.
  intros A f l1 l2 i b1 b2 H N1 N2.
  assert (E : nth_error (map f l1) i = nth_error (map f l2) i)
    by (rewrite H; reflexivity).
  rewrite !nth_error_map, N1, N2 in E. simpl in E. congruence.
Qed.

Lemma candidatesOf_nonempty : forall pool options,
    bridges pool <> [] -> candidatesOf pool options <> [].
Proof.
  intros pool options H. unfold candidatesOf.
  destruct (filter healthy (bridges pool)) as [|h hs]; [exact H|].
  match goal with |- context [if ?c then _ else _] => destruct c end;
    [discriminate | exact H].
Qed.

(** C4, amended. Selection with a non-empty affinity key is deterministic:
    two calls of [getBridge] with the same non-empty key, against
    candidate lists that hold the same instances (ids, in the same order)
    with the same weights and health flags, return the instance at the
    same place of the candidate list, whatever [Math.random()] gives and
    whatever else differs between the two moments (the time and latency
    of the last probe, the failure counters). When the candidate lists are
    the same in every field, so are the two snapshots. *)
Theorem affinity_selection_deterministic :
  forall (p1 p2 : MediaBridgePool.t) (key : CodeUnits)
         (allow1 allow2 : option bool) (r1 r2 : Q),
    let o1 := Some {| affinityKey := Some key; allowUnhealthy := allow1 |} in
    let o2 := Some {| affinityKey := Some key; allowUnhealthy := allow2 |} in
    Reachable p1 -> Reachable p2 ->
    key <> [] ->
    map id (candidatesOf p1 o1) = map id (candidatesOf p2 o2) ->
    map weight (candidatesOf p1 o1) = map weight (candidatesOf p2 o2) ->
    map healthy (candidatesOf p1 o1) = map healthy (candidatesOf p2 o2) ->
    (exists (i : nat) (b1 b2 : MediaBridgeInstance.t),
        nth_error (candidatesOf p1 o1) i = Some b1
        /\ nth_error (candidatesOf p2 o2) i = Some b2
        /\ getBridge p1 o1 r1 = inr (snapshot b1)
        /\ getBridge p2 o2 r2 = inr (snapshot b2)
        /\ id b1 = id b2 /\ weight b1 = weight b2
        /\ healthy b1 = healthy b2)
    /\ (candidatesOf p1 o1 = candidatesOf p2 o2 ->
        getBridge p1 o1 r1 = getBridge p2 o2 r2).
Proof.
  intros p1 p2 key allow1 allow2 r1 r2 o1 o2 R1 R2 Hkey Hid Hw Hh.
  assert (K1 : usableKey o1 = Some key)
    by (destruct key; [congruence | reflexivity]).
  assert (K2 : usableKey o2 = Some key)
    by (destruct key; [congruence | reflexivity]).
  destruct (reachable_pool p1 R1) as [N1 W1].
  destruct (reachable_pool p2 R2) as [N2 W2].
  pose proof (candidates_wellWeighted p1 o1 W1) as Wc1.
  pose proof (candidates_wellWeighted p2 o2 W2) as Wc2.
  pose proof (candidatesOf_nonempty p1 o1 N1) as Nc1.
  pose proof (candidatesOf_nonempty p2 o2 N2) as Nc2.
  destruct (candidatesOf p1 o1) as [|a l1] eqn:E1; [congruence|].
  destruct (candidatesOf p2 o2) as [|b l2] eqn:E2; [congruence|].
  pose proof (getBridge_by_key p1 o1 key r1 a l1 K1 E1 Wc1) as G1.
  pose proof (getBridge_by_key p2 o2 key r2 b l2 K2 E2 Wc2) as G2.
  split.
  - assert (Hlen : List.length (a :: l1) = List.length (b :: l2))
      by (rewrite <- (length_map weight (a :: l1)), Hw, length_map;
          reflexivity).
    rewrite (weightSum_weights _ _ Hw), Hlen in G1.
    assert (Hsel :
              exists i b1 b2,
                nth_error (a :: l1) i = Some b1
                /\ nth_error (b :: l2) i = Some b2
                /\ getBridge p1 o1 r1 = inr (snapshot b1)
                /\ getBridge p2 o2 r2 = inr (snapshot b2)).
    { destruct (firstAbove_parallel (a :: l1) (b :: l2)
                  (Z.rem (hash key) (weightSum (b :: l2))) 0 Hw)
        as [[F1 F2] | [j [b1 [b2 [F1 [F2 [I1 I2]]]]]]].
      - rewrite F1 in G1. rewrite F2 in G2.
        exists 0%nat, a, b. repeat split; assumption.
      - rewrite F1 in G1. rewrite F2 in G2.
        destruct (1 <? Z.of_nat (List.length (b :: l2))).
        + exists j, b1, b2. repeat split; assumption.
        + exists 0%nat, a, b. repeat split; assumption. }
    destruct Hsel as [i [b1 [b2 [I1 [I2 [S1 S2]]]]]].
    exists i, b1, b2.
    split; [exact I1|]. split; [exact I2|].
    split; [exact S1|]. split; [exact S2|].
    split; [exact (same_field id _ _ i b1 b2 Hid I1 I2)|].
    split; [exact (same_field weight _ _ i b1 b2 Hw I1 I2)|].
    exact (same_field healthy _ _ i b1 b2 Hh I1 I2).
  - intros Hsame. injection Hsame as <- <-.
    rewrite G1, G2. reflexivity.
Qed.

Lemma affinity_selection_deterministic_witness :
  exists i b1 b2,
    nth_error (bridges twoBridges) i = Some b1
    /\ nth_error (bridges (applyPool (PoolProbeOne 1 ResponseOk 0 5 5)
                            twoBridges)) i = Some b2
    /\ getBridge twoBridges lineKeyOptions 0 = inr (snapshot b1)
    /\ getBridge (applyPool (PoolProbeOne 1 ResponseOk 0 5 5) twoBridges)
         lineKeyOptions (3 # 4) = inr (snapshot b2)
    /\ id b1 = id b2.
Proof.
  destruct (affinity_selection_deterministic twoBridges
              (applyPool (PoolProbeOne 1 ResponseOk 0 5 5) twoBridges)
              [108; 105; 110; 101; 45; 49] None None 0 (3 # 4))
    as [[i [b1 [b2 [H1 [H2 [H3 [H4 [H5 _]]]]]]]] _].
  - apply (pool_new [sampleDefinition; otherDefinition] None). reflexivity.
  - apply pool_op.
    apply (pool_new [sampleDefinition; otherDefinition] None). reflexivity.
  - discriminate.
  - reflexivity.
  - reflexivity.
  - reflexivity.
  - exists i, b1, b2. repeat split; assumption.
Defined.

Example affinity_line_key :
  option_map snap_id
    (match getBridge twoBridges lineKeyOptions (3 # 4) with
     | inr s => Some s | inl _ => None end) = Some "smb-b".
Proof. reflexivity. Qed.

(** C4 as stated fails: the empty string is an affinity key the caller can
    supply, the test [options?.affinityKey && ...] treats it as absent,
    and the weighted random draw decides; two draws select different
    instances of the same pool. *)
Lemma affinity_empty_key_counterexample :
  Reachable twoBridges
  /\ option_map snap_id
       (match getBridge twoBridges emptyKeyOptions 0 with
        | inr s => Some s | inl _ => None end) = Some "smb-a"
  /\ option_map snap_id
       (match getBridge twoBridges emptyKeyOptions (3 # 4) with
        | inr s => Some s | inl _ => None end) = Some "smb-b"
  /\ getBridge twoBridges emptyKeyOptions 0
     <> getBridge twoBridges emptyKeyOptions (3 # 4).
Proof.
  split.
  { apply (pool_new [sampleDefinition; otherDefinition] None). reflexivity. }
  split; [reflexivity|]. split; [reflexivity|].
  intros H. vm_compute in H. discriminate H.
Qed.

End PoolFacts.

(** ** [sortParticipants] *)

Module SortFacts.

Import Api Samples.

Section AnyComparison.

Context {A : Type} (cmp : A -> A -> Z) (Hcmp : Consistent cmp).

#[local] Abbreviation le := (ordered cmp).

Lemma le_total : forall a b, ~ le a b -> le b a.
Proof.
  unfold ordered. intros a b H.
  apply (cmp_flip cmp Hcmp). lia.
Qed.

Lemma insertBy_perm : forall x l, Permutation (x :: l) (insertBy cmp x l).
Proof.
  intros x l. induction l as [|y l IH]; simpl; [reflexivity|].
  destruct (cmp x y <=? 0); [reflexivity|].
  rewrite perm_swap. constructor. exact IH.
Qed.

Lemma arraySort_perm : forall l, Permutation l (arraySort cmp l).
Proof.
  induction l as [|x l IH]; simpl; [constructor|].
  rewrite <- insertBy_perm. constructor. exact IH.
Qed.

Lemma insertBy_sorted : forall x l,
    StronglySorted le l -> StronglySorted le (insertBy cmp x l).
Proof.
  intros x l. induction 1 as [|y l Hs IH Hall]; simpl.
  - repeat constructor.
  - destruct (cmp x y <=? 0) eqn:E.
    + apply Z.leb_le in E.
      constructor; [constructor; assumption|].
      constructor; [exact E|].
      eapply Forall_impl; [|exact Hall].
      intros z Hz. unfold ordered in *.
      eapply (cmp_trans cmp Hcmp); eassumption.
    + apply Z.leb_gt in E.
      constructor; [exact IH|].
      rewrite <- insertBy_perm.
      constructor; [|exact Hall].
      apply le_total. unfold ordered. lia.
Qed.

Lemma arraySort_sorted : forall l, StronglySorted le (arraySort cmp l).
Proof.
  induction l as [|x l IH]; simpl; [constructor|].
  apply insertBy_sorted. exact IH.
Qed.

(** Two sorted arrangements of the same elements coincide when no two
    different elements tie. *)
Lemma sorted_unique : forall l1 l2,
    (forall a b, In a l1 -> In b l1 -> cmp a b = 0 -> a = b) ->
    StronglySorted le l1 -> StronglySorted le l2 ->
    Permutation l1 l2 -> l1 = l2.
Proof.
  induction l1 as [|a l1 IH]; intros l2 Htie S1 S2 P.
  - apply Permutation_nil in P. congruence.
  - destruct l2 as [|b l2].
    { apply Permutation_sym, Permutation_nil in P. discriminate. }
    inversion S1 as [|? ? S1' A1]; subst.
    inversion S2 as [|? ? S2' A2]; subst.
    assert (Hab : a = b).
    { assert (Ina : In a (b :: l2))
        by (eapply Permutation_in; [exact P | left; reflexivity]).
      assert (Inb : In b (a :: l1))
        by (eapply Permutation_in;
            [apply Permutation_sym; exact P | left; reflexivity]).
      destruct Ina as [<-|Ina]; [reflexivity|].
      destruct Inb as [->|Inb]; [reflexivity|].
      rewrite Forall_forall in A1, A2.
      specialize (A1 b Inb). specialize (A2 a Ina). unfold ordered in A1, A2.
      apply Htie; [left; reflexivity | right; exact Inb |].
      apply (cmp_flip cmp Hcmp) in A2. lia. }
    subst b. f_equal.
    apply IH; try assumption.
    + intros x y Hx Hy. apply Htie; right; assumption.
    + eapply Permutation_cons_inv. exact P.
Qed.

Lemma arraySort_unique : forall l1 l2,
    (forall a b, In a l1 -> In b l1 -> cmp a b = 0 -> a = b) ->
    Permutation l1 l2 -> arraySort cmp l1 = arraySort cmp l2.
Proof.
  intros l1 l2 Htie P.
  apply sorted_unique; try apply arraySort_sorted.
  - intros a b Ha Hb. apply Htie.
    + eapply Permutation_in; [apply Permutation_sym, arraySort_perm | exact Ha].
    + eapply Permutation_in; [apply Permutation_sym, arraySort_perm | exact Hb].
  - rewrite <- (arraySort_perm l1), <- (arraySort_perm l2). exact P.
Qed.

End AnyComparison.

Section WithCollator.

Context {C : Collator} {L : LawfulCollator C}.

Lemma compareParticipants_spec : forall a b,
    compareParticipants a b = byNameThenSessionId a b.
Proof.
  intros a b. unfold compareParticipants, byNameThenSessionId.
  set (na := orEmpty (option_map toLocaleLowerCase (ur_name a))).
  set (nb := orEmpty (option_map toLocaleLowerCase (ur_name b))).
  destruct (nonEmpty na || nonEmpty nb) eqn:E.
  - destruct (localeCompareBase na nb =? 0); reflexivity.
  - apply orb_false_elim in E. destruct E as [Ea Eb].
    destruct na; [|discriminate]. destruct nb; [|discriminate].
    rewrite (cmp_refl _ base_consistent). reflexivity.
Qed.

Lemma byNameThenSessionId_consistent : Consistent byNameThenSessionId.
Proof.
  pose proof base_consistent as B. pose proof plain_consistent as P.
  constructor.
  - intros a. unfold byNameThenSessionId.
    rewrite (cmp_refl _ B). simpl. apply (cmp_refl _ P).
  - intros a b. unfold byNameThenSessionId.
    set (na := orEmpty (option_map toLocaleLowerCase (ur_name a))).
    set (nb := orEmpty (option_map toLocaleLowerCase (ur_name b))).
    pose proof (cmp_flip _ B na nb) as F1.
    pose proof (cmp_flip _ B nb na) as F2.
    pose proof (cmp_flip _ P (orEmpty (sessionId a)) (orEmpty (sessionId b))).
    destruct (localeCompareBase na nb =? 0) eqn:E1;
      destruct (localeCompareBase nb na =? 0) eqn:E2;
      rewrite ?Z.eqb_eq, ?Z.eqb_neq in E1, E2; lia.
  - intros a b c. unfold byNameThenSessionId.
    set (na := orEmpty (option_map toLocaleLowerCase (ur_name a))).
    set (nb := orEmpty (option_map toLocaleLowerCase (ur_name b))).
    set (nc := orEmpty (option_map toLocaleLowerCase (ur_name c))).
    pose proof (cmp_trans _ B na nb nc) as T1.
    pose proof (cmp_trans _ B nc na nb) as T2.
    pose proof (cmp_trans _ B nb nc na) as T3.
    pose proof (cmp_flip _ B na nc) as F1.
    pose proof (cmp_flip _ B nc na) as F2.
    pose proof (cmp_flip _ B na nb) as F3.
    pose proof (cmp_flip _ B nb na) as F4.
    pose proof (cmp_flip _ B nb nc) as F5.
    pose proof (cmp_flip _ B nc nb) as F6.
    pose proof (cmp_trans _ P (orEmpty (sessionId a)) (orEmpty (sessionId b))
                  (orEmpty (sessionId c))) as TP.
    destruct (localeCompareBase na nb =? 0) eqn:E1;
      destruct (localeCompareBase nb nc =? 0) eqn:E2;
      destruct (localeCompareBase na nc =? 0) eqn:E3;
      rewrite ?Z.eqb_eq, ?Z.eqb_neq in E1, E2, E3; lia.
Qed.

Lemma compareParticipants_consistent : Consistent compareParticipants.
Proof.
  destruct byNameThenSessionId_consistent as [R F T].
  constructor; intros; rewrite ?compareParticipants_spec; auto.
  eapply T; rewrite <- compareParticipants_spec; eassumption.
Qed.

End WithCollator.

(** The sample collator is lawful. *)

Lemma ascii_compare_N : forall a b,
    Ascii.compare a b = N.compare (N_of_ascii a) (N_of_ascii b).
Proof. reflexivity. Qed.

Lemma string_compare_refl : forall a, String.compare a a = Eq.
Proof.
  induction a as [|x a IH]; simpl; [reflexivity|].
  rewrite ascii_compare_N, N.compare_refl. exact IH.
Qed.

Lemma string_compare_trans : forall a b c,
    String.compare a b <> Gt -> String.compare b c <> Gt ->
    String.compare a c <> Gt.
Proof.
  induction a as [|x a IH]; intros [|y b] [|z c]; simpl;
    try congruence.
  rewrite !ascii_compare_N.
  destruct (N.compare_spec (N_of_ascii x) (N_of_ascii y)) as [Exy|Lxy|Gxy];
    destruct (N.compare_spec (N_of_ascii y) (N_of_ascii z)) as [Eyz|Lyz|Gyz];
    destruct (N.compare_spec (N_of_ascii x) (N_of_ascii z)) as [Exz|Lxz|Gxz];
    try congruence; try lia.
  apply IH.
Qed.

Lemma codePointCompare_consistent : Consistent codePointCompare.
Proof.
  constructor; unfold codePointCompare.
  - intros a. rewrite string_compare_refl. reflexivity.
  - intros a b. rewrite (String.compare_antisym a b).
    destruct (String.compare b a); simpl; lia.
  - intros a b c H1 H2.
    pose proof (string_compare_trans a b c) as T.
    destruct (String.compare a b); destruct (String.compare b c);
      destruct (String.compare a c); simpl in *; try lia;
      exfalso; apply T; congruence.
Qed.

Lemma codePointCollator_lawful : LawfulCollator codePointCollator.
Proof. constructor; simpl; apply codePointCompare_consistent. Qed.

(** Arrays in the heap. *)

Lemma readArray_appended : forall (h : Heap) v,
    readArray (h ++ [v])%list (List.length h) = v.
Proof. intros h v. unfold readArray. apply nth_middle. Qed.

Lemma readArray_old : forall (h : Heap) v k,
    (k < List.length h)%nat -> readArray (h ++ [v])%list k = readArray h k.
Proof. intros h v k Hk. unfold readArray. apply app_nth1. exact Hk. Qed.

Lemma readArray_written : forall (h : Heap) k v,
    (k < List.length h)%nat -> readArray (writeArray h k v) k = v.
Proof.
  unfold readArray. induction h as [|a h IH]; intros k v Hk; simpl in *.
  - lia.
  - destruct k; simpl; [reflexivity|]. apply IH. lia.
Qed.

Lemma readArray_other : forall (h : Heap) k j v,
    j <> k -> readArray (writeArray h k v) j = readArray h j.
Proof.
  unfold readArray. induction h as [|a h IH]; intros k j v Hjk; simpl.
  - reflexivity.
  - destruct k, j; simpl; try reflexivity; try congruence.
    apply IH. congruence.
Qed.

Lemma filter_permutation : forall {A} (f : A -> bool) (l1 l2 : list A),
    Permutation l1 l2 -> Permutation (filter f l1) (filter f l2).
Proof.
  intros A f l1 l2 P. induction P as [|x l1 l2 P IH|x y l|l1 l2 l3 P1 IH1 P2 IH2];
    simpl.
  - constructor.
  - destruct (f x); [constructor|]; exact IH.
  - destruct (f x), (f y); try reflexivity. apply perm_swap.
  - etransitivity; eassumption.
Qed.

(** Participants that tie in the sort carry session ids that
    [localeCompare] does not tell apart. *)
Lemma tie_on_sessionId : forall {C : Collator} (a b : UserResponse),
    compareParticipants a b = 0 ->
    localeCompare (orEmpty (sessionId a)) (orEmpty (sessionId b)) = 0.
Proof.
  intros C a b. unfold compareParticipants. cbv zeta.
  destruct (nonEmpty _ || nonEmpty _); [|trivial].
  destruct (localeCompareBase _ _ =? 0) eqn:E; simpl; [trivial|].
  intros H. apply Z.eqb_neq in E. contradiction.
Qed.

(** The sorted list of the participants made from stored sessions does
    not depend on the order in which the store returns the sessions, when
    [localeCompare] tells the ids of different sessions apart. *)
Lemma sorted_sessions_stable :
  forall (C : Collator), LawfulCollator C ->
  forall (toResponse : UserSession -> UserResponse) (keep : UserSession -> bool)
         (l1 l2 : list UserSession),
    (forall s, sessionId (toResponse s) = Some (doc_id s)) ->
    Permutation l1 l2 ->
    (forall s t, In s l1 -> In t l1 ->
                 localeCompare (doc_id s) (doc_id t) = 0 -> s = t) ->
    sortParticipants (map toResponse (filter keep l1))
    = sortParticipants (map toResponse (filter keep l2)).
Proof.
  intros C L toResponse keep l1 l2 Hid P Htie.
  pose proof compareParticipants_consistent as Hc.
  apply (arraySort_unique _ Hc).
  - intros a b Ha Hb Hcmp.
    apply in_map_iff in Ha. destruct Ha as [s [<- Hs]].
    apply in_map_iff in Hb. destruct Hb as [t [<- Ht]].
    apply filter_In in Hs. apply filter_In in Ht.
    apply tie_on_sessionId in Hcmp. rewrite !Hid in Hcmp. simpl in Hcmp.
    rewrite (Htie s t (proj1 Hs) (proj1 Ht) Hcmp). reflexivity.
  - apply Permutation_map. apply filter_permutation. exact P.
Qed.

Example sort_by_name_then_id :
  sortParticipants (C := codePointCollator) [bob; alice; aliceUpper]
  = [aliceUpper; alice; bob].
Proof. reflexivity. Qed.

(** C10, amended. With the host's comparisons consistent,
    [sortParticipants] returns a permutation of its input that is sorted by
    the lower-cased name (the comparison sees a name only through its
    lower-cased form) and, between names that compare equal, by session
    id; it sorts a copy, leaving the array it was given, and every other
    array, as it was; and two lists holding the same participants are
    sorted into the same list provided no two different participants of
    the list compare equal. That proviso holds for what the line and
    long-poll endpoints sort whenever [localeCompare] tells the ids of
    different stored sessions apart, and then their replies do not depend
    on the order in which the store returns the sessions. *)
Theorem sortParticipants_ordering :
  forall (C : Collator),
    LawfulCollator C ->
    forall participants : list UserResponse,
      Permutation participants (sortParticipants participants)
      /\ StronglySorted (fun a b => byNameThenSessionId a b <= 0)
           (sortParticipants participants)
      /\ (forall a a' b,
             option_map toLocaleLowerCase (ur_name a)
             = option_map toLocaleLowerCase (ur_name a') ->
             sessionId a = sessionId a' ->
             compareParticipants a b = compareParticipants a' b
             /\ compareParticipants b a = compareParticipants b a')
      /\ (forall (h : Heap) (r k : nat),
             (r < List.length h)%nat -> (k < List.length h)%nat ->
             readArray h r = participants ->
             readArray (fst (sortParticipantsRef h r)) k = readArray h k
             /\ snd (sortParticipantsRef h r) <> r
             /\ readArray (fst (sortParticipantsRef h r))
                  (snd (sortParticipantsRef h r))
                = sortParticipants participants)
      /\ (forall other,
             Permutation participants other ->
             (forall a b, In a participants -> In b participants ->
                          compareParticipants a b = 0 -> a = b) ->
             sortParticipants other = sortParticipants participants)
      /\ (forall db1 db2 : DbManager.t,
             DbManager.outage db1 = DbManager.outage db2 ->
             Permutation (DbManager.sessions db1) (DbManager.sessions db2) ->
             (forall s t,
                 In s (DbManager.sessions db1) ->
                 In t (DbManager.sessions db1) ->
                 localeCompare (doc_id s) (doc_id t) = 0 -> s = t) ->
             (forall productionId lineId,
                 LongPoll.respond db1 productionId lineId
                 = LongPoll.respond db2 productionId lineId)
             /\ (forall required,
                    Listing.getProductionLines required db1
                    = Listing.getProductionLines required db2)).
Proof.
  intros C L participants.
  pose proof compareParticipants_consistent as Hc.
  split; [apply arraySort_perm|].
  split.
  { unfold sortParticipants.
    eapply StronglySorted_ind with (P := fun l =>
      StronglySorted (ordered byNameThenSessionId) l);
      [constructor | | apply (arraySort_sorted _ Hc)].
    intros a l _ IH Hall. constructor; [exact IH|].
    eapply Forall_impl; [|exact Hall].
    intros b Hb. unfold ordered in *.
    rewrite <- compareParticipants_spec. exact Hb. }
  split.
  { intros a a' b Hn Hs. unfold compareParticipants.
    rewrite Hn, Hs. split; reflexivity. }
  split.
  { intros h r k Hr Hk Hread. unfold sortParticipantsRef. simpl.
    rewrite readArray_appended.
    split; [|split].
    - rewrite readArray_other by lia. apply readArray_old. exact Hk.
    - lia.
    - rewrite readArray_written by (rewrite length_app; simpl; lia).
      rewrite Hread. reflexivity. }
  split.
  { intros other P Htie. symmetry.
    apply (arraySort_unique _ Hc); assumption. }
  intros db1 db2 Hout P Htie.
  assert (Hquery : forall q keep toResponse,
             (forall s, sessionId (toResponse s) = Some (doc_id s)) ->
             match DbManager.getSessionsByQuery db1 q,
                   DbManager.getSessionsByQuery db2 q with
             | inr s1, inr s2 =>
                 sortParticipants (map toResponse (filter keep s1))
                 = sortParticipants (map toResponse (filter keep s2))
             | inl e1, inl e2 => e1 = e2
             | _, _ => False
             end).
  { intros q keep toResponse Hid.
    unfold DbManager.getSessionsByQuery, DbManager.connected,
      DbManager.rejected, throw, ret.
    rewrite <- Hout. destruct (DbManager.outage db1); [reflexivity|].
    apply (sorted_sessions_stable C L toResponse keep); [exact Hid | |].
    - apply filter_permutation. exact P.
    - intros s t Hs Ht. apply filter_In in Hs. apply filter_In in Ht.
      apply Htie; [apply Hs | apply Ht]. }
  split.
  - intros productionId lineId. unfold LongPoll.respond.
    pose proof (Hquery
                  {| DbManager.q_productionId := Some productionId;
                     DbManager.q_lineId := Some lineId;
                     DbManager.q_isExpired := Some false |}
                  (fun _ => true) LongPoll.toParticipant
                  (fun s => eq_refl)) as H.
    destruct (DbManager.getSessionsByQuery db1 _) as [e1|s1];
      destruct (DbManager.getSessionsByQuery db2 _) as [e2|s2];
      try contradiction.
    + rewrite H. reflexivity.
    + assert (Hall : forall l : list UserSession,
                 filter (fun _ => true) l = l).
      { induction l as [|x l IH]; simpl; [|rewrite IH]; reflexivity. }
      rewrite !Hall in H. rewrite H. reflexivity.
  - intros [err|production]; [reflexivity|].
    unfold Listing.getProductionLines, bind, ret.
    set (q := {| DbManager.q_productionId :=
                   Some (Numbers.numberToString (prod_id production));
                 DbManager.q_lineId := None;
                 DbManager.q_isExpired := Some false |}).
    pose proof (fun keep => Hquery q keep Listing.toUserResponse
                              (fun s => eq_refl)) as H.
    destruct (DbManager.getSessionsByQuery db1 q) as [e1|s1];
      destruct (DbManager.getSessionsByQuery db2 q) as [e2|s2];
      try (exfalso; exact (H (fun _ => true))).
    + rewrite (H (fun _ => true)). reflexivity.
    + f_equal. unfold Listing.linesOf. apply map_ext. intros line.
      f_equal. apply H.
Qed.

Lemma sortParticipants_ordering_witness :
  LawfulCollator codePointCollator
  /\ sortParticipants (C := codePointCollator) [aliceUpper; bob; alice]
     = sortParticipants (C := codePointCollator) [bob; alice; aliceUpper]
  /\ LongPoll.respond (C := codePointCollator) MoreSamples.studioDb "1" "1"
     = LongPoll.respond (C := codePointCollator)
         MoreSamples.studioDbReversed "1" "1".
Proof.
  split; [exact codePointCollator_lawful|].
  destruct (sortParticipants_ordering codePointCollator
              codePointCollator_lawful [bob; alice; aliceUpper])
    as [_ [_ [_ [_ [Hsame Hstore]]]]].
  split; [|apply (Hstore MoreSamples.studioDb MoreSamples.studioDbReversed)].
  2: reflexivity.
  2: exact (Permutation_rev (DbManager.sessions MoreSamples.studioDb)).
  2:{ intros s t Hs Ht. simpl in Hs, Ht.
      destruct Hs as [<-|[<-|[<-|[]]]]; destruct Ht as [<-|[<-|[<-|[]]]];
        vm_compute; intros E; try reflexivity; discriminate E. }
  apply Hsame.
  - apply Permutation_sym.
    change [aliceUpper; bob; alice] with ([aliceUpper] ++ [bob; alice])%list.
    change [bob; alice; aliceUpper] with ([bob; alice] ++ [aliceUpper])%list.
    apply Permutation_app_comm.
  - intros a b Ha Hb.
    simpl in Ha, Hb.
    destruct Ha as [<-|[<-|[<-|[]]]]; destruct Hb as [<-|[<-|[<-|[]]]];
      vm_compute; intros E; try reflexivity; discriminate E.
Defined.

(** C10 as stated fails where two different participants tie: the sort is
    stable, so two lists with the same participants come out in two
    orders. *)
Lemma sortParticipants_tie_counterexample :
  LawfulCollator codePointCollator
  /\ Permutation [twinOn; twinOff] [twinOff; twinOn]
  /\ sortParticipants (C := codePointCollator) [twinOn; twinOff]
     = [twinOn; twinOff]
  /\ sortParticipants (C := codePointCollator) [twinOff; twinOn]
     = [twinOff; twinOn]
  /\ sortParticipants (C := codePointCollator) [twinOn; twinOff]
     <> sortParticipants (C := codePointCollator) [twinOff; twinOn].
Proof.
  split; [exact codePointCollator_lawful|].
  split; [apply perm_swap|].
  split; [reflexivity|]. split; [reflexivity|].
  intros H. vm_compute in H. discriminate H.
Qed.

End SortFacts.

(** ** [POST /session] *)

Module PostSessionFacts.

Import Api Handlers Samples.

Example parseInt_samples :
  parseInt "60" = Some 60 /\ parseInt "  -12px" = Some (-12)
  /\ parseInt "abc" = None /\ parseInt "" = None /\ parseInt "+7" = Some 7.
Proof. repeat split; reflexivity. Qed.

Example post_session_created :
  fst (postSession (sessionEnv fullDescription (Some "v=0")) joinRequest)
  = reply 201 (SessionCreated "7d0c" "v=0").
Proof. reflexivity. Qed.

Example post_session_no_offer :
  code (fst (postSession (sessionEnv fullDescription None) joinRequest))
  = 400.
Proof. reflexivity. Qed.

Example post_session_no_ssrcs :
  fst (postSession (sessionEnv noSsrcsDescription (Some "v=0")) joinRequest)
  = reply 500
      (Text "Exception thrown when trying to create endpoint: Error: Missing ssrcs when creating sdp offer for endpoint").
Proof. reflexivity. Qed.

(** The user session registered before the endpoint is asked for stays
    registered when the description is then rejected: nothing after the
    throw takes it back. *)
Example post_session_no_ssrcs_calls :
  snd (postSession (sessionEnv noSsrcsDescription (Some "v=0")) joinRequest)
  = [CreateConferenceForLine "1" "1";
     CreateUserSession "conf-1" "1" "1" "7d0c" "alice" false;
     CreateEndpoint "conf-1" "e41a" (Some 60)].
Proof. reflexivity. Qed.

Lemma truthy_some : forall o, truthy o = true ->
    exists s, o = Some s /\ s <> "" /\ orEmpty o = s.
Proof.
  intros [[|c s]|] H; simpl in H; try discriminate.
  exists (String c s). repeat split. discriminate.
Qed.

(** C1, amended. The handler replies 201, 400 or 500. When every step
    succeeds and the endpoint description has audio and ssrcs, the reply
    is 201 with the generated session id and the offer if the connection
    step gave a non-empty offer, and 400 if it gave none; 201 and 400 are
    sent in no other case. Otherwise the reply is 500 with the text of
    what was thrown: by the step that failed, or by the handler itself
    for a description without audio or without ssrcs. In that last case
    no offer goes out, the session record is not updated and no connection
    is made, but the user session registered before the endpoint was
    asked for is left in place. *)
Theorem post_session_outcomes :
  forall (env : SessionEnv) (request : NewSession),
    let r := fst (postSession env request) in
    let made := snd (postSession env request) in
    let pid := ns_productionId request in
    let lid := ns_lineId request in
    let user := ns_username request in
    let sid := newSessionId env in
    let eid := newEndpointId env in
    let idle := parseInt (endpointIdleTimeout env) in
    let conferenceOf := createConferenceForLine env pid lid in
    let registeredOf conf :=
      createUserSession env conf pid lid sid user false in
    let endpointOf conf :=
      createEndpoint env conf eid true true true "ssrc-rewrite" idle in
    let update endpoint :=
      {| up_endpointId := Some eid; up_sessionDescription := Some endpoint;
         up_isActive := true; up_lastSeen := dateNow env |} in
    let storedOf endpoint := updateSession env sid (update endpoint) in
    let offerOf conf endpoint :=
      createConnection env conf pid lid endpoint user eid sid in
    let failed err :=
      reply 500
        (Text ("Exception thrown when trying to create endpoint: " ++ err)) in
    let noOffer :=
      reply 400
        (MessageTrace "Could not establish a media connection"
           "Failed to generate sdp offer for endpoint") in
    let rejected endpoint err :=
      (audio endpoint = None
       /\ err = "Error: Missing audio when creating sdp offer for endpoint")
      \/ (exists a, audio endpoint = Some a /\ ssrcs a = None
          /\ err = "Error: Missing ssrcs when creating sdp offer for endpoint")
    in
    let thrown err :=
      conferenceOf = inl err
      \/ (exists conf,
             conferenceOf = inr conf
             /\ (registeredOf conf = inl err
                 \/ (registeredOf conf = inr tt
                     /\ (endpointOf conf = inl err
                         \/ (exists endpoint,
                                endpointOf conf = inr endpoint
                                /\ (rejected endpoint err
                                    \/ (complete endpoint = true
                                        /\ (storedOf endpoint = inl err
                                            \/ ((exists ok,
                                                    storedOf endpoint = inr ok)
                                                /\ offerOf conf endpoint
                                                   = inl err)))))))))
    in
    (code r = 201 \/ code r = 400 \/ code r = 500)
    /\ (forall conf endpoint ok offer,
           conferenceOf = inr conf -> registeredOf conf = inr tt ->
           endpointOf conf = inr endpoint -> complete endpoint = true ->
           storedOf endpoint = inr ok -> offerOf conf endpoint = inr offer ->
           r = (if truthy offer
                then reply 201 (SessionCreated sid (orEmpty offer))
                else noOffer)
           /\ made = [CreateConferenceForLine pid lid;
                      CreateUserSession conf pid lid sid user false;
                      CreateEndpoint conf eid idle;
                      UpdateSession sid (update endpoint);
                      CreateConnection conf pid lid endpoint user eid sid])
    /\ (code r = 201 ->
        exists conf endpoint ok sdp,
          conferenceOf = inr conf /\ registeredOf conf = inr tt
          /\ endpointOf conf = inr endpoint /\ complete endpoint = true
          /\ storedOf endpoint = inr ok
          /\ offerOf conf endpoint = inr (Some sdp) /\ sdp <> ""
          /\ r = reply 201 (SessionCreated sid sdp))
    /\ (code r = 400 ->
        exists conf endpoint ok offer,
          conferenceOf = inr conf /\ registeredOf conf = inr tt
          /\ endpointOf conf = inr endpoint /\ complete endpoint = true
          /\ storedOf endpoint = inr ok
          /\ offerOf conf endpoint = inr offer /\ truthy offer = false
          /\ r = noOffer)
    /\ (code r = 500 -> exists err, thrown err /\ r = failed err)
    /\ (forall err, thrown err -> r = failed err)
    /\ (forall conf endpoint,
           conferenceOf = inr conf -> registeredOf conf = inr tt ->
           endpointOf conf = inr endpoint -> complete endpoint = false ->
           (exists err, rejected endpoint err /\ r = failed err)
           /\ made = [CreateConferenceForLine pid lid;
                      CreateUserSession conf pid lid sid user false;
                      CreateEndpoint conf eid idle]).
Proof.
  intros env request r made pid lid user sid eid idle conferenceOf
    registeredOf endpointOf update storedOf offerOf failed noOffer rejected
    thrown.
  assert (Hrun :
    (exists err, thrown err /\ r = failed err)
    \/ (exists conf endpoint ok offer,
           conferenceOf = inr conf /\ registeredOf conf = inr tt
           /\ endpointOf conf = inr endpoint /\ complete endpoint = true
           /\ storedOf endpoint = inr ok /\ offerOf conf endpoint = inr offer
           /\ r = (if truthy offer
                   then reply 201 (SessionCreated sid (orEmpty offer))
                   else noOffer)
           /\ made = [CreateConferenceForLine pid lid;
                      CreateUserSession conf pid lid sid user false;
                      CreateEndpoint conf eid idle;
                      UpdateSession sid (update endpoint);
                      CreateConnection conf pid lid endpoint user eid sid])).
  { subst r made. unfold postSession, postSessionBody, cbind, call, quietly.
    fold pid lid user sid eid idle.
    fold conferenceOf.
    destruct conferenceOf as [e1|conf] eqn:E1.
    { left. exists e1. split; [left; reflexivity | reflexivity]. }
    fold (registeredOf conf).
    destruct (registeredOf conf) as [e2|[]] eqn:E2.
    { left. exists e2. split; [|reflexivity].
      right. exists conf. split; [reflexivity|]. left. exact E2. }
    fold (endpointOf conf).
    destruct (endpointOf conf) as [e3|endpoint] eqn:E3.
    { left. exists e3. split; [|reflexivity].
      right. exists conf. split; [reflexivity|]. right.
      split; [exact E2|]. left. exact E3. }
    destruct (audio endpoint) as [a|] eqn:Ea.
    2:{ left. eexists. split; [|reflexivity].
        right. exists conf. split; [reflexivity|]. right.
        split; [exact E2|]. right. exists endpoint. split; [exact E3|].
        left. left. split; [exact Ea | reflexivity]. }
    destruct (ssrcs a) as [l|] eqn:Es.
    2:{ left. eexists. split; [|reflexivity].
        right. exists conf. split; [reflexivity|]. right.
        split; [exact E2|]. right. exists endpoint. split; [exact E3|].
        left. right. exists a. repeat split; assumption. }
    assert (Hc : complete endpoint = true)
      by (unfold complete; rewrite Ea, Es; reflexivity).
    fold (update endpoint). fold (storedOf endpoint).
    destruct (storedOf endpoint) as [e4|ok] eqn:E4.
    { left. exists e4. split; [|reflexivity].
      right. exists conf. split; [reflexivity|]. right.
      split; [exact E2|]. right. exists endpoint. split; [exact E3|].
      right. split; [exact Hc|]. left. exact E4. }
    fold (offerOf conf endpoint).
    destruct (offerOf conf endpoint) as [e5|offer] eqn:E5.
    { left. exists e5. split; [|reflexivity].
      right. exists conf. split; [reflexivity|]. right.
      split; [exact E2|]. right. exists endpoint. split; [exact E3|].
      right. split; [exact Hc|]. right. split; [exists ok; exact E4|].
      exact E5. }
    right. exists conf, endpoint, ok, offer.
    repeat (split; [first [reflexivity | assumption]|]).
    destruct (truthy offer); split; reflexivity. }
  assert (Hmade : forall conf endpoint,
             conferenceOf = inr conf -> registeredOf conf = inr tt ->
             endpointOf conf = inr endpoint -> complete endpoint = false ->
             made = [CreateConferenceForLine pid lid;
                     CreateUserSession conf pid lid sid user false;
                     CreateEndpoint conf eid idle]).
  { intros conf endpoint H1 H2 H3 H4. subst made.
    unfold postSession, postSessionBody, cbind, call, quietly.
    fold pid lid user sid eid idle. fold conferenceOf. rewrite H1.
    fold (registeredOf conf). rewrite H2.
    fold (endpointOf conf). rewrite H3.
    unfold complete in H4.
    destruct (audio endpoint) as [a|]; [|reflexivity].
    destruct (ssrcs a); [discriminate | reflexivity]. }
  assert (Hcomplete : forall endpoint err,
             rejected endpoint err -> complete endpoint = false).
  { intros endpoint err [[Ha _] | [a [Ha [Hs _]]]]; unfold complete;
      rewrite Ha; [|rewrite Hs]; reflexivity. }
  assert (Honce : forall e1 e2, thrown e1 -> thrown e2 -> e1 = e2).
  { intros e1 e2 T1 T2. unfold thrown in T1, T2.
    destruct T1 as [T1 | [c1 [C1 T1]]]; destruct T2 as [T2 | [c2 [C2 T2]]];
      try congruence.
    assert (c2 = c1) by congruence. subst c2.
    destruct T1 as [T1 | [R1 T1]]; destruct T2 as [T2 | [R2 T2]];
      try congruence.
    destruct T1 as [T1 | [p1 [P1 T1]]]; destruct T2 as [T2 | [p2 [P2 T2]]];
      try congruence.
    assert (p2 = p1) by congruence. subst p2.
    destruct T1 as [T1 | [K1 T1]]; destruct T2 as [T2 | [K2 T2]].
    - destruct T1 as [[A1 M1] | [a1 [A1 [S1 M1]]]];
        destruct T2 as [[A2 M2] | [a2 [A2 [S2 M2]]]]; congruence.
    - pose proof (Hcomplete _ _ T1). congruence.
    - pose proof (Hcomplete _ _ T2). congruence.
    - destruct T1 as [T1 | [[o1 O1] T1]]; destruct T2 as [T2 | [[o2 O2] T2]];
        congruence. }
  split; [|split; [|split; [|split; [|split; [|split]]]]].
  - destruct Hrun as [[err [_ ->]] | [c [p [ok [offer H]]]]].
    + right. right. reflexivity.
    + destruct H as [_ [_ [_ [_ [_ [_ [-> _]]]]]]].
      destruct (truthy offer); [left | right; left]; reflexivity.
  - intros conf endpoint ok offer H1 H2 H3 H4 H5 H6.
    destruct Hrun as [[err [T _]] | [c [p [ok' [offer' H]]]]].
    + exfalso. unfold thrown in T.
      destruct T as [T | [c [C T]]]; [congruence|].
      assert (c = conf) by congruence. subst c.
      destruct T as [T | [_ T]]; [congruence|].
      destruct T as [T | [p [P T]]]; [congruence|].
      assert (p = endpoint) by congruence. subst p.
      destruct T as [T | [_ T]].
      * pose proof (Hcomplete _ _ T). congruence.
      * destruct T as [T | [_ T]]; congruence.
    + destruct H as [C [_ [P [_ [_ [O [Hr Hm]]]]]]].
      assert (c = conf) by congruence. subst c.
      assert (p = endpoint) by congruence. subst p.
      assert (offer' = offer) by congruence. subst offer'.
      split; assumption.
  - intros Hcode.
    destruct Hrun as [[err [_ Hr]] | [c [p [ok [offer H]]]]].
    + rewrite Hr in Hcode. discriminate.
    + destruct H as [C [R [P [K [U [O [Hr _]]]]]]].
      destruct (truthy offer) eqn:Et;
        [|rewrite Hr in Hcode; discriminate].
      destruct (truthy_some offer Et) as [sdp [-> [Hne Hor]]].
      exists c, p, ok, sdp.
      repeat (split; [assumption|]). exact Hr.
  - intros Hcode.
    destruct Hrun as [[err [_ Hr]] | [c [p [ok [offer H]]]]].
    + rewrite Hr in Hcode. discriminate.
    + destruct H as [C [R [P [K [U [O [Hr _]]]]]]].
      destruct (truthy offer) eqn:Et;
        [rewrite Hr in Hcode; discriminate|].
      exists c, p, ok, offer.
      repeat (split; [assumption|]). exact Hr.
  - intros Hcode.
    destruct Hrun as [[err [T Hr]] | [c [p [ok [offer H]]]]].
    + exists err. split; assumption.
    + destruct H as [_ [_ [_ [_ [_ [_ [Hr _]]]]]]].
      rewrite Hr in Hcode. destruct (truthy offer); discriminate.
  - intros err T.
    destruct Hrun as [[err' [T' Hr]] | [c [p [ok [offer H]]]]].
    + rewrite (Honce err err' T T'). exact Hr.
    + exfalso. destruct H as [C [R [P [K [U [O _]]]]]].
      assert (T' : thrown "no" -> False).
      { clear T. intros T. unfold thrown in T.
        destruct T as [T | [c' [C' T]]]; [congruence|].
        assert (c' = c) by congruence. subst c'.
        destruct T as [T | [_ T]]; [congruence|].
        destruct T as [T | [p' [P' T]]]; [congruence|].
        assert (p' = p) by congruence. subst p'.
        destruct T as [T | [_ T]].
        * pose proof (Hcomplete _ _ T). congruence.
        * destruct T as [T | [_ T]]; congruence. }
      unfold thrown in T.
      destruct T as [T | [c' [C' T]]]; [congruence|].
      assert (c' = c) by congruence. subst c'.
      destruct T as [T | [_ T]]; [congruence|].
      destruct T as [T | [p' [P' T]]]; [congruence|].
      assert (p' = p) by congruence. subst p'.
      destruct T as [T | [_ T]].
      * pose proof (Hcomplete _ _ T). congruence.
      * destruct T as [T | [_ T]]; congruence.
  - intros conf endpoint H1 H2 H3 H4.
    split; [|exact (Hmade conf endpoint H1 H2 H3 H4)].
    destruct Hrun as [[err [T Hr]] | [c [p [ok [offer H]]]]].
    + exists err. split; [|exact Hr]. unfold thrown in T.
      destruct T as [T | [c [C T]]]; [congruence|].
      assert (c = conf) by congruence. subst c.
      destruct T as [T | [_ T]]; [congruence|].
      destruct T as [T | [p [P T]]]; [congruence|].
      assert (p = endpoint) by congruence. subst p.
      destruct T as [T | [K _]]; [exact T | congruence].
    + exfalso. destruct H as [C [_ [P [K _]]]].
      assert (c = conf) by congruence. subst c.
      assert (p = endpoint) by congruence. subst p. congruence.
Qed.

Lemma post_session_outcomes_witness :
  fst (postSession (sessionEnv noSsrcsDescription (Some "v=0")) joinRequest)
  = reply 500
      (Text "Exception thrown when trying to create endpoint: Error: Missing ssrcs when creating sdp offer for endpoint")
  /\ snd (postSession (sessionEnv noSsrcsDescription (Some "v=0"))
            joinRequest)
     = [CreateConferenceForLine "1" "1";
        CreateUserSession "conf-1" "1" "1" "7d0c" "alice" false;
        CreateEndpoint "conf-1" "e41a" (Some 60)].
Proof.
  destruct (post_session_outcomes
              (sessionEnv noSsrcsDescription (Some "v=0")) joinRequest)
    as [_ [_ [_ [_ [_ [Hthrown Hrejected]]]]]].
  split.
  - apply Hthrown. right. exists "conf-1". split; [reflexivity|].
    right. split; [reflexivity|]. right. exists noSsrcsDescription.
    split; [reflexivity|]. left. right.
    exists {| ssrcs := None |}.
    repeat split; reflexivity.
  - apply (Hrejected "conf-1" noSsrcsDescription); reflexivity.
Defined.

(** C1 as stated fails: when the bridge's endpoint description has no
    audio part, the handler throws, the [catch] replies 500, and the reply
    is neither the 201 nor the 400 of the claim. *)
Lemma post_session_missing_audio_counterexample :
  fst (postSession (sessionEnv noAudioDescription (Some "v=0")) joinRequest)
  = reply 500
      (Text "Exception thrown when trying to create endpoint: Error: Missing audio when creating sdp offer for endpoint")
  /\ ~ (code (fst (postSession (sessionEnv noAudioDescription (Some "v=0"))
                     joinRequest)) = 201
        \/ code (fst (postSession (sessionEnv noAudioDescription (Some "v=0"))
                        joinRequest)) = 400).
Proof.
  split; [reflexivity|].
  intros [H|H]; vm_compute in H; discriminate H.
Qed.

End PostSessionFacts.

(** ** [PATCH /session/:sessionId] *)

Module PatchSessionFacts.

Import Api Handlers Samples.

Example patch_after_lag :
  patchSession (patchEnv laggingDb) 0 "7d0c" "v=0 answer"
  = (reply 204 NoBody,
     {| clock := 200;
        log := [ReadSession "7d0c" 0;
                Slept 100; ReadSession "7d0c" 100;
                Slept 100; ReadSession "7d0c" 200;
                UpdatedSession "7d0c" true 200;
                AnswerHandled (Some "conf-1") "e41a" fullDescription
                  "v=0 answer"] |}).
Proof. reflexivity. Qed.

Example patch_unknown :
  patchSession (patchEnv emptyDb) 0 "nope" "v=0 answer"
  = (reply 410
       (Message ("User session id " ++ dquote ++ "nope" ++ dquote
                 ++ " not found.")),
     {| clock := 500;
        log := ReadSession "nope" 0 :: trail "nope" 0 5 |}).
Proof. reflexivity. Qed.

Lemma truthy_endpoint : forall o, truthy o = true ->
    exists s, o = Some s /\ s <> "" /\ orEmpty o = s.
Proof.
  intros [[|c s]|] H; simpl in H; try discriminate.
  exists (String c s). repeat split. discriminate.
Qed.

Lemma readSession_eq : forall env sid w,
    readSession env sid w
    = (DbManager.getSession (dbAt env (clock w)) sid,
       {| clock := clock w;
          log := (log w ++ [ReadSession sid (clock w)])%list |}).
Proof. reflexivity. Qed.

Lemma attempt_next : forall env t sid j,
    attempt env (t + 100) sid j = attempt env t sid (S j).
Proof.
  intros. unfold attempt. do 2 f_equal. lia.
Qed.

Lemma attempt_first : forall env t sid,
    DbManager.getSession (dbAt env t) sid = attempt env t sid 0.
Proof.
  intros. unfold attempt. do 2 f_equal. lia.
Qed.

Lemma attempt_connected : forall env t sid j u,
    attempt env t sid j = inr u ->
    DbManager.connected (dbAt env (t + 100 * Z.of_nat j)) = true.
Proof.
  unfold attempt, DbManager.getSession. intros env t sid j u H.
  destruct (DbManager.connected _); [reflexivity | discriminate].
Qed.

(** One round of the loop. *)
Lemma retryRead_round : forall env sid n u w,
    incomplete u = true ->
    retryRead env sid (S n) u w
    = match attempt env (clock w) sid 1 with
      | inl e =>
          (inl e, {| clock := clock w + 100;
                     log := (log w ++ trail sid (clock w) 1)%list |})
      | inr again =>
          retryRead env sid n again
            {| clock := clock w + 100;
               log := (log w ++ trail sid (clock w) 1)%list |}
      end.
Proof.
  intros env sid n u w Hu. cbn [retryRead]. rewrite Hu.
  unfold pbind at 1. unfold sleep at 1.
  unfold pbind at 1. rewrite readSession_eq. cbn [clock log].
  replace (attempt env (clock w) sid 1)
    with (DbManager.getSession (dbAt env (clock w + 100)) sid)
    by (unfold attempt; do 2 f_equal; lia).
  cbn [trail]. rewrite <- app_assoc. cbn [app].
  destruct (DbManager.getSession (dbAt env (clock w + 100)) sid);
    reflexivity.
Qed.

Lemma retryRead_stop : forall env sid n u w,
    incomplete u = false \/ n = 0%nat ->
    retryRead env sid n u w = (inr u, w).
Proof.
  intros env sid n u w [H | ->]; [|reflexivity].
  destruct n; cbn [retryRead]; [|rewrite H]; reflexivity.
Qed.

(** The loop for any store: it makes [m <= n] rounds, 100 ms apart; it
    stops early only on a complete record or on a read that threw. *)
Lemma retryRead_shape : forall env sid n u w,
    exists m,
      (m <= n)%nat
      /\ clock (snd (retryRead env sid n u w)) = clock w + 100 * Z.of_nat m
      /\ log (snd (retryRead env sid n u w))
         = (log w ++ trail sid (clock w) m)%list
      /\ match fst (retryRead env sid n u w) with
         | inr found =>
             (incomplete found = false \/ m = n)
             /\ (m = 0%nat -> found = u)
             /\ (m <> 0%nat -> attempt env (clock w) sid m = inr found)
         | inl e => m <> 0%nat /\ attempt env (clock w) sid m = inl e
         end.
Proof.
  intros env sid n. induction n as [|n IH]; intros u w.
  - exists 0%nat. rewrite retryRead_stop by auto. simpl.
    rewrite app_nil_r. repeat split; auto; try lia; congruence.
  - destruct (incomplete u) eqn:Hu.
    2:{ exists 0%nat. rewrite retryRead_stop by auto. simpl.
        rewrite app_nil_r. repeat split; auto; try lia; congruence. }
    rewrite retryRead_round by assumption.
    destruct (attempt env (clock w) sid 1) as [e|again] eqn:E1.
    + exists 1%nat. simpl. repeat split; auto; try lia.
    + set (w1 := {| clock := clock w + 100;
                    log := (log w ++ trail sid (clock w) 1)%list |}).
      destruct (IH again w1) as [m [Hm [Hc [Hl Hres]]]].
      exists (S m). split; [lia|].
      split; [rewrite Hc; subst w1; cbn [clock]; lia|].
      split.
      { rewrite Hl. subst w1. cbn [clock log trail].
        rewrite <- app_assoc. reflexivity. }
      destruct (fst (retryRead env sid n again w1)) as [e|found].
      * destruct Hres as [Hm0 Ha]. split; [lia|].
        subst w1. cbn [clock] in Ha. rewrite attempt_next in Ha. exact Ha.
      * destruct Hres as [Hstop [H0 Hpos]].
        split; [destruct Hstop; [left; assumption | right; lia]|].
        split; [lia|]. intros _.
        destruct m as [|m'].
        -- rewrite (H0 eq_refl). exact E1.
        -- subst w1. cbn [clock] in Hpos.
           rewrite attempt_next in Hpos. apply Hpos. lia.
Qed.

(** The loop for a store whose reads are known: it stops at the first
    complete record, or after all [n] rounds. *)
Lemma retryRead_found : forall env sid n results k w,
    (k <= n)%nat ->
    (forall j, (1 <= j <= k)%nat ->
               attempt env (clock w) sid j = inr (results j)) ->
    (forall j, (j < k)%nat -> incomplete (results j) = true) ->
    (incomplete (results k) = false \/ k = n) ->
    retryRead env sid n (results 0%nat) w
    = (inr (results k),
       {| clock := clock w + 100 * Z.of_nat k;
          log := (log w ++ trail sid (clock w) k)%list |}).
Proof.
  intros env sid n. induction n as [|n IH];
    intros results k w Hk Hread Hinc Hstop.
  - assert (k = 0)%nat by lia. subst k.
    rewrite retryRead_stop by auto. destruct w as [c l]. simpl.
    rewrite app_nil_r. do 2 f_equal. lia.
  - destruct k as [|k].
    + rewrite retryRead_stop by (destruct Hstop; [auto | lia]).
      destruct w as [c l]. simpl. rewrite app_nil_r. do 2 f_equal. lia.
    + rewrite retryRead_round by (apply Hinc; lia).
      rewrite (Hread 1%nat) by lia.
      rewrite (IH (fun j => results (S j)) k).
      * cbn [clock log trail]. rewrite <- app_assoc. cbn [app].
        replace (clock w + 100 + 100 * Z.of_nat k)
          with (clock w + 100 * Z.of_nat (S k)) by lia.
        reflexivity.
      * lia.
      * intros j Hj. cbn [clock]. rewrite attempt_next.
        apply Hread. lia.
      * intros j Hj. apply Hinc. lia.
      * destruct Hstop; [left; assumption | right; lia].
Qed.

Lemma applyAnswer_none : forall env sid ans w,
    applyAnswer env sid ans None w = (inr (gone sid), w).
Proof. reflexivity. Qed.

Lemma applyAnswer_ok : forall env sid ans s d e p line w,
    sessionDescription s = Some d ->
    endpointId s = Some e -> e <> "" ->
    DbManager.connected (dbAt env (clock w)) = true ->
    requireProduction env (parseInt (productionId s)) = inr p ->
    requireLine env (lines p) (lineId s) = inr line ->
    handleAnswerRequest env (smbConferenceId line) e d ans = inr tt ->
    applyAnswer env sid ans (Some s) w
    = (inr (reply 204 NoBody),
       {| clock := clock w;
          log := (log w ++ [UpdatedSession sid true (clock w);
                            AnswerHandled (smbConferenceId line) e d ans])
                 %list |}).
Proof.
  intros env sid ans s d e p line w Hd He Hne Hc Hp Hl Ha.
  unfold applyAnswer, pbind, getClock, lift, emit, pret. cbn [clock log].
  rewrite Hc, Hp, Hl, Hd, He.
  destruct e as [|c e]; [congruence|]. cbn [truthy orEmpty].
  rewrite Ha. cbn [clock log]. rewrite <- app_assoc. reflexivity.
Qed.

(** What the statements after the loop can do. *)
Lemma applyAnswer_cases : forall env sid ans found w,
    clock (snd (applyAnswer env sid ans found w)) = clock w
    /\ ((found = None
         /\ applyAnswer env sid ans found w = (inr (gone sid), w))
        \/ (exists s d e line,
               found = Some s /\ sessionDescription s = Some d
               /\ endpointId s = Some e
               /\ fst (applyAnswer env sid ans found w)
                  = inr (reply 204 NoBody)
               /\ log (snd (applyAnswer env sid ans found w))
                  = (log w ++ [UpdatedSession sid true (clock w);
                               AnswerHandled (smbConferenceId line) e d ans])
                    %list)
        \/ (exists err tail,
               found <> None
               /\ fst (applyAnswer env sid ans found w) = inl err
               /\ log (snd (applyAnswer env sid ans found w))
                  = (log w ++ tail)%list
               /\ Forall (fun e => isWait e = false) tail)).
Proof.
  intros env sid ans [s|] w.
  2:{ split; [reflexivity|]. left. split; reflexivity. }
  unfold applyAnswer, pbind, getClock, lift, emit, pret, pthrow.
  cbn [clock log].
  destruct (DbManager.connected (dbAt env (clock w))) eqn:Hc.
  2:{ cbn. split; [reflexivity|]. right; right.
      eexists; exists []. rewrite app_nil_r.
      repeat split; [discriminate | constructor]. }
  cbn [clock log].
  assert (Hu : Forall (fun e => isWait e = false)
                 [UpdatedSession sid true (clock w)])
    by (repeat constructor).
  destruct (requireProduction env (parseInt (productionId s))) as [e1|p].
  { cbn. split; [reflexivity|]. right; right.
    eexists; eexists. repeat split; [discriminate | exact Hu]. }
  destruct (requireLine env (lines p) (lineId s)) as [e2|line].
  { cbn. split; [reflexivity|]. right; right.
    eexists; eexists. repeat split; [discriminate | exact Hu]. }
  destruct (sessionDescription s) as [d|] eqn:Hd.
  2:{ cbn. split; [reflexivity|]. right; right.
      eexists; eexists. repeat split; [discriminate | exact Hu]. }
  destruct (truthy (endpointId s)) eqn:Ht.
  2:{ cbn. split; [reflexivity|]. right; right.
      eexists; eexists. repeat split; [discriminate | exact Hu]. }
  destruct (endpointId s) as [e|] eqn:He; [|discriminate].
  cbn [orEmpty].
  destruct (handleAnswerRequest env (smbConferenceId line) e d ans)
    as [e3|[]].
  { cbn. split; [reflexivity|]. right; right.
    eexists; eexists. repeat split; [discriminate | exact Hu]. }
  cbn [clock log fst snd]. split; [reflexivity|]. right; left.
  exists s, d, e, line. rewrite <- app_assoc. repeat split; auto.
Qed.

(** The statements after the loop, for a record read from a store that
    answers. *)
Lemma applyAnswer_run : forall env sid ans s w,
    DbManager.connected (dbAt env (clock w)) = true ->
    applyAnswer env sid ans (Some s) w
    = let w' := {| clock := clock w;
                   log := (log w ++ [UpdatedSession sid true (clock w)])
                          %list |} in
      match requireProduction env (parseInt (productionId s)) with
      | inl err => (inl err, w')
      | inr p =>
          match requireLine env (lines p) (lineId s) with
          | inl err => (inl err, w')
          | inr line =>
              match sessionDescription s with
              | None =>
                  (inl "Error: Could not get connection endpoint description",
                   w')
              | Some d =>
                  if truthy (endpointId s) then
                    match handleAnswerRequest env (smbConferenceId line)
                            (orEmpty (endpointId s)) d ans with
                    | inl err => (inl err, w')
                    | inr _ =>
                        (inr (reply 204 NoBody),
                         {| clock := clock w;
                            log := (log w
                                    ++ [UpdatedSession sid true (clock w);
                                        AnswerHandled (smbConferenceId line)
                                          (orEmpty (endpointId s)) d ans])
                                   %list |})
                    end
                  else
                    (inl "Error: Could not get connection endpoint id", w')
              end
          end
      end.
Proof.
  intros env sid ans s w Hc.
  unfold applyAnswer, pbind, getClock, lift, emit, pret, pthrow.
  cbn [clock log]. rewrite Hc. cbn [clock log].
  destruct (requireProduction env (parseInt (productionId s))) as [e1|p];
    [reflexivity|].
  destruct (requireLine env (lines p) (lineId s)) as [e2|line];
    [reflexivity|].
  destruct (sessionDescription s) as [d|]; [|reflexivity].
  destruct (truthy (endpointId s)); [|reflexivity].
  destruct (handleAnswerRequest env (smbConferenceId line)
              (orEmpty (endpointId s)) d ans) as [e3|[]]; [reflexivity|].
  cbn [clock log]. rewrite <- app_assoc. reflexivity.
Qed.

(** The loop for a store whose reads are known up to one that throws. *)
Lemma retryRead_throws : forall env sid n results k err w,
    (1 <= k <= n)%nat ->
    (forall j, (1 <= j < k)%nat ->
               attempt env (clock w) sid j = inr (results j)) ->
    (forall j, (j < k)%nat -> incomplete (results j) = true) ->
    attempt env (clock w) sid k = inl err ->
    fst (retryRead env sid n (results 0%nat) w) = inl err.
Proof.
  intros env sid n. induction n as [|n IH];
    intros results k err w Hk Hread Hinc Herr; [lia|].
  rewrite retryRead_round by (apply Hinc; lia).
  destruct (Nat.eq_dec k 1) as [-> | Hk1].
  - rewrite Herr. reflexivity.
  - rewrite (Hread 1%nat) by lia.
    apply (IH (fun j => results (S j)) (pred k)).
    + lia.
    + intros j Hj. cbn [clock]. rewrite attempt_next. apply Hread. lia.
    + intros j Hj. apply Hinc. lia.
    + cbn [clock]. rewrite attempt_next.
      replace (S (pred k)) with k by lia. exact Herr.
Qed.

Lemma patchSession_run : forall env start sid ans,
    patchSession env start sid ans
    = let w0 := {| clock := start; log := [ReadSession sid start] |} in
      match attempt env start sid 0 with
      | inl err =>
          (reply 500
             (Text ("Exception thrown when trying to configure endpoint: "
                    ++ err)), w0)
      | inr first =>
          match retryRead env sid 5 first w0 with
          | (inl err, w1) =>
              (reply 500
                 (Text ("Exception thrown when trying to configure endpoint: "
                        ++ err)), w1)
          | (inr found, w1) =>
              match applyAnswer env sid ans found w1 with
              | (inr r, w2) => (r, w2)
              | (inl err, w2) =>
                  (reply 500
                     (Text ("Exception thrown when trying to configure endpoint: "
                            ++ err)), w2)
              end
          end
      end.
Proof.
  intros env start sid ans.
  unfold patchSession, patchSessionBody.
  unfold pbind at 1. rewrite readSession_eq. cbn [clock log app].
  rewrite attempt_first.
  destruct (attempt env start sid 0) as [err|first]; [reflexivity|].
  unfold pbind.
  destruct (retryRead env sid 5 first _) as [[err|found] w1];
    reflexivity.
Qed.

(** The loop of a handler started at [start], after a first read that
    answered: it ends on what read [m <= 5] gave. *)
Lemma retryRead_last : forall env start sid first,
    attempt env start sid 0 = inr first ->
    let run :=
      retryRead env sid 5 first
        {| clock := start; log := [ReadSession sid start] |} in
    exists m,
      (m <= 5)%nat
      /\ clock (snd run) = start + 100 * Z.of_nat m
      /\ log (snd run) = ReadSession sid start :: trail sid start m
      /\ match fst run with
         | inr found =>
             (incomplete found = false \/ m = 5%nat)
             /\ attempt env start sid m = inr found
         | inl e => attempt env start sid m = inl e
         end.
Proof.
  intros env start sid first E0 run. subst run.
  set (w0 := {| clock := start; log := [ReadSession sid start] |}).
  destruct (retryRead_shape env sid 5 first w0) as [m [Hm [Hc [Hl Hres]]]].
  exists m. split; [exact Hm|]. split; [exact Hc|]. split; [exact Hl|].
  destruct (fst (retryRead env sid 5 first w0)) as [e|found].
  - apply Hres.
  - destruct Hres as [Hstop [H0 Hpos]]. split; [exact Hstop|].
    destruct m as [|m]; [rewrite (H0 eq_refl); exact E0|].
    apply Hpos. discriminate.
Qed.



End PatchSessionFacts.

(** ** [DELETE /production/:productionId/line/:lineId] *)

Module DeleteLineFacts.

Import Api Handlers ProductionManager Samples.

Example delete_blocked_then_done :
  fst (deleteLine studio "1" "1")
  = reply 400 (Message "Cannot remove a line with active participants")
  /\ snd (deleteLine studio "1" "1") = studio
  /\ deleteLine studioAfterLeave "1" "1"
     = (reply 200 (Text "deleted"),
        {| productions :=
             [{| prod_id := 1; prod_name := "Studio A"; lines := [] |}];
           backend := DbManager.MongoDb;
           sessions := [] |}).
Proof. repeat split; reflexivity. Qed.

(** The production is the same however the request writes its id. *)
Example delete_blocked_by_any_spelling :
  fst (deleteLine studio "01" "1")
  = reply 400 (Message "Cannot remove a line with active participants")
  /\ fst (deleteLine studio " 1" "1")
     = reply 400 (Message "Cannot remove a line with active participants").
Proof. split; reflexivity. Qed.

Lemma required_id : forall st n production,
    requireProduction st n = inr production ->
    n = Some (prod_id production).
Proof.
  intros st [n|] production H; unfold requireProduction in H;
    [|discriminate].
  destruct (find (fun p => prod_id p =? n) (productions st)) as [p|] eqn:E;
    [|discriminate].
  injection H as <-. apply find_some in E. destruct E as [_ E].
  apply Z.eqb_eq in E. rewrite E. reflexivity.
Qed.

Lemma activeOnLine_filter : forall st pid production line,
    parseInt pid = Some (prod_id production) ->
    filter (fun s => String.eqb (Api.lineId s) (line_id line) && isActive s)
      (getActiveUsers st pid)
    = activeOnLine st production line.
Proof.
  intros st pid production line Hpid.
  unfold getActiveUsers, activeOnLine. rewrite Hpid.
  induction (sessions st) as [|s l IH]; simpl; [reflexivity|].
  destruct (ofProduction (prod_id production) s) eqn:E1;
    destruct (isActive s) eqn:E2;
    destruct (isExpired s) eqn:E3;
    destruct (String.eqb (Api.lineId s) (line_id line)) eqn:E4;
    simpl; rewrite ?E2, ?E4; simpl; rewrite ?IH; reflexivity.
Qed.

Lemma find_after_delete : forall (l : list Production) production n lid,
    find (fun p => prod_id p =? n) l = Some production ->
    find (fun p => prod_id p =? n)
      (map (fun p => if prod_id p =? prod_id production
                     then withoutLine production lid else p) l)
    = Some (withoutLine production lid).
Proof.
  induction l as [|p l IH]; intros production n lid H; simpl in *;
    [discriminate|].
  destruct (prod_id p =? n) eqn:E.
  - inversion H; subst. rewrite Z.eqb_refl. simpl. rewrite E. reflexivity.
  - destruct (prod_id p =? prod_id production) eqn:E2.
    + pose proof (find_some _ _ H) as [_ Hn].
      apply Z.eqb_eq in E2, Hn. apply Z.eqb_neq in E. congruence.
    + rewrite E. apply IH. exact H.
Qed.

Lemma getLine_removed : forall ls lid,
    getLine (filter (fun l => negb (String.eqb (line_id l) lid)) ls) lid
    = None.
Proof.
  unfold getLine. induction ls as [|l ls IH]; intros lid; simpl;
    [reflexivity|].
  destruct (String.eqb (line_id l) lid) eqn:E; simpl; [apply IH|].
  rewrite E. apply IH.
Qed.

Lemma getLine_id : forall ls lid line,
    getLine ls lid = Some line -> line_id line = lid.
Proof.
  unfold getLine. intros ls lid line H.
  apply find_some in H. destruct H as [_ H].
  apply String.eqb_eq. exact H.
Qed.

Lemma deleteLine_run : forall st pid lid production line,
    requireProduction st (parseInt pid) = inr production ->
    getLine (lines production) lid = Some line ->
    deleteLine st pid lid
    = match activeOnLine st production line with
      | _ :: _ =>
          (reply 400
             (Message "Cannot remove a line with active participants"), st)
      | [] =>
          (reply 200 (Text "deleted"),
           deleteProductionLine st production lid)
      end.
Proof.
  intros st pid lid production line Hp Hl.
  unfold deleteLine. rewrite Hp, Hl.
  rewrite (activeOnLine_filter st pid production line (required_id _ _ _ Hp)).
  destruct (activeOnLine st production line); reflexivity.
Qed.

Lemma line_gone_after_delete : forall st n production lid,
    requireProduction st (Some n) = inr production ->
    exists production',
      requireProduction (deleteProductionLine st production lid) (Some n)
      = inr production'
      /\ getLine (lines production') lid = None
      /\ forall l, In l (lines production) -> line_id l <> lid ->
                   In l (lines production').
Proof.
  intros st n production lid Hp.
  unfold requireProduction in Hp.
  destruct (find (fun p => prod_id p =? n) (productions st)) as [p|] eqn:E;
    [|discriminate].
  inversion Hp; subst p.
  exists (withoutLine production lid). split; [|split].
  - unfold requireProduction, deleteProductionLine. simpl.
    rewrite (find_after_delete _ _ _ _ E). reflexivity.
  - simpl. apply getLine_removed.
  - intros l Hin Hne. simpl. apply filter_In. split; [exact Hin|].
    apply negb_true_iff. apply String.eqb_neq. exact Hne.
Qed.



End DeleteLineFacts.

(** ** [GET /heartbeat/:sessionId] *)

Module HeartbeatFacts.

Import Api Handlers ProductionManager Samples.

Example heartbeat_live :
  fst (heartbeat studio 2000 "7d0c") = reply 200 (Text "ok")
  /\ lastSeenOf (snd (heartbeat studio 2000 "7d0c")) "7d0c" = Some 2000.
Proof. split; reflexivity. Qed.

(** A clock that has not moved past the old stamp. *)
Example heartbeat_same_instant :
  lastSeenOf studio "7d0c" = Some 1000
  /\ lastSeenOf (snd (heartbeat studio 1000 "7d0c")) "7d0c" = Some 1001.
Proof. split; reflexivity. Qed.

Example heartbeat_unknown :
  code (fst (heartbeat studio 2000 "nope")) = 410.
Proof. reflexivity. Qed.

(** C7. The handler replies 200 with body 'ok' exactly when
    [updateUserLastSeen] returned true and 410 exactly when it returned
    false. It returns true exactly for a session that exists and has not
    expired, and then the session's stamp is strictly larger than it was
    (and not before the clock reading), the rest of the record being as it
    was; it returns false for an unknown or expired session id and changes
    nothing; and no other session is touched. *)
Theorem heartbeat_outcomes :
  forall (st : Store) (now : Z) (sid : string) (status : bool),
    let key := DbManager.keyOf (backend st) sid in
    (heartbeatReply status sid = reply 200 (Text "ok") <-> status = true)
    /\ (code (heartbeatReply status sid) = 410 <-> status = false)
    /\ fst (heartbeat st now sid)
       = heartbeatReply (fst (updateUserLastSeen st now sid)) sid
    /\ (fst (updateUserLastSeen st now sid) = true
        <-> exists s, In s (sessions st) /\ doc_id s = key
                      /\ isExpired s = false)
    /\ (forall s, In s (sessions st) -> doc_id s = key ->
                  isExpired s = false ->
                  exists stamp,
                    In (seenAt s stamp)
                      (sessions (snd (heartbeat st now sid)))
                    /\ lastSeen s < stamp /\ now <= stamp)
    /\ (forall s', In s' (sessions (snd (heartbeat st now sid))) ->
                   exists s, In s (sessions st)
                             /\ (s' = s
                                 \/ (doc_id s = key /\ isExpired s = false
                                     /\ s' = seenAt s (lastSeen s')
                                     /\ lastSeen s < lastSeen s')))
    /\ (forall s, In s (sessions st) ->
                  doc_id s <> key \/ isExpired s = true ->
                  In s (sessions (snd (heartbeat st now sid))))
    /\ (fst (updateUserLastSeen st now sid) = false ->
        snd (heartbeat st now sid) = st).
Proof.
  intros st now sid status key.
  assert (Hlive : forall s,
             live st sid s = true <-> doc_id s = key /\ isExpired s = false).
  { intros s. unfold live. rewrite andb_true_iff, String.eqb_eq,
      negb_true_iff. reflexivity. }
  split; [|split; [|split; [|split; [|split; [|split; [|split]]]]]].
  - destruct status; simpl; split; intros H; try reflexivity;
      discriminate.
  - destruct status; simpl; split; intros H; try reflexivity;
      discriminate.
  - reflexivity.
  - simpl. rewrite existsb_exists.
    split.
    + intros [s [Hin Hl]]. apply Hlive in Hl. exists s. tauto.
    + intros [s [Hin Hl]]. exists s. split; [exact Hin|].
      apply Hlive. exact Hl.
  - intros s Hin Hid Hexp. exists (nextStamp now s).
    split; [|unfold nextStamp; lia].
    simpl. apply in_map_iff. exists s. split; [|exact Hin].
    rewrite (proj2 (Hlive s) (conj Hid Hexp)). reflexivity.
  - intros s' Hin. simpl in Hin. apply in_map_iff in Hin.
    destruct Hin as [s [Hs Hin]]. exists s. split; [exact Hin|].
    destruct (live st sid s) eqn:El; [|left; symmetry; exact Hs].
    right. apply Hlive in El. destruct El as [Hid Hexp].
    subst s'. simpl. repeat split; try assumption.
    unfold nextStamp. lia.
  - intros s Hin Hother. simpl. apply in_map_iff. exists s.
    split; [|exact Hin].
    destruct (live st sid s) eqn:El; [|reflexivity].
    apply Hlive in El. destruct El as [Hid Hexp].
    destruct Hother; congruence.
  - simpl. intros Hnone. destruct st as [ps be ss]. simpl in *. f_equal.
    clear Hlive. unfold live in *. simpl in *.
    induction ss as [|s ss IH]; simpl in *; [reflexivity|].
    apply orb_false_elim in Hnone. destruct Hnone as [Hs Hrest].
    rewrite Hs. f_equal. apply IH. exact Hrest.
Qed.

Lemma heartbeat_outcomes_witness :
  exists stamp,
    In (seenAt storedSession stamp)
      (sessions (snd (heartbeat studio 500 "7d0c")))
    /\ lastSeen storedSession < stamp /\ 500 <= stamp.
Proof.
  destruct (heartbeat_outcomes studio 500 "7d0c" true)
    as [_ [_ [_ [_ [H _]]]]].
  apply (H storedSession).
  - left. reflexivity.
  - reflexivity.
  - reflexivity.
Defined.

End HeartbeatFacts.

(** ** The long-poll endpoint *)

Module LongPollFacts.

Import Api LongPoll Samples.

Example poll_woken :
  participants (C := codePointCollator) laggingDb 0
    [Elapse 300; UsersChange; Elapse 40000] "1" "1"
  = Some (300, ByChange,
          reply 200 (Participants [toParticipant storedSession])).
Proof. reflexivity. Qed.

Example poll_timed_out :
  participants (C := codePointCollator) laggingDb 0
    [Elapse 10000; Elapse 20000; UsersChange] "1" "1"
  = Some (25000, ByTimeout,
          reply 200 (Participants [toParticipant storedSession])).
Proof. reflexivity. Qed.

Example poll_still_waiting :
  participants (C := codePointCollator) laggingDb 0
    [Elapse 10000; Elapse 14999] "1" "1" = None.
Proof. reflexivity. Qed.

Lemma startWait_pending : forall start,
    startWait start = pending start (start + timeoutMs).
Proof. reflexivity. Qed.

Lemma run_app : forall s1 s2 w, run (s1 ++ s2)%list w = run s2 (run s1 w).
Proof. intros. unfold run. apply fold_left_app. Qed.

Lemma elapsed_nonneg : forall schedule, 0 <= elapsed schedule.
Proof.
  induction schedule as [|[|ms] rest IH]; simpl; lia.
Qed.

(** Once the timer is cleared and the listener removed, nothing settles
    the promise again. *)
Lemma settled_stable : forall schedule w,
    timer w = None -> listening w = false ->
    timer (run schedule w) = None
    /\ listening (run schedule w) = false
    /\ settled (run schedule w) = settled w.
Proof.
  induction schedule as [|e rest IH]; intros w Ht Hl; [auto|].
  cbn [run fold_left]. change (fold_left step rest (step w e))
    with (run rest (step w e)).
  destruct e as [|ms]; simpl.
  - rewrite Hl. apply IH; assumption.
  - rewrite Ht.
    destruct (IH (advance w (now w + Z.of_N ms)) Ht Hl) as [A [B D]].
    auto.
Qed.

Lemma run_quiet_waiting : forall schedule t due,
    quiet schedule = true -> t + elapsed schedule < due ->
    run schedule (pending t due) = pending (t + elapsed schedule) due.
Proof.
  induction schedule as [|[|ms] rest IH]; intros t due Hq Hlt;
    simpl in Hq; try discriminate.
  - simpl. unfold pending. f_equal. lia.
  - cbn [elapsed] in Hlt. pose proof (elapsed_nonneg rest).
    cbn [run fold_left]. change (fold_left step rest ?w) with (run rest w).
    unfold step at 1. cbn [timer now pending].
    replace (due <=? t + Z.of_N ms) with false
      by (symmetry; apply Z.leb_gt; lia).
    unfold advance. cbn [timer listening settled pending].
    change {| now := t + Z.of_N ms; timer := Some due; listening := true;
              settled := None |} with (pending (t + Z.of_N ms) due).
    rewrite IH by (assumption || lia).
    cbn [elapsed]. unfold pending. f_equal. lia.
Qed.

Lemma run_quiet_timeout : forall schedule t due,
    quiet schedule = true -> t < due -> due <= t + elapsed schedule ->
    timer (run schedule (pending t due)) = None
    /\ listening (run schedule (pending t due)) = false
    /\ settled (run schedule (pending t due)) = Some (due, ByTimeout).
Proof.
  induction schedule as [|[|ms] rest IH]; intros t due Hq Hlt Hge;
    simpl in Hq; try discriminate.
  - simpl in Hge. lia.
  - cbn [elapsed] in Hge.
    cbn [run fold_left]. change (fold_left step rest ?w) with (run rest w).
    unfold step. cbn [timer now pending].
    destruct (due <=? t + Z.of_N ms) eqn:E.
    + apply settled_stable; reflexivity.
    + apply Z.leb_gt in E.
      unfold advance. cbn [timer listening settled pending].
      change {| now := t + Z.of_N ms; timer := Some due; listening := true;
                settled := None |} with (pending (t + Z.of_N ms) due).
      apply IH; [assumption | lia | lia].
Qed.

Lemma run_first_change : forall pre post t due,
    quiet pre = true -> t + elapsed pre < due ->
    settled (run (pre ++ UsersChange :: post) (pending t due))
    = Some (t + elapsed pre, ByChange).
Proof.
  intros pre post t due Hq Hlt.
  rewrite run_app, run_quiet_waiting by assumption.
  cbn [run fold_left]. change (fold_left step post ?w) with (run post w).
  apply settled_stable; reflexivity.
Qed.

Lemma run_change_too_late : forall pre post t due,
    quiet pre = true -> t < due -> due <= t + elapsed pre ->
    settled (run (pre ++ UsersChange :: post) (pending t due))
    = Some (due, ByTimeout).
Proof.
  intros pre post t due Hq Hlt Hge.
  rewrite run_app.
  destruct (run_quiet_timeout pre t due Hq Hlt Hge) as [Ht [Hl Hs]].
  cbn [run fold_left]. change (fold_left step post ?w) with (run post w).
  unfold step at 1. rewrite Hl. rewrite <- Hs.
  apply settled_stable; assumption.
Qed.

Lemma first_change : forall schedule,
    quiet schedule = false ->
    exists pre post,
      schedule = (pre ++ UsersChange :: post)%list /\ quiet pre = true.
Proof.
  induction schedule as [|[|ms] rest IH]; intros H; simpl in H;
    try discriminate.
  - exists [], rest. split; reflexivity.
  - destruct (IH H) as [pre [post [-> Hq]]].
    exists (Elapse ms :: pre), post. split; [reflexivity | exact Hq].
Qed.

Lemma respond_eq : forall (C : Collator) db pid lid,
    respond db pid lid
    = match DbManager.outage db with
      | None =>
          reply 200
            (Participants
               (sortParticipants
                  (map toParticipant (currentParticipants db pid lid))))
      | Some err =>
          reply 500
            (Text ("Exception thrown when trying to set connection status for session: "
                   ++ err))
      end.
Proof.
  intros C db pid lid. unfold respond, DbManager.getSessionsByQuery,
    DbManager.connected, DbManager.rejected, throw, ret.
  destruct (DbManager.outage db); [reflexivity|].
  do 4 f_equal. unfold currentParticipants.
  apply filter_ext. intros s. unfold DbManager.matches. simpl.
  rewrite (String.eqb_sym pid), (String.eqb_sym lid).
  destruct (isExpired s); reflexivity.
Qed.

Lemma participants_of_settled :
  forall (C : Collator) dbAt start schedule pid lid t why,
    settled (run schedule (startWait start)) = Some (t, why) ->
    participants dbAt start schedule pid lid
    = Some (t, why, respond (dbAt t) pid lid).
Proof.
  intros C dbAt start schedule pid lid t why H.
  unfold participants. rewrite H. reflexivity.
Qed.

(** C6, amended. A long-poll request waits while no ['users:change'] is
    emitted and less than 25000 ms have passed; it is woken by the first
    emission, at the time of that emission, when this comes before
    25000 ms, and by the timer, 25000 ms after it started, otherwise; so
    every request is answered within 25000 ms. The answer is computed
    from the store as it is at that moment: 200 with the sorted list of
    the line's sessions that are not expired when the store answers the
    query, and 500 with the error text when the query fails; a timeout by
    itself never produces an error. *)
Theorem long_poll_outcomes :
  forall (C : Collator) (dbAt : Z -> DbManager.t) (start : Z)
         (schedule : list LoopEvent) (pid lid : string),
    let answerAt t :=
      match DbManager.outage (dbAt t) with
      | None =>
          reply 200
            (Participants
               (sortParticipants
                  (map toParticipant
                     (currentParticipants (dbAt t) pid lid))))
      | Some err =>
          reply 500
            (Text ("Exception thrown when trying to set connection status for session: "
                   ++ err))
      end in
    (quiet schedule = true -> elapsed schedule < timeoutMs ->
       participants dbAt start schedule pid lid = None)
    /\ (quiet schedule = true -> timeoutMs <= elapsed schedule ->
          participants dbAt start schedule pid lid
          = Some (start + timeoutMs, ByTimeout,
                  answerAt (start + timeoutMs)))
    /\ (forall pre post,
           schedule = (pre ++ UsersChange :: post)%list ->
           quiet pre = true ->
           (elapsed pre < timeoutMs ->
              participants dbAt start schedule pid lid
              = Some (start + elapsed pre, ByChange,
                      answerAt (start + elapsed pre)))
           /\ (timeoutMs <= elapsed pre ->
                 participants dbAt start schedule pid lid
                 = Some (start + timeoutMs, ByTimeout,
                         answerAt (start + timeoutMs))))
    /\ (quiet schedule = false \/ timeoutMs <= elapsed schedule ->
          exists t why,
            participants dbAt start schedule pid lid
            = Some (t, why, answerAt t)
            /\ start <= t <= start + timeoutMs).
Proof.
  intros C dbAt start schedule pid lid answerAt.
  assert (Hans : forall t, respond (dbAt t) pid lid = answerAt t)
    by (intros t; apply respond_eq).
  assert (Hpos : start < start + timeoutMs) by (unfold timeoutMs; lia).
  assert (Hchange : forall pre post,
             schedule = (pre ++ UsersChange :: post)%list ->
             quiet pre = true ->
             (elapsed pre < timeoutMs ->
                participants dbAt start schedule pid lid
                = Some (start + elapsed pre, ByChange,
                        answerAt (start + elapsed pre)))
             /\ (timeoutMs <= elapsed pre ->
                   participants dbAt start schedule pid lid
                   = Some (start + timeoutMs, ByTimeout,
                           answerAt (start + timeoutMs)))).
  { intros pre post -> Hq. split; intros He.
    - rewrite <- Hans. apply participants_of_settled.
      rewrite startWait_pending. apply run_first_change; [assumption | lia].
    - rewrite <- Hans. apply participants_of_settled.
      rewrite startWait_pending.
      apply run_change_too_late; [assumption | lia | lia]. }
  assert (Htimeout : quiet schedule = true -> timeoutMs <= elapsed schedule ->
             participants dbAt start schedule pid lid
             = Some (start + timeoutMs, ByTimeout,
                     answerAt (start + timeoutMs))).
  { intros Hq He. rewrite <- Hans. apply participants_of_settled.
    rewrite startWait_pending.
    apply run_quiet_timeout; [assumption | lia | lia]. }
  split; [|split; [|split]].
  - intros Hq He. unfold participants.
    rewrite startWait_pending, run_quiet_waiting by (assumption || lia).
    reflexivity.
  - exact Htimeout.
  - exact Hchange.
  - intros Hor.
    destruct (quiet schedule) eqn:Hq.
    + destruct Hor as [Hf | He]; [discriminate|].
      exists (start + timeoutMs), ByTimeout.
      split; [apply Htimeout; auto | lia].
    + destruct (first_change schedule Hq) as [pre [post [Hs Hqp]]].
      destruct (Hchange pre post Hs Hqp) as [Hearly Hlate].
      pose proof (elapsed_nonneg pre).
      destruct (Z.lt_ge_cases (elapsed pre) timeoutMs) as [Hlt | Hge].
      * exists (start + elapsed pre), ByChange.
        split; [apply Hearly; assumption | lia].
      * exists (start + timeoutMs), ByTimeout.
        split; [apply Hlate; assumption | lia].
Qed.

Lemma long_poll_outcomes_witness :
  participants (C := codePointCollator) laggingDb 0
    [Elapse 12000; Elapse 13000] "1" "1"
  = Some (25000, ByTimeout,
          reply 200 (Participants [toParticipant storedSession])).
Proof.
  destruct (long_poll_outcomes codePointCollator laggingDb 0
              [Elapse 12000; Elapse 13000] "1" "1") as [_ [H _]].
  apply H.
  - reflexivity.
  - vm_compute. discriminate.
Defined.

(** C6 as stated fails when the store cannot be queried at the moment
    the poll wakes: the request that timed out is answered 500 with an
    error text, not 200 with a participant list. *)
Lemma long_poll_store_failure_counterexample :
  participants (C := codePointCollator) downDb 0 [Elapse 25000] "1" "1"
  = Some (25000, ByTimeout,
          reply 500
            (Text "Exception thrown when trying to set connection status for session: Error: connect ECONNREFUSED"))
  /\ (forall t why r,
         participants (C := codePointCollator) downDb 0 [Elapse 25000]
           "1" "1" = Some (t, why, r) ->
         code r <> 200).
Proof.
  split; [reflexivity|].
  intros t why r H. vm_compute in H. inversion H; subst. discriminate.
Qed.

End LongPollFacts.

(** * Further properties *)

(** ** The pool: selection and reporting *)

Module PoolMore.

Import MediaBridgeInstance MediaBridgePool Samples.

Lemma toInt32_range : forall z,
    -2147483648 <= toInt32 z < 2147483648.
Proof.
  intros z. unfold toInt32.
  pose proof (Z.mod_pos_bound (z + 2147483648) 4294967296 ltac:(lia)). lia.
Qed.

Lemma toInt32_fixed : forall z,
    -2147483648 <= z < 2147483648 -> toInt32 z = z.
Proof.
  intros z H. unfold toInt32. rewrite Z.mod_small by lia. lia.
Qed.

Lemma hash_loop_range : forall input h,
    -2147483648 <= h < 2147483648 ->
    -2147483648 <= fold_left hashStep input h < 2147483648.
Proof.
  induction input as [|c input IH]; intros h Hh; simpl; [exact Hh|].
  apply IH. unfold hashStep. apply toInt32_range.
Qed.

(** X1. [hash] returns an integer between 0 and 2^31 inclusive, for every
    string; on a value that is already a 32-bit integer [x | 0] changes
    nothing, and one round of the loop computes [31 * hash + c] reduced to
    32 bits. *)
Theorem hash_range :
  forall input : CodeUnits,
    0 <= hash input <= 2147483648
    /\ (forall h c,
           -2147483648 <= h < 2147483648 ->
           hashStep h c = toInt32 (31 * h + c))
    /\ (forall z, -2147483648 <= z < 2147483648 -> toInt32 z = z).
Proof.
  intros input. split; [|split].
  - unfold hash.
    pose proof (hash_loop_range input 0 ltac:(lia)). lia.
  - intros h c Hh. unfold hashStep, toInt32.
    rewrite (Z.mod_small (h + 2147483648)) by lia.
    replace (h + 2147483648 - 2147483648) with h by lia.
    rewrite Z.shiftl_mul_pow2 by lia.
    change (2 ^ 5) with 32.
    f_equal. 
    replace ((h * 32 + 2147483648) mod 4294967296 - 2147483648 - h + c
             + 2147483648)
      with ((h * 32 + 2147483648) mod 4294967296 + (c - h)) by lia.
    rewrite Zplus_mod_idemp_l. f_equal. lia.
  - apply toInt32_fixed.
Qed.

Lemma hash_range_witness :
  hashStep 2147483647 65 = toInt32 (31 * 2147483647 + 65)
  /\ toInt32 (-5) = -5.
Proof.
  destruct (hash_range [120; 121]) as [_ [Hstep Hfix]].
  split; [apply Hstep; lia | apply Hfix; lia].
Defined.

Lemma firstAbove_in : forall l m cursor b,
    firstAbove m cursor l = Some b -> In b l.
Proof.
  induction l as [|a l IH]; intros m cursor b H; simpl in H; [discriminate|].
  destruct (m <? cursor + weight a).
  - inversion H. left. reflexivity.
  - right. eapply IH. exact H.
Qed.

Lemma firstReaching_in : forall l pick cursor b,
    firstReaching pick cursor l = Some b -> In b l.
Proof.
  induction l as [|a l IH]; intros pick cursor b H; simpl in H;
    [discriminate|].
  destruct (Qle_bool pick (inject_Z (cursor + weight a))).
  - inversion H. left. reflexivity.
  - right. eapply IH. exact H.
Qed.

Lemma candidates_in_bridges : forall pool options b,
    In b (candidatesOf pool options) -> In b (bridges pool).
Proof.
  intros pool options b. unfold candidatesOf.
  destruct (filter healthy (bridges pool)) as [|h hs] eqn:E; [auto|].
  match goal with |- context [if ?c then _ else _] => destruct c end;
    [|auto].
  rewrite <- E. intros H. apply filter_In in H. tauto.
Qed.

Lemma candidates_nonempty : forall pool options,
    bridges pool <> [] -> candidatesOf pool options <> [].
Proof.
  intros pool options H. unfold candidatesOf.
  destruct (filter healthy (bridges pool)) as [|h hs] eqn:E; [exact H|].
  match goal with |- context [if ?c then _ else _] => destruct c end;
    [discriminate | exact H].
Qed.

(** Whether the options ask for unhealthy instances too. *)
Lemma candidates_healthy : forall pool options b,
    (exists h, In h (bridges pool) /\ healthy h = true) ->
    match options with
    | Some o => allowUnhealthy o <> Some true
    | None => True
    end ->
    In b (candidatesOf pool options) -> healthy b = true.
Proof.
  intros pool options b [h [Hin Hh]] Hallow. unfold candidatesOf.
  destruct (filter healthy (bridges pool)) as [|x xs] eqn:E.
  { exfalso. assert (In h (filter healthy (bridges pool)))
      by (apply filter_In; auto).
    rewrite E in H. exact H. }
  assert (Hneg : (match options with
                  | Some o => match allowUnhealthy o with
                              | Some a => a
                              | None => false
                              end
                  | None => false
                  end) = false).
  { destruct options as [o|]; [|reflexivity].
    destruct (allowUnhealthy o) as [[|]|]; congruence. }
  rewrite Hneg. cbn [negb]. intros H.
  assert (H' : In b (filter healthy (bridges pool))) by (rewrite E; exact H).
  apply filter_In in H'. tauto.
Qed.

Lemma getBridge_selects : forall pool options random,
    candidatesOf pool options <> [] ->
    exists b, In b (candidatesOf pool options)
              /\ getBridge pool options random = inr (snapshot b).
Proof.
  intros pool options random Hne. unfold getBridge.
  destruct (candidatesOf pool options) as [|c cs] eqn:E; [congruence|].
  set (byAffinity := match usableKey options with
                     | Some key =>
                         if 1 <? Z.of_nat (List.length (c :: cs))
                         then firstAbove
                                (Z.rem (hash key) (weightSum (c :: cs))) 0
                                (c :: cs)
                         else None
                     | None => None
                     end).
  assert (Haff : forall b, byAffinity = Some b -> In b (c :: cs)).
  { intros b. subst byAffinity.
    destruct (usableKey options); [|discriminate].
    destruct (1 <? Z.of_nat (List.length (c :: cs))); [|discriminate].
    apply firstAbove_in. }
  destruct byAffinity as [b|].
  - exists b. split; [apply Haff; reflexivity | reflexivity].
  - destruct (firstReaching _ 0 (c :: cs)) as [b|] eqn:R.
    + exists b. split; [eapply firstReaching_in; exact R | reflexivity].
    + exists c. split; [left; reflexivity | reflexivity].
Qed.

(** X2. On a pool that was constructed, [getBridge] never throws: for every
    options object and every random draw it returns the snapshot of one of
    the pool's instances; and when some instance is healthy and the caller
    did not set [allowUnhealthy], the instance it returns is healthy. *)
Theorem getBridge_serves :
  forall (pool : MediaBridgePool.t) (options : option BridgeSelectionOptions)
         (random : Q),
    Reachable pool ->
    exists b,
      In b (bridges pool)
      /\ getBridge pool options random = inr (snapshot b)
      /\ ((exists h, In h (bridges pool) /\ healthy h = true) ->
          match options with
          | Some o => allowUnhealthy o <> Some true
          | None => True
          end ->
          healthy b = true).
Proof.
  intros pool options random R.
  destruct (PoolFacts.reachable_pool pool R) as [Hne _].
  destruct (getBridge_selects pool options random
              (candidates_nonempty pool options Hne)) as [b [Hin Hget]].
  exists b. split; [eapply candidates_in_bridges; exact Hin|].
  split; [exact Hget|].
  intros Hh Hallow. eapply candidates_healthy; eassumption.
Qed.

Lemma getBridge_serves_witness :
  exists b,
    In b (bridges twoBridges)
    /\ getBridge twoBridges None (1 # 3) = inr (snapshot b)
    /\ healthy b = true.
Proof.
  destruct (getBridge_serves twoBridges None (1 # 3)) as [b [Hin [Hget Hh]]].
  - apply (pool_new [sampleDefinition; otherDefinition] None). reflexivity.
  - exists b. split; [exact Hin|]. split; [exact Hget|].
    apply Hh; [|exact I].
    exists (MediaBridgeInstance.new sampleDefinition).
    split; [left; reflexivity | reflexivity].
Defined.

Lemma weightSum_app : forall l1 l2,
    weightSum (l1 ++ l2) = weightSum l1 + weightSum l2.
Proof.
  induction l1 as [|a l1 IH]; intros l2.
  - change (weightSum []) with 0. simpl. lia.
  - change ((a :: l1) ++ l2)%list with (a :: (l1 ++ l2))%list.
    rewrite !PoolFacts.weightSum_cons, IH. lia.
Qed.

Lemma weightSum_nonneg : forall l, wellWeighted l -> 0 <= weightSum l.
Proof.
  induction 1 as [|a l Ha Hl IH]; [unfold weightSum; simpl; lia|].
  rewrite PoolFacts.weightSum_cons. lia.
Qed.

Lemma firstAbove_slot : forall pre b post m cursor,
    wellWeighted pre ->
    cursor + weightSum pre <= m < cursor + weightSum pre + weight b ->
    firstAbove m cursor (pre ++ b :: post) = Some b.
Proof.
  induction pre as [|a pre IH]; intros b post m cursor Hw Hm; simpl.
  - unfold weightSum in Hm. simpl in Hm.
    replace (m <? cursor + weight b) with true
      by (symmetry; apply Z.ltb_lt; lia).
    reflexivity.
  - inversion Hw as [|? ? Ha Hpre]; subst.
    rewrite PoolFacts.weightSum_cons in Hm.
    pose proof (weightSum_nonneg pre Hpre).
    replace (m <? cursor + weight a) with false
      by (symmetry; apply Z.ltb_ge; lia).
    apply IH; [assumption | lia].
Qed.

Lemma wellWeighted_app_l : forall l1 l2,
    wellWeighted (l1 ++ l2) -> wellWeighted l1.
Proof.
  unfold wellWeighted. intros l1 l2 H.
  apply Forall_app in H. tauto.
Qed.

(** X3. The affinity branch gives every candidate a slot as wide as its
    weight: with a non-empty key and more than one candidate, the candidate
    returned is the one whose slot, counted from the weights of the
    candidates before it, holds [hash(key) % weightSum]. *)
Theorem affinity_slot :
  forall (pool : MediaBridgePool.t) (options : option BridgeSelectionOptions)
         (key : CodeUnits) (random : Q)
         (pre post : list MediaBridgeInstance.t) (b : MediaBridgeInstance.t),
    Reachable pool ->
    usableKey options = Some key ->
    candidatesOf pool options = (pre ++ b :: post)%list ->
    (pre ++ post)%list <> [] ->
    weightSum pre
    <= Z.rem (hash key) (weightSum (pre ++ b :: post))
    < weightSum pre + weight b ->
    getBridge pool options random = inr (snapshot b).
Proof.
  intros pool options key random pre post b R Hkey Hcand Hmore Hslot.
  destruct (PoolFacts.reachable_pool pool R) as [_ W].
  pose proof (PoolFacts.candidates_wellWeighted pool options W) as Wc.
  rewrite Hcand in Wc.
  assert (Hlen : (1 <? Z.of_nat (List.length (pre ++ b :: post))) = true).
  { apply Z.ltb_lt. rewrite length_app. simpl.
    destruct pre as [|x pre]; destruct post as [|y post]; simpl in *;
      try congruence; lia. }
  destruct (pre ++ b :: post)%list as [|c cs] eqn:E.
  { destruct pre; discriminate. }
  rewrite (PoolFacts.getBridge_by_key pool options key random c cs
             Hkey Hcand Wc).
  rewrite Hlen, <- E.
  rewrite (firstAbove_slot pre b post); [reflexivity | |].
  - eapply wellWeighted_app_l. rewrite E. exact Wc.
  - rewrite E. lia.
Qed.

Lemma affinity_slot_witness :
  getBridge twoBridges lineKeyOptions (1 # 2)
  = inr (snapshot (MediaBridgeInstance.new otherDefinition)).
Proof.
  apply (affinity_slot twoBridges lineKeyOptions
           [108; 105; 110; 101; 45; 49] (1 # 2)
           [MediaBridgeInstance.new sampleDefinition] []
           (MediaBridgeInstance.new otherDefinition)).
  - apply (pool_new [sampleDefinition; otherDefinition] None). reflexivity.
  - reflexivity.
  - reflexivity.
  - discriminate.
  - split; [apply Z.leb_le | apply Z.ltb_lt]; vm_compute; reflexivity.
Defined.

Lemma onFirst_ids : forall i f l,
    (forall b, id (f b) = id b) ->
    map id (onFirst i f l) = map id l.
Proof.
  intros i f l Hf. induction l as [|b l IH]; simpl; [reflexivity|].
  destruct (String.eqb (id b) i); simpl; [rewrite Hf; reflexivity|].
  rewrite IH. reflexivity.
Qed.

Lemma onFirst_absent : forall i f l,
    (forall b, In b l -> id b <> i) -> onFirst i f l = l.
Proof.
  intros i f l. induction l as [|b l IH]; intros H; simpl; [reflexivity|].
  destruct (String.eqb (id b) i) eqn:E.
  - apply String.eqb_eq in E. exfalso. apply (H b); [left; reflexivity | exact E].
  - rewrite IH; [reflexivity|]. intros x Hx. apply H. right. exact Hx.
Qed.

Lemma onFirst_first : forall i f pre b post,
    (forall x, In x pre -> id x <> i) -> id b = i ->
    onFirst i f (pre ++ b :: post) = (pre ++ f b :: post)%list.
Proof.
  intros i f pre b post. induction pre as [|a pre IH]; intros Hpre Hb; simpl.
  - rewrite (proj2 (String.eqb_eq (id b) i) Hb). reflexivity.
  - destruct (String.eqb (id a) i) eqn:E.
    + apply String.eqb_eq in E. exfalso.
      apply (Hpre a); [left; reflexivity | exact E].
    + rewrite IH; [reflexivity | | exact Hb].
      intros x Hx. apply Hpre. right. exact Hx.
Qed.

Lemma withBridges_same : forall pool, withBridges pool (bridges pool) = pool.
Proof. intros [bs ms]. reflexivity. Qed.

(** X4. Reporting an outcome for a bridge id touches the first instance
    that has this id and nothing else: the instances before and after it,
    a later instance with the same id included, stay as they are; an id no
    instance has leaves the pool unchanged; and the ids and their order
    never change. *)
Theorem report_is_local :
  forall (pool : MediaBridgePool.t) (bridgeId : string),
    map id (bridges (recordFailure bridgeId pool)) = map id (bridges pool)
    /\ map id (bridges (recordSuccess bridgeId pool)) = map id (bridges pool)
    /\ ((forall b, In b (bridges pool) -> id b <> bridgeId) ->
        recordFailure bridgeId pool = pool
        /\ recordSuccess bridgeId pool = pool)
    /\ (forall pre b post,
           bridges pool = (pre ++ b :: post)%list ->
           (forall x, In x pre -> id x <> bridgeId) ->
           id b = bridgeId ->
           bridges (recordFailure bridgeId pool)
           = (pre ++ MediaBridgeInstance.recordFailure b :: post)%list
           /\ bridges (recordSuccess bridgeId pool)
              = (pre ++ MediaBridgeInstance.recordSuccess b :: post)%list).
Proof.
  intros pool bridgeId. unfold recordFailure, recordSuccess.
  split; [|split; [|split]].
  - simpl. apply onFirst_ids. reflexivity.
  - simpl. apply onFirst_ids. reflexivity.
  - intros Habs. rewrite !onFirst_absent by assumption.
    rewrite withBridges_same. split; reflexivity.
  - intros pre b post Hb Hpre Hid. simpl. rewrite Hb.
    rewrite !onFirst_first by assumption. split; reflexivity.
Qed.

Lemma report_is_local_witness :
  recordFailure "smb-z" twoBridges = twoBridges
  /\ bridges (recordFailure "smb-b" twoBridges)
     = [MediaBridgeInstance.new sampleDefinition;
        MediaBridgeInstance.recordFailure
          (MediaBridgeInstance.new otherDefinition)].
Proof.
  destruct (report_is_local twoBridges "smb-z") as [_ [_ [Habsent _]]].
  destruct (report_is_local twoBridges "smb-b") as [_ [_ [_ Hfirst]]].
  split.
  - apply Habsent. intros b [<-|[<-|[]]]; discriminate.
  - apply (Hfirst [MediaBridgeInstance.new sampleDefinition]
             (MediaBridgeInstance.new otherDefinition) []).
    + reflexivity.
    + intros x [<-|[]]. discriminate.
    + reflexivity.
Defined.

Lemma slash_step : forall c d r,
    withTrailingSlash (String c (String d r))
    = String c (withTrailingSlash (String d r)).
Proof. reflexivity. Qed.

Lemma slash_kept : forall p,
    withTrailingSlash (p ++ "/") = (p ++ "/")%string.
Proof.
  induction p as [|c p IH]; [reflexivity|].
  destruct p as [|d p]; [reflexivity|].
  change ((String c (String d p) ++ "/")%string)
    with (String c (String d (p ++ "/"))).
  change ((String d p ++ "/")%string) with (String d (p ++ "/")) in IH.
  rewrite slash_step, IH. reflexivity.
Qed.

Lemma slash_ends : forall s, exists p, withTrailingSlash s = (p ++ "/")%string.
Proof.
  induction s as [|c s IH]; [exists ""; reflexivity|].
  destruct s as [|d s].
  - cbn [withTrailingSlash]. destruct (Ascii.eqb c "/") eqn:E.
    + apply Ascii.eqb_eq in E. subst c. exists "". reflexivity.
    + exists (String c ""). reflexivity.
  - destruct IH as [p Hp]. exists (String c p).
    rewrite slash_step, Hp. reflexivity.
Qed.

Lemma slash_added : forall s,
    (forall p, s <> (p ++ "/")%string) ->
    withTrailingSlash s = (s ++ "/")%string.
Proof.
  induction s as [|c s IH]; intros H; [reflexivity|].
  destruct s as [|d s].
  - cbn [withTrailingSlash]. destruct (Ascii.eqb c "/") eqn:E; [|reflexivity].
    apply Ascii.eqb_eq in E. subst c. exfalso. apply (H ""). reflexivity.
  - rewrite slash_step, IH; [reflexivity|].
    intros p Hp. apply (H (String c p)). simpl. rewrite Hp. reflexivity.
Qed.

Lemma slash_peel : forall c d s p,
    String c (String d s) = (p ++ "/")%string ->
    exists p', String d s = (p' ++ "/")%string.
Proof.
  intros c d s [|a p] H; simpl in H; [discriminate|].
  inversion H. exists p. assumption.
Qed.

(** X5. The constructor's normalisation of the base URL: the result always
    ends in exactly the slash it needs: a URL that ends in a slash is kept
    as it is, any other gets one slash appended, and normalising twice is
    the same as normalising once. *)
Theorem baseUrl_trailing_slash :
  forall s : string,
    (exists p, withTrailingSlash s = (p ++ "/")%string)
    /\ withTrailingSlash (withTrailingSlash s) = withTrailingSlash s
    /\ (forall p, s = (p ++ "/")%string -> withTrailingSlash s = s)
    /\ ((forall p, s <> (p ++ "/")%string) ->
        withTrailingSlash s = (s ++ "/")%string).
Proof.
  intros s. split; [apply slash_ends|]. split; [|split].
  - destruct (slash_ends s) as [p ->]. apply slash_kept.
  - intros p ->. apply slash_kept.
  - apply slash_added.
Qed.

Lemma baseUrl_trailing_slash_witness :
  withTrailingSlash "http://smb:8080//" = "http://smb:8080//"
  /\ withTrailingSlash "http://smb:8080" = "http://smb:8080/".
Proof.
  destruct (baseUrl_trailing_slash "http://smb:8080//") as [_ [_ [Hkept _]]].
  destruct (baseUrl_trailing_slash "http://smb:8080") as [_ [_ [_ Hadded]]].
  split.
  - apply (Hkept "http://smb:8080/"). reflexivity.
  - apply Hadded. intros p Hp.
    repeat match goal with
           | H : String _ (String _ _) = _ |- _ =>
               apply slash_peel in H; destruct H as [? H]
           end.
    match goal with
    | H : _ = (?q ++ "/")%string |- _ =>
        destruct q as [|? [|? ?]]; discriminate H
    end.
Defined.

Lemma pushEntries_valid_prefix : forall good pushed rest,
    Forall2 (fun e p => validEntry e = Some p) good pushed ->
    rest = [] \/ (exists bad tail, rest = bad :: tail /\ validEntry bad = None) ->
    pushEntries (good ++ rest) = pushed.
Proof.
  induction 1 as [|e d good defs He Hrest IH]; intros Hr; simpl.
  - destruct Hr as [-> | [bad [tail [-> Hbad]]]]; [reflexivity|].
    simpl. rewrite Hbad. reflexivity.
  - rewrite He, IH by assumption. reflexivity.
Qed.

Lemma allDeclared_declared : forall defs,
    allDeclared (map Declared defs) = Some defs
    /\ existsb isBadBaseUrl (map Declared defs) = false.
Proof.
  induction defs as [|d defs [IH1 IH2]]; simpl; [split; reflexivity|].
  rewrite IH1, IH2. split; reflexivity.
Qed.

(** X6. What [fromEnv] takes from the MEDIA_BRIDGES array: the entries
    before the first invalid one (an entry without a truthy id or
    baseUrl), in order; the invalid entry and every entry after it, valid
    ones included, are dropped. When the entries taken are of the declared
    types, the pool holds one bridge for each, and when nothing is left it
    holds the single default bridge with id 'default' and weight 1; when
    one of them has a baseUrl that is no string, [fromEnv] throws the
    TypeError of the instance constructor. *)
Theorem fromEnv_valid_prefix :
  forall (parse : string -> Parsed) (params : FromEnvParams) (json : string)
         (good rest : list (option RawEntry)) (pushed : list Pushed),
    envJson params = Some json -> json <> "" ->
    parse json = AnArray (good ++ rest) ->
    Forall2 (fun e p => validEntry e = Some p) good pushed ->
    rest = [] \/ (exists bad tail, rest = bad :: tail /\ validEntry bad = None) ->
    (pushed <> [] -> definitionsFromEnv parse params = pushed)
    /\ (forall defs,
           pushed = map Declared defs ->
           exists pool,
             fromEnv parse params = inr (Pool pool)
             /\ map id (bridges pool)
                = match defs with
                  | [] => ["default"]
                  | _ => map def_id defs
                  end
             /\ (defs = [] ->
                 map weight (bridges pool) = [1]
                 /\ map baseUrl (bridges pool)
                    = [withTrailingSlash (defaultBaseUrl params)]))
    /\ (In BadBaseUrl pushed ->
        fromEnv parse params
        = inl "definition.baseUrl.replace is not a function").
Proof.
  intros parse params json good rest pushed Hjson Hne Hparse Hgood Hrest.
  assert (Hdefs : definitionsFromEnv parse params
                  = match pushed with
                    | [] => [Declared {| def_id := "default";
                                         def_baseUrl := defaultBaseUrl params;
                                         def_apiKey := defaultApiKey params;
                                         def_weight := Some 1;
                                         def_healthCheckPath := None;
                                         def_metadata := None |}]
                    | _ => pushed
                    end).
  { unfold definitionsFromEnv. rewrite Hjson.
    replace (truthy (Some json)) with true
      by (destruct json; [congruence | reflexivity]).
    rewrite Hparse, (pushEntries_valid_prefix good pushed rest Hgood Hrest).
    reflexivity. }
  split; [|split].
  - intros Hp. rewrite Hdefs. destruct pushed; [congruence | reflexivity].
  - intros defs ->. unfold fromEnv. rewrite Hdefs.
    destruct defs as [|d defs].
    + eexists. split; [reflexivity|]. split; [reflexivity|].
      intros _. split; reflexivity.
    + destruct (allDeclared_declared (d :: defs)) as [Hall Hbad].
      unfold construct. cbn [map] in *. rewrite Hbad, Hall.
      eexists. split; [reflexivity|]. split; [|discriminate].
      simpl. f_equal. rewrite map_map. reflexivity.
  - intros Hin. unfold fromEnv. rewrite Hdefs.
    destruct pushed as [|p pushed]; [contradiction|].
    unfold construct.
    replace (existsb isBadBaseUrl (p :: pushed)) with true; [reflexivity|].
    symmetry. apply existsb_exists. exists BadBaseUrl.
    split; [exact Hin | reflexivity].
Qed.

Lemma fromEnv_valid_prefix_witness :
  (exists pool,
      fromEnv (fun _ => AnArray [Samples.entryA; Samples.entryNoUrl;
                                 Samples.entryC])
        (Samples.envParams "[...]")
      = inr (Pool pool)
      /\ map id (bridges pool) = ["a"])
  /\ fromEnv (fun _ => AnArray [Samples.entryA; Samples.entryNumberUrl])
       (Samples.envParams "[...]")
     = inl "definition.baseUrl.replace is not a function".
Proof.
  split.
  - destruct (fromEnv_valid_prefix
                (fun _ => AnArray [Samples.entryA; Samples.entryNoUrl;
                                   Samples.entryC])
                (Samples.envParams "[...]") "[...]"
                [Samples.entryA] [Samples.entryNoUrl; Samples.entryC]
                [Declared {| def_id := "a"; def_baseUrl := "http://a";
                             def_apiKey := None; def_weight := Some 3;
                             def_healthCheckPath := None;
                             def_metadata := None |}])
      as [_ [Hpool _]].
    + reflexivity.
    + discriminate.
    + reflexivity.
    + repeat constructor.
    + right. eexists; eexists. split; reflexivity.
    + destruct (Hpool [{| def_id := "a"; def_baseUrl := "http://a";
                          def_apiKey := None; def_weight := Some 3;
                          def_healthCheckPath := None;
                          def_metadata := None |}] eq_refl)
        as [pool [Hp [Hids _]]].
      exists pool. split; [exact Hp | exact Hids].
  - destruct (fromEnv_valid_prefix
                (fun _ => AnArray [Samples.entryA; Samples.entryNumberUrl])
                (Samples.envParams "[...]") "[...]"
                [Samples.entryA; Samples.entryNumberUrl] []
                [Declared {| def_id := "a"; def_baseUrl := "http://a";
                             def_apiKey := None; def_weight := Some 3;
                             def_healthCheckPath := None;
                             def_metadata := None |}; BadBaseUrl])
      as [_ [_ Hthrows]].
    + reflexivity.
    + discriminate.
    + reflexivity.
    + repeat constructor.
    + left. reflexivity.
    + apply Hthrows. right. left. reflexivity.
Defined.

Lemma onFirst_forall : forall (P : MediaBridgeInstance.t -> Prop) i f l,
    (forall b, P b -> P (f b)) -> Forall P l -> Forall P (onFirst i f l).
Proof.
  intros P i f l Hf. induction 1 as [|b l Hb Hl IH]; simpl; [constructor|].
  destruct (String.eqb (id b) i); constructor; auto.
Qed.

Lemma probeEach_forall : forall (P : MediaBridgeInstance.t -> Prop) tick l i,
    (forall o s t1 t2 b, P b -> P (probed o s t1 t2 b)) ->
    Forall P l -> Forall P (probeEach i tick l).
Proof.
  intros P tick l. induction l as [|b l IH]; intros i Hf H; simpl;
    [constructor|].
  inversion H; subst. destruct (tick i) as [o [[s t1] t2]].
  constructor; [apply Hf; assumption | apply IH; assumption].
Qed.

Lemma onNth_forall : forall (P : MediaBridgeInstance.t -> Prop) f l i,
    (forall b, P b -> P (f b)) -> Forall P l -> Forall P (onNth i f l).
Proof.
  intros P f l. induction l as [|b l IH]; intros i Hf H;
    [destruct i; exact H|].
  inversion H; subst. destruct i; simpl; constructor; auto.
Qed.

Lemma reachable_pool_counters : forall pool,
    Reachable pool ->
    Forall (fun b => 0 <= consecutiveFailures b) (bridges pool).
Proof.
  induction 1 as [defs interval pool Hnew | op pool Hp IH].
  - destruct defs as [|d defs]; [discriminate|].
    unfold MediaBridgePool.new, ret in Hnew. inversion Hnew; subst; simpl.
    constructor; [simpl; lia|].
    apply Forall_forall. intros b Hin. apply in_map_iff in Hin.
    destruct Hin as [d' [<- _]]. simpl. lia.
  - destruct op as [tick | i | i | i o s t1 t2]; simpl.
    + apply probeEach_forall; [|exact IH].
      intros o s t1 t2 b Hb. destruct o; unfold probed; simpl; lia.
    + apply onFirst_forall; [|exact IH]. intros b Hb. simpl. lia.
    + apply onFirst_forall; [|exact IH]. intros b Hb. simpl. lia.
    + apply onNth_forall; [|exact IH].
      intros b Hb. destruct o; unfold probed; simpl; lia.
Qed.

Lemma three_failures_unhealthy : forall b,
    0 <= consecutiveFailures b ->
    healthy (MediaBridgeInstance.recordFailure
               (MediaBridgeInstance.recordFailure
                  (MediaBridgeInstance.recordFailure b))) = false.
Proof.
  intros b Hb. simpl.
  replace (2 <? consecutiveFailures b + 1 + 1 + 1) with true
    by (symmetry; apply Z.ltb_lt; lia).
  reflexivity.
Qed.

(** X7. Reporting three failures for a bridge takes it out of selection:
    in a pool where the bridge's id is unique and another instance is
    healthy, after three [recordFailure] calls no [getBridge] call that does
    not allow unhealthy instances returns that bridge, whatever the key and
    the random draw; one [recordSuccess] puts it back, healthy and with its
    counter at zero. *)
Theorem reported_bridge_is_avoided :
  forall (pool : MediaBridgePool.t) (pre post : list MediaBridgeInstance.t)
         (b : MediaBridgeInstance.t),
    Reachable pool ->
    bridges pool = (pre ++ b :: post)%list ->
    (forall x, In x (pre ++ post) -> id x <> id b) ->
    (exists h, In h (pre ++ post) /\ healthy h = true) ->
    let down :=
      recordFailure (id b) (recordFailure (id b) (recordFailure (id b) pool)) in
    (forall options random s,
        match options with
        | Some o => allowUnhealthy o <> Some true
        | None => True
        end ->
        getBridge down options random = inr s ->
        snap_id s <> id b /\ snap_healthy s = true)
    /\ (exists b',
          bridges (recordSuccess (id b) down) = (pre ++ b' :: post)%list
          /\ id b' = id b /\ healthy b' = true
          /\ consecutiveFailures b' = 0).
Proof.
  intros pool pre post b R Hb Huniq [h [Hhin Hh]] down.
  assert (Hpre : forall x, In x pre -> id x <> id b)
    by (intros x Hx; apply Huniq; apply in_or_app; left; exact Hx).
  set (b3 := MediaBridgeInstance.recordFailure
               (MediaBridgeInstance.recordFailure
                  (MediaBridgeInstance.recordFailure b))).
  assert (Hdown : bridges down = (pre ++ b3 :: post)%list).
  { subst down b3. unfold recordFailure. simpl. rewrite Hb.
    rewrite !onFirst_first by (assumption || reflexivity). reflexivity. }
  assert (Hb3 : healthy b3 = false).
  { apply three_failures_unhealthy.
    pose proof (reachable_pool_counters pool R) as Hc.
    rewrite Hb in Hc. rewrite Forall_forall in Hc.
    apply Hc. apply in_or_app. right. left. reflexivity. }
  split.
  - intros options random s Hallow Hget.
    assert (Hne : candidatesOf down options <> []).
    { apply candidates_nonempty. rewrite Hdown. destruct pre; discriminate. }
    destruct (getBridge_selects down options random Hne) as [c [Hc Hgc]].
    rewrite Hgc in Hget. inversion Hget; subst s. simpl.
    assert (Hch : healthy c = true).
    { apply (candidates_healthy down options c); [|exact Hallow | exact Hc].
      exists h. split; [|exact Hh]. rewrite Hdown.
      apply in_app_or in Hhin. apply in_or_app.
      destruct Hhin; [left; assumption | right; right; assumption]. }
    split; [|exact Hch].
    apply candidates_in_bridges in Hc. rewrite Hdown in Hc.
    apply in_app_or in Hc. destruct Hc as [Hc | [Hc | Hc]].
    + apply Huniq. apply in_or_app. left. exact Hc.
    + subst c. congruence.
    + apply Huniq. apply in_or_app. right. exact Hc.
  - exists (MediaBridgeInstance.recordSuccess b3).
    split; [|repeat split].
    change (bridges (recordSuccess (id b) down))
      with (onFirst (id b) MediaBridgeInstance.recordSuccess (bridges down)).
    rewrite Hdown.
    rewrite onFirst_first by (assumption || reflexivity). reflexivity.
Qed.

Lemma reported_bridge_is_avoided_witness :
  match getBridge
          (recordFailure "smb-a"
             (recordFailure "smb-a" (recordFailure "smb-a" twoBridges)))
          lineKeyOptions (1 # 100) with
  | inr s => snap_id s <> "smb-a" /\ snap_healthy s = true
  | inl _ => False
  end.
Proof.
  destruct (reported_bridge_is_avoided twoBridges []
              [MediaBridgeInstance.new otherDefinition]
              (MediaBridgeInstance.new sampleDefinition)) as [H _].
  - apply (pool_new [sampleDefinition; otherDefinition] None). reflexivity.
  - reflexivity.
  - intros x [<-|[]]. discriminate.
  - exists (MediaBridgeInstance.new otherDefinition).
    split; [left; reflexivity | reflexivity].
  - destruct (getBridge _ lineKeyOptions (1 # 100)) as [e|s] eqn:E.
    + vm_compute in E. discriminate E.
    + apply (H lineKeyOptions (1 # 100) s); [discriminate | exact E].
Defined.

End PoolMore.

(** ** The long-poll wait *)

Module LongPollMore.

Import Api LongPoll Samples MoreSamples.

(** The wait is either still open, with its timer armed and its listener
    registered, or settled, with neither left. *)
Lemma wait_shape : forall schedule start,
    let w := run schedule (startWait start) in
    (settled w = None /\ timer w = Some (start + timeoutMs)
     /\ listening w = true)
    \/ (settled w <> None /\ timer w = None /\ listening w = false).
Proof.
  intros schedule start.
  assert (H : forall w,
             (settled w = None /\ timer w = Some (start + timeoutMs)
              /\ listening w = true)
             \/ (settled w <> None /\ timer w = None /\ listening w = false) ->
             let w' := run schedule w in
             (settled w' = None /\ timer w' = Some (start + timeoutMs)
              /\ listening w' = true)
             \/ (settled w' <> None /\ timer w' = None
                 /\ listening w' = false)).
  { induction schedule as [|e rest IH]; intros w Hw; [exact Hw|].
    cbn [run fold_left]. change (fold_left step rest ?x) with (run rest x).
    apply IH. clear IH.
    destruct Hw as [[Hs [Ht Hl]] | [Hs [Ht Hl]]].
    - destruct e as [|ms]; simpl.
      + rewrite Hl. right. simpl. unfold resolve. rewrite Hs.
        repeat split; discriminate.
      + rewrite Ht. destruct (start + timeoutMs <=? now w + Z.of_N ms).
        * right. simpl. unfold resolve. rewrite Hs.
          repeat split; discriminate.
        * left. simpl. auto.
    - destruct e as [|ms]; simpl.
      + rewrite Hl. right. auto.
      + rewrite Ht. right. simpl. auto. }
  apply H. left. repeat split.
Qed.

(** X8. An answered poll stays answered: once the request has been
    answered under a schedule of events, no further emission and no further
    passing of time changes the time, the cause or the content of that
    answer. *)
Theorem long_poll_answer_is_final :
  forall (C : Collator) (dbAt : Z -> DbManager.t) (start : Z)
         (before after : list LoopEvent) (pid lid : string)
         (answer : Z * Wake * Reply),
    participants dbAt start before pid lid = Some answer ->
    participants dbAt start (before ++ after) pid lid = Some answer.
Proof.
  intros C dbAt start before after pid lid answer H.
  unfold participants in *.
  rewrite LongPollFacts.run_app.
  destruct (wait_shape before start) as [[Hs _] | [Hs [Ht Hl]]].
  - rewrite Hs in H. discriminate.
  - destruct (LongPollFacts.settled_stable after _ Ht Hl) as [_ [_ Heq]].
    rewrite Heq. exact H.
Qed.

Lemma long_poll_answer_is_final_witness :
  participants (C := codePointCollator) laggingDb 0
    ([Elapse 300; UsersChange] ++ [UsersChange; Elapse 90000]) "1" "1"
  = Some (300, ByChange,
          reply 200 (Participants [toParticipant storedSession])).
Proof.
  apply long_poll_answer_is_final. reflexivity.
Defined.

(** X9. The wait cleans up after itself: while the request is waiting,
    its timer is armed for 25000 ms after the start and its listener is
    registered; from the moment it is settled, by an emission or by the
    timer, the timer is cleared and the listener is removed, so the handler
    leaves neither behind. *)
Theorem long_poll_leaves_nothing_behind :
  forall (schedule : list LoopEvent) (start : Z),
    (settled (run schedule (startWait start)) = None ->
     timer (run schedule (startWait start)) = Some (start + 25000)
     /\ listening (run schedule (startWait start)) = true)
    /\ (settled (run schedule (startWait start)) <> None ->
        timer (run schedule (startWait start)) = None
        /\ listening (run schedule (startWait start)) = false).
Proof.
  intros schedule start.
  destruct (wait_shape schedule start) as [[Hs [Ht Hl]] | [Hs [Ht Hl]]].
  - split; [auto|]. intros H. congruence.
  - split; [intros H; congruence | auto].
Qed.

Lemma long_poll_leaves_nothing_behind_witness :
  timer (run [Elapse 10; UsersChange; Elapse 5] (startWait 7)) = None
  /\ listening (run [Elapse 10; UsersChange; Elapse 5] (startWait 7)) = false.
Proof.
  destruct (long_poll_leaves_nothing_behind
              [Elapse 10; UsersChange; Elapse 5] 7) as [_ H].
  apply H. discriminate.
Defined.

Lemma sorted_members : forall (C : Collator) l p,
    In p (sortParticipants l) -> In p l.
Proof.
  intros C l p H. unfold sortParticipants in H.
  eapply Permutation_in; [|exact H].
  apply Permutation_sym. apply SortFacts.arraySort_perm.
Qed.

(** X10. Every entry of a long-poll answer comes from a session of that
    production and line that is not expired, carries that session's id, and
    an entry for a WHIP session is reported active whatever the session's
    own flag says. *)
Theorem long_poll_entries :
  forall (C : Collator) (db : DbManager.t) (pid lid : string)
         (l : list UserResponse) (p : UserResponse),
    respond db pid lid = reply 200 (Participants l) ->
    In p l ->
    (exists s,
        In s (DbManager.sessions db)
        /\ productionId s = pid /\ lineId s = lid /\ isExpired s = false
        /\ sessionId p = Some (doc_id s)
        /\ ur_isActive p = (isWhip s || isActive s))
    /\ (ur_isWhip p = true -> ur_isActive p = true).
Proof.
  intros C db pid lid l p Hr Hin.
  rewrite LongPollFacts.respond_eq in Hr.
  destruct (DbManager.outage db); [discriminate|].
  inversion Hr; subst l. apply sorted_members in Hin.
  apply in_map_iff in Hin. destruct Hin as [s [<- Hs]].
  unfold currentParticipants in Hs. apply filter_In in Hs.
  destruct Hs as [Hs Hm].
  apply andb_true_iff in Hm. destruct Hm as [Hm He].
  apply andb_true_iff in Hm. destruct Hm as [Hp Hl].
  apply String.eqb_eq in Hp, Hl. apply negb_true_iff in He.
  split.
  - exists s. simpl. repeat split; auto.
  - simpl. intros ->. reflexivity.
Qed.

Lemma long_poll_entries_witness :
  respond (C := codePointCollator) studioDb "1" "1"
  = reply 200
      (Participants [toParticipant storedSession; toParticipant whipSession])
  /\ ur_isActive (toParticipant whipSession) = true.
Proof.
  assert (E : respond (C := codePointCollator) studioDb "1" "1"
              = reply 200
                  (Participants [toParticipant storedSession;
                                 toParticipant whipSession]))
    by reflexivity.
  split; [exact E|].
  destruct (long_poll_entries codePointCollator studioDb "1" "1" _
              (toParticipant whipSession) E) as [_ H].
  - right. left. reflexivity.
  - apply H. reflexivity.
Defined.

End LongPollMore.

(** ** Ids in URLs *)

Module NumberFacts.

Import Api Numbers.

Example numberToString_samples :
  numberToString 0 = "0" /\ numberToString 7 = "7"
  /\ numberToString 1024 = "1024" /\ numberToString (-35) = "-35"
  /\ numberToString 100000000000000000000 = "100000000000000000000".
Proof. repeat split; reflexivity. Qed.

(** Beyond 2^53 a number is the nearest double, and its text the
    shortest decimal that is read back as that double. *)
Example large_numbers :
  parseInt "9007199254740993" = Some 9007199254740992
  /\ numberToString (2 ^ 60) = "1152921504606847000"
  /\ numberToString (10 ^ 21) = "1e+21"
  /\ numberToString (2 ^ 70 + 12345) = "1.1805916207174113e+21".
Proof. repeat split; vm_compute; reflexivity. Qed.

Lemma digit_cases : forall d,
    0 <= d < 10 ->
    d = 0 \/ d = 1 \/ d = 2 \/ d = 3 \/ d = 4 \/ d = 5 \/ d = 6 \/ d = 7
    \/ d = 8 \/ d = 9.
Proof. intros d H. lia. Qed.

Lemma digitChar_facts : forall d,
    0 <= d < 10 ->
    digitOf (digitChar d) = Some d
    /\ isWhiteSpace (digitChar d) = false
    /\ digitChar d <> "-"%char /\ digitChar d <> "+"%char.
Proof.
  intros d H.
  destruct (digit_cases d H) as [->|[->|[->|[->|[->|[->|[->|[->|[->| ->]]]]]]]]];
    repeat split; try reflexivity; discriminate.
Qed.

Lemma digitsPrefix_digit : forall d rest o,
    0 <= d < 10 ->
    digitsPrefix (String (digitChar d) rest) o
    = digitsPrefix rest
        (Some (10 * match o with Some a => a | None => 0 end + d)).
Proof.
  intros d rest o H. cbn [digitsPrefix].
  destruct (digitChar_facts d H) as [-> _]. reflexivity.
Qed.

(** Reading the digits written for [n] multiplies what was read before by
    a power of ten and adds [n]. *)
Lemma digitsPrefix_decimal : forall fuel n acc,
    0 <= n <= Zpos fuel ->
    exists m,
      forall o,
        digitsPrefix (decimal fuel n acc) o
        = digitsPrefix acc
            (Some (match o with Some a => a | None => 0 end * m + n)).
Proof.
  induction fuel as [f IH | f IH | ]; intros n acc Hn; cbn [decimal].
  - destruct (n <? 10) eqn:E.
    + apply Z.ltb_lt in E. exists 10. intros o.
      rewrite digitsPrefix_digit by (apply Z.mod_pos_bound; lia).
      rewrite Z.mod_small by lia. do 2 f_equal. lia.
    + apply Z.ltb_ge in E.
      destruct (IH (n / 10) (String (digitChar (n mod 10)) acc)) as [m Hm].
      { split; [apply Z.div_pos; lia|].
        apply Z.div_le_upper_bound; lia. }
      exists (m * 10). intros o. rewrite Hm.
      rewrite digitsPrefix_digit by (apply Z.mod_pos_bound; lia).
      do 2 f_equal. pose proof (Z.div_mod n 10 ltac:(lia)). lia.
  - destruct (n <? 10) eqn:E.
    + apply Z.ltb_lt in E. exists 10. intros o.
      rewrite digitsPrefix_digit by (apply Z.mod_pos_bound; lia).
      rewrite Z.mod_small by lia. do 2 f_equal. lia.
    + apply Z.ltb_ge in E.
      destruct (IH (n / 10) (String (digitChar (n mod 10)) acc)) as [m Hm].
      { split; [apply Z.div_pos; lia|].
        apply Z.div_le_upper_bound; lia. }
      exists (m * 10). intros o. rewrite Hm.
      rewrite digitsPrefix_digit by (apply Z.mod_pos_bound; lia).
      do 2 f_equal. pose proof (Z.div_mod n 10 ltac:(lia)). lia.
  - assert (E : (n <? 10) = true) by (apply Z.ltb_lt; lia).
    rewrite E. apply Z.ltb_lt in E. exists 10. intros o.
    rewrite digitsPrefix_digit by (apply Z.mod_pos_bound; lia).
    rewrite Z.mod_small by lia. do 2 f_equal. lia.
Qed.

Lemma decimal_head : forall fuel n acc,
    0 <= n ->
    exists d rest, 0 <= d < 10 /\ decimal fuel n acc = String (digitChar d) rest.
Proof.
  induction fuel as [f IH | f IH | ]; intros n acc Hn; cbn [decimal];
    destruct (n <? 10) eqn:E;
    try (exists (n mod 10), acc;
         split; [apply Z.mod_pos_bound; lia | reflexivity]);
    apply Z.ltb_ge in E; apply IH; apply Z.div_pos; lia.
Qed.

Lemma append_assoc : forall a b c : string,
    ((a ++ b) ++ c)%string = (a ++ (b ++ c))%string.
Proof.
  induction a as [|x a IH]; intros b c; simpl; [reflexivity|].
  rewrite IH. reflexivity.
Qed.

Lemma decimal_acc : forall fuel n acc,
    decimal fuel n acc = (decimal fuel n "" ++ acc)%string.
Proof.
  induction fuel as [f IH | f IH | ]; intros n acc; cbn [decimal];
    destruct (n <? 10); try reflexivity;
    rewrite IH, (IH _ (String _ "")), append_assoc; reflexivity.
Qed.

Lemma digitsPrefix_stop : forall junk v,
    noDigitAhead junk = true -> digitsPrefix junk (Some v) = Some v.
Proof.
  intros [|c junk] v H; [reflexivity|].
  simpl in *. destruct (digitOf c); [discriminate | reflexivity].
Qed.

Lemma trimStart_space : forall ws s,
    allWhiteSpace ws = true -> trimStart (ws ++ s) = trimStart s.
Proof.
  induction ws as [|c ws IH]; intros s H; [reflexivity|].
  simpl in H. apply andb_true_iff in H. destruct H as [Hc Hws].
  simpl. rewrite Hc. apply IH. exact Hws.
Qed.

Lemma nearestDouble_small : forall n,
    Z.abs n <= 2 ^ 53 -> nearestDouble n = n.
Proof.
  intros n H. unfold nearestDouble.
  replace (Z.abs n <=? 2 ^ 53) with true
    by (symmetry; apply Z.leb_le; exact H).
  reflexivity.
Qed.

Lemma numberToString_small : forall n,
    0 <= n <= 2 ^ 53 -> numberToString n = decimal (Z.to_pos n) n "".
Proof.
  intros n H. unfold numberToString.
  replace (Z.abs n <=? 2 ^ 53) with true
    by (symmetry; apply Z.leb_le; lia).
  replace (n <? 0) with false by (symmetry; apply Z.ltb_ge; lia).
  reflexivity.
Qed.

Lemma parseInt_natural : forall n junk,
    0 <= n <= 2 ^ 53 ->
    noDigitAhead junk = true ->
    parseInt (decimal (Z.to_pos n) n "" ++ junk) = Some n
    /\ (forall rest,
           rest = (decimal (Z.to_pos n) n "" ++ junk)%string ->
           digitsPrefix rest None = Some n).
Proof.
  intros n junk [Hn Hmax] Hj.
  assert (Hfuel : 0 <= n <= Zpos (Z.to_pos n)).
  { destruct n as [|p|p]; simpl; lia. }
  assert (Hexact : option_map nearestDouble (Some n) = Some n).
  { simpl. f_equal. apply nearestDouble_small. lia. }
  destruct (digitsPrefix_decimal (Z.to_pos n) n junk Hfuel) as [m Hm].
  assert (Hd : digitsPrefix (decimal (Z.to_pos n) n "" ++ junk) None = Some n).
  { rewrite <- decimal_acc, Hm, digitsPrefix_stop by assumption.
    f_equal. }
  split; [|intros rest ->; exact Hd].
  unfold parseInt.
  destruct (decimal_head (Z.to_pos n) n "" Hn) as [d [rest [Hdr Heq]]].
  rewrite Heq in *.
  destruct (digitChar_facts d Hdr) as [_ [Hw [Hm1 Hp1]]].
  change ((String (digitChar d) rest ++ junk)%string)
    with (String (digitChar d) (rest ++ junk)) in *.
  cbn [trimStart]. rewrite Hw.
  destruct (digitChar d) as [b0 b1 b2 b3 b4 b5 b6 b7] eqn:Ec.
  destruct b0, b1, b2, b3, b4, b5, b6, b7;
    try (rewrite <- Hexact, <- Hd; reflexivity);
    exfalso; [apply Hp1 | apply Hm1]; reflexivity.
Qed.

End NumberFacts.

(** ** The line listing and the session removal *)

Module ListingFacts.

Import Api Numbers Listing Samples MoreSamples.

Example lines_of_studio :
  getProductionLines (C := codePointCollator) (inr sampleProduction) studioDb
  = LinesOk 200
      [{| lr_name := "Control Room"; lr_id := "1";
          lr_smbConferenceId := Some "conf-1";
          lr_participants := [toUserResponse storedSession;
                              toUserResponse whipSession];
          lr_programOutputLine := false |}].
Proof. reflexivity. Qed.

Lemma filter_split_by_key :
  forall (keys : list string) (l : list UserSession),
    NoDup keys ->
    Permutation
      (List.concat (map (fun k => filter (fun s => String.eqb (lineId s) k) l) keys))
      (filter (fun s => existsb (String.eqb (lineId s)) keys) l).
Proof.
  induction keys as [|k keys IH]; intros l Hnd.
  - simpl. induction l as [|s l IHl]; simpl; [constructor | exact IHl].
  - inversion Hnd as [|? ? Hk Hnd']; subst.
    cbn [map List.concat].
    rewrite (IH l Hnd'). clear IH.
    induction l as [|s l IHl]; [constructor|].
    cbn [filter existsb].
    destruct (String.eqb (lineId s) k) eqn:E.
    + apply String.eqb_eq in E.
      assert (Hn : existsb (String.eqb (lineId s)) keys = false).
      { destruct (existsb (String.eqb (lineId s)) keys) eqn:Ex; [|reflexivity].
        apply existsb_exists in Ex. destruct Ex as [k' [Hin Hk']].
        apply String.eqb_eq in Hk'. exfalso. apply Hk. congruence. }
      rewrite Hn. cbn [orb app]. constructor. exact IHl.
    + cbn [orb].
      destruct (existsb (String.eqb (lineId s)) keys); [|exact IHl].
      rewrite <- Permutation_middle. constructor. exact IHl.
Qed.

Lemma concat_perm : forall (A : Type) (xs ys : list (list A)),
    Forall2 (@Permutation A) xs ys -> Permutation (List.concat xs) (List.concat ys).
Proof.
  induction 1; simpl; [constructor|].
  apply Permutation_app; assumption.
Qed.

(** X12. The line listing loses and repeats nobody: when the production's
    line ids are distinct and the store answers, the reply has one entry
    per line, in the production's order, and the participants of all the
    entries together are exactly the production's sessions that are not
    expired and sit on one of its lines, each listed once. *)
Theorem line_listing_partitions_sessions :
  forall (C : Collator) (production : Production) (db : DbManager.t),
    DbManager.outage db = None ->
    NoDup (map line_id (lines production)) ->
    exists allLines,
      getProductionLines (inr production) db = LinesOk 200 allLines
      /\ map lr_id allLines = map line_id (lines production)
      /\ Permutation (List.concat (map lr_participants allLines))
           (map toUserResponse (listedSessions production db)).
Proof.
  intros C production db Hup Hnd.
  unfold getProductionLines, bind, DbManager.getSessionsByQuery,
    DbManager.connected, ret.
  rewrite Hup.
  eexists. split; [reflexivity|]. split.
  - unfold linesOf. rewrite map_map. reflexivity.
  - unfold linesOf, listedSessions. rewrite map_map. cbn [lr_participants].
    set (matching := filter _ (DbManager.sessions db)).
    transitivity
      (List.concat (map (fun line =>
                      map toUserResponse
                        (filter (fun s => String.eqb (lineId s) (line_id line))
                           matching))
                 (lines production))).
    { apply concat_perm.
      clear Hnd.
      induction (lines production) as [|line ls IH]; simpl; [constructor|].
      constructor; [|exact IH].
      apply Permutation_sym. apply SortFacts.arraySort_perm. }
    rewrite <- (map_map line_id
                  (fun k => map toUserResponse
                              (filter (fun s => String.eqb (lineId s) k)
                                 matching))).
    rewrite <- (map_map (fun k => filter (fun s => String.eqb (lineId s) k)
                                    matching)
                  (map toUserResponse)).
    rewrite <- concat_map.
    apply Permutation_map.
    rewrite (filter_split_by_key _ matching Hnd).
    subst matching.
    clear. induction (DbManager.sessions db) as [|s l IH]; [constructor|].
    cbn [filter]. unfold DbManager.matches at 1. cbn.
    rewrite (String.eqb_sym (numberToString (prod_id production))).
    destruct (String.eqb (productionId s)
                (numberToString (prod_id production))); cbn;
      [|exact IH].
    destruct (isExpired s); cbn; [exact IH|].
    destruct (existsb (String.eqb (lineId s))
                (map line_id (lines production))); [constructor|];
      exact IH.
Qed.

Lemma line_listing_partitions_sessions_witness :
  exists allLines,
    getProductionLines (C := codePointCollator) (inr sampleProduction) studioDb
    = LinesOk 200 allLines
    /\ map lr_id allLines = ["1"].
Proof.
  destruct (line_listing_partitions_sessions codePointCollator
              sampleProduction studioDb) as [allLines [H1 [H2 _]]].
  - reflexivity.
  - repeat constructor. intros [].
  - exists allLines. split; [exact H1 | exact H2].
Defined.

Lemma find_removed : forall (l : list UserSession) sid,
    find (fun s => String.eqb (doc_id s) sid)
      (filter (fun s => negb (String.eqb (doc_id s) sid)) l) = None.
Proof.
  induction l as [|s l IH]; intros sid; simpl; [reflexivity|].
  destruct (String.eqb (doc_id s) sid) eqn:E; simpl; [apply IH|].
  rewrite E. apply IH.
Qed.

Lemma find_other : forall (l : list UserSession) sid other,
    other <> sid ->
    find (fun s => String.eqb (doc_id s) other)
      (filter (fun s => negb (String.eqb (doc_id s) sid)) l)
    = find (fun s => String.eqb (doc_id s) other) l.
Proof.
  induction l as [|s l IH]; intros sid other Hne; simpl; [reflexivity|].
  destruct (String.eqb (doc_id s) sid) eqn:E; simpl.
  - apply String.eqb_eq in E.
    replace (String.eqb (doc_id s) other) with false
      by (symmetry; apply String.eqb_neq; congruence).
    apply IH. exact Hne.
  - destruct (String.eqb (doc_id s) other); [reflexivity|].
    apply IH. exact Hne.
Qed.

Lemma filter_nothing : forall (l : list UserSession) sid,
    existsb (fun s => String.eqb (doc_id s) sid) l = false ->
    filter (fun s => negb (String.eqb (doc_id s) sid)) l = l.
Proof.
  induction l as [|s l IH]; intros sid H; simpl in *; [reflexivity|].
  apply orb_false_elim in H. destruct H as [Hs Hl].
  rewrite Hs. simpl. rewrite IH by assumption. reflexivity.
Qed.

Lemma existsb_removed : forall (l : list UserSession) sid,
    existsb (fun s => String.eqb (doc_id s) sid)
      (filter (fun s => negb (String.eqb (doc_id s) sid)) l) = false.
Proof.
  induction l as [|s l IH]; intros sid; simpl; [reflexivity|].
  destruct (String.eqb (doc_id s) sid) eqn:E; simpl; [apply IH|].
  rewrite E. apply IH.
Qed.

Lemma keyOf_inj : forall backend a b,
    DbManager.keyOf backend a = DbManager.keyOf backend b -> a = b.
Proof.
  intros [|] a b H; simpl in H; [|exact H].
  repeat match goal with
         | H : String _ _ = String _ _ |- _ => injection H as H
         end.
  exact H.
Qed.

(** X13. Removing a session, with the store reachable: the reply is 200
    exactly when the store held a document under the session's key
    ([session_<id>] in CouchDB, the id itself in MongoDB); an unknown id is
    answered 500 ('Could not delete connection ...'), not 404 or 410, and
    changes nothing; afterwards the id is unknown to [getSession] while
    every other session is found as before, the store holding the
    documents it held except that one; and repeating the request is
    answered 500. *)
Theorem delete_session_outcomes :
  forall (db : DbManager.t) (sid : string),
    DbManager.outage db = None ->
    let r := fst (deleteSession db sid) in
    let db' := snd (deleteSession db sid) in
    let key := DbManager.docKey db sid in
    ((exists s, In s (DbManager.sessions db) /\ doc_id s = key) ->
     r = reply 200 (Text ("Deleted connection " ++ sid)))
    /\ ((forall s, In s (DbManager.sessions db) -> doc_id s <> key) ->
        r = reply 500
              (Text ("Exception thrown when trying to delete connection: "
                     ++ "Error: Could not delete connection " ++ sid))
        /\ db' = db)
    /\ DbManager.getSession db' sid = inr None
    /\ (forall other, other <> sid ->
                      DbManager.getSession db' other
                      = DbManager.getSession db other)
    /\ (forall s, In s (DbManager.sessions db')
                  <-> In s (DbManager.sessions db) /\ doc_id s <> key)
    /\ code (fst (deleteSession db' sid)) = 500.
Proof.
  intros db sid Hup r db' key. subst r db'.
  assert (Hrun : deleteSession db sid
                 = (if existsb (fun s => String.eqb (doc_id s) key)
                         (DbManager.sessions db)
                    then reply 200 (Text ("Deleted connection " ++ sid))
                    else reply 500
                           (Text ("Exception thrown when trying to delete connection: "
                                  ++ "Error: Could not delete connection "
                                  ++ sid)),
                    {| DbManager.backend := DbManager.backend db;
                       DbManager.outage := None;
                       DbManager.sessions :=
                         filter (fun s => negb (String.eqb (doc_id s) key))
                           (DbManager.sessions db) |})).
  { unfold deleteSession, DbManager.deleteUserSession, DbManager.connected.
    rewrite Hup. fold key. cbn [ret].
    destruct (existsb (fun s => String.eqb (doc_id s) key)
                (DbManager.sessions db)); reflexivity. }
  rewrite Hrun. cbn [fst snd].
  set (db' := {| DbManager.backend := DbManager.backend db;
                 DbManager.outage := None;
                 DbManager.sessions :=
                   filter (fun s => negb (String.eqb (doc_id s) key))
                     (DbManager.sessions db) |}).
  assert (Hkey : forall other, DbManager.docKey db' other
                               = DbManager.docKey db other) by reflexivity.
  split; [|split; [|split; [|split; [|split]]]].
  - intros [s [Hin Hid]].
    replace (existsb _ _) with true; [reflexivity|].
    symmetry. apply existsb_exists. exists s. split; [exact Hin|].
    apply String.eqb_eq. exact Hid.
  - intros Habs.
    assert (Ht : existsb (fun s => String.eqb (doc_id s) key)
                   (DbManager.sessions db) = false).
    { destruct (existsb _ _) eqn:E; [|reflexivity].
      apply existsb_exists in E. destruct E as [s [Hin Hid]].
      apply String.eqb_eq in Hid. exfalso. exact (Habs s Hin Hid). }
    rewrite Ht. split; [reflexivity|].
    subst db'. rewrite filter_nothing by exact Ht.
    destruct db as [be o ss]. simpl in Hup. subst o. reflexivity.
  - unfold DbManager.getSession, DbManager.connected. rewrite Hkey.
    fold key. subst db'. cbn [DbManager.outage DbManager.sessions].
    rewrite find_removed. reflexivity.
  - intros other Hne. unfold DbManager.getSession, DbManager.connected.
    rewrite Hkey. subst db'. cbn [DbManager.outage DbManager.sessions].
    rewrite Hup, find_other; [reflexivity|].
    intros E. apply Hne. exact (keyOf_inj _ _ _ E).
  - intros s. subst db'. cbn [DbManager.sessions]. rewrite filter_In.
    rewrite negb_true_iff, String.eqb_neq. reflexivity.
  - unfold deleteSession, DbManager.deleteUserSession, DbManager.connected.
    rewrite Hkey. fold key. subst db'.
    cbn [DbManager.outage DbManager.sessions].
    rewrite existsb_removed. reflexivity.
Qed.

Lemma delete_session_outcomes_witness :
  fst (deleteSession studioDb "7d0c")
  = reply 200 (Text "Deleted connection 7d0c")
  /\ fst (deleteSession couchStudioDb "7d0c")
     = reply 200 (Text "Deleted connection 7d0c")
  /\ code (fst (deleteSession (snd (deleteSession couchStudioDb "7d0c"))
                  "7d0c"))
     = 500.
Proof.
  destruct (delete_session_outcomes studioDb "7d0c" eq_refl)
    as [Hmongo _].
  destruct (delete_session_outcomes couchStudioDb "7d0c" eq_refl)
    as [Hcouch [_ [_ [_ [_ Hagain]]]]].
  split; [|split; [|exact Hagain]].
  - apply Hmongo. exists Samples.storedSession.
    split; [left; reflexivity | reflexivity].
  - apply Hcouch. exists couchSession.
    split; [left; reflexivity | reflexivity].
Defined.

End ListingFacts.

(** ** Scopes and the request hook *)

Module AuthFacts.

Import Api Auth Samples MoreSamples.

Example bearer_forms :
  trim (stripBearer "Bearer   abc  ") = "abc"
  /\ trim (stripBearer "bEaReR abc") = "abc"
  /\ trim (stripBearer "Bearerabc") = "Bearerabc"
  /\ trim (stripBearer "Basic abc") = "Basic abc"
  /\ slice 5 "oidc.xyz" = "xyz".
Proof. repeat split; reflexivity. Qed.

Lemma has_scope_iff : forall u required,
    hasRequiredScopes (Some u) required = true
    <-> required = []
        \/ exists scope, In scope required /\ In scope (scopes u).
Proof.
  intros u required. unfold hasRequiredScopes.
  destruct required as [|r rs]; [split; auto|].
  rewrite existsb_exists. split.
  - intros [scope [Hin Hhave]]. right. exists scope. split; [exact Hin|].
    apply existsb_exists in Hhave. destruct Hhave as [have [Hh He]].
    apply String.eqb_eq in He. subst. exact Hh.
  - intros [H | [scope [Hin Hhave]]]; [discriminate|].
    exists scope. split; [exact Hin|].
    apply existsb_exists. exists scope. split; [exact Hhave|].
    apply String.eqb_refl.
Qed.

Lemma requireScopes_passes : forall required user,
    requireScopes (ManyScopes required) user = None
    <-> hasRequiredScopes user required = true.
Proof.
  intros required user. unfold requireScopes.
  destruct (hasRequiredScopes user required); simpl; split; intros H;
    congruence.
Qed.



(** X15. Anonymous access: with [allowAnonymous] set the hook never
    rejects, and a request without credentials proceeds as the anonymous
    user with the configured default scopes, which passes a scope check
    exactly when the check requires nothing or one of the default scopes. Without it a
    request without credentials is rejected with 401 'Missing Authorization
    header', every other rejection is 401 'Invalid credentials', and only
    a request that carries a header is let in. *)
Theorem anonymous_admission :
  forall (options : AuthOptions) (bearer : option string)
         (required : list string),
    (allowAnonymous options = Some true ->
     (exists u, onRequest options bearer = Authenticated u)
     /\ onRequest options None = Authenticated (anonymous options)
     /\ (forall r, onRequest options bearer <> Rejected r)
     /\ (requireScopes (ManyScopes required)
           (userOf (onRequest options None)) = None
         <-> required = []
             \/ exists scope,
                 In scope required
                 /\ In scope (match defaultScopes options with
                              | Some l => l
                              | None => []
                              end)))
    /\ (allowAnonymous options <> Some true ->
        onRequest options None
        = Rejected (reply 401 (Message "Missing Authorization header"))
        /\ (forall u, onRequest options bearer = Authenticated u ->
                      truthy bearer = true)
        /\ (forall r, onRequest options bearer = Rejected r ->
                      (truthy bearer = false
                       /\ r = reply 401 (Message "Missing Authorization header"))
                      \/ (truthy bearer = true
                          /\ r = reply 401 (Message "Invalid credentials")))).
Proof.
  intros options bearer required. split.
  - intros Ha. unfold onRequest. rewrite Ha. cbn [truthy negb].
    split; [|split; [reflexivity | split]].
    + destruct (negb (truthy bearer)); [eauto|].
      match goal with |- context [match ?x with Some _ => _ | None => _ end] =>
        destruct x end; eauto.
    + intros r. destruct (negb (truthy bearer)); [discriminate|].
      match goal with |- context [match ?x with Some _ => _ | None => _ end] =>
        destruct x end; discriminate.
    + cbn [userOf]. rewrite requireScopes_passes. apply has_scope_iff.
  - intros Ha. unfold onRequest.
    assert (Hf : match allowAnonymous options with
                 | Some a => a
                 | None => false
                 end = false)
      by (destruct (allowAnonymous options) as [[|]|]; congruence).
    rewrite Hf. cbn [truthy negb]. split; [reflexivity|]. split.
    + intros u. destruct (truthy bearer); [auto|]. cbn [negb]. discriminate.
    + intros r. destruct (truthy bearer); cbn [negb].
      * match goal with |- context [match ?x with Some _ => _ | None => _ end] =>
          destruct x end; [discriminate|].
        intros H. injection H as <-. right. split; reflexivity.
      * intros H. injection H as <-. left. split; reflexivity.
Qed.

Lemma anonymous_admission_witness :
  requireOperator (userOf (onRequest openOptions (Some "Bearer nonsense")))
  = None
  /\ onRequest closedOptions None
     = Rejected (reply 401 (Message "Missing Authorization header")).
Proof.
  destruct (anonymous_admission openOptions (Some "Bearer nonsense")
              ["admin"; "engineer"; "operator"]) as [Hopen _].
  destruct (anonymous_admission closedOptions None []) as [_ Hclosed].
  split.
  - destruct (Hopen eq_refl) as [_ [_ [_ Hgate]]].
    change (onRequest openOptions (Some "Bearer nonsense"))
      with (onRequest openOptions None).
    apply Hgate. right. exists "operator". simpl. tauto.
  - apply Hclosed. discriminate.
Defined.

Lemma isSpace_lower : forall c, isSpace (lowerAscii c) = isSpace c.
Proof. intros [[] [] [] [] [] [] [] []]; reflexivity. Qed.

Lemma lowerAscii_idem : forall c, lowerAscii (lowerAscii c) = lowerAscii c.
Proof. intros [[] [] [] [] [] [] [] []]; reflexivity. Qed.

Lemma spaces_lower : forall s,
    forallb (fun c => negb (isSpace c)) (list_ascii_of_string (lowerString s))
    = forallb (fun c => negb (isSpace c)) (list_ascii_of_string s).
Proof.
  induction s as [|c rest IH]; [reflexivity|].
  simpl. rewrite isSpace_lower, IH. reflexivity.
Qed.

Lemma dropSpaces_pad : forall pad s,
    forallb isSpace (list_ascii_of_string pad) = true ->
    dropSpaces (pad ++ s) = dropSpaces s.
Proof.
  induction pad as [|c pad IH]; intros s H; [reflexivity|].
  simpl in H. apply andb_prop in H. destruct H as [Hc Hpad].
  simpl. rewrite Hc. apply IH. exact Hpad.
Qed.

Lemma trimEnd_spaces : forall pad,
    forallb isSpace (list_ascii_of_string pad) = true -> trimEnd pad = "".
Proof.
  induction pad as [|c pad IH]; intros H; [reflexivity|].
  simpl in H. apply andb_prop in H. destruct H as [Hc Hpad].
  simpl. rewrite (IH Hpad), Hc. reflexivity.
Qed.

Lemma trimEnd_pad : forall s pad,
    forallb isSpace (list_ascii_of_string pad) = true ->
    trimEnd (s ++ pad) = trimEnd s.
Proof.
  induction s as [|c rest IH]; intros pad H.
  - simpl. apply trimEnd_spaces. exact H.
  - simpl. rewrite (IH pad H). reflexivity.
Qed.

Lemma dropSpaces_solid : forall s,
    forallb (fun c => negb (isSpace c)) (list_ascii_of_string s) = true ->
    forall rest, s <> "" -> dropSpaces (s ++ rest) = s ++ rest.
Proof.
  intros [|c s] H rest Hne; [congruence|].
  simpl in H. apply andb_prop in H. destruct H as [Hc _].
  simpl. destruct (isSpace c); [discriminate | reflexivity].
Qed.

Lemma trimEnd_solid : forall s,
    forallb (fun c => negb (isSpace c)) (list_ascii_of_string s) = true ->
    trimEnd s = s.
Proof.
  induction s as [|c rest IH]; intros H; [reflexivity|].
  simpl in H. apply andb_prop in H. destruct H as [Hc Hrest].
  simpl. rewrite (IH Hrest).
  destruct rest; [|reflexivity].
  destruct (isSpace c); [discriminate | reflexivity].
Qed.

Lemma prefix_lower : forall p s,
    String.prefix p s = true ->
    String.prefix (lowerString p) (lowerString s) = true.
Proof.
  induction p as [|a p IH]; intros s H; [destruct s; reflexivity|].
  destruct s as [|b s]; [discriminate|].
  simpl in H. simpl.
  destruct (ascii_dec a b) as [->|]; [|discriminate].
  destruct (ascii_dec (lowerAscii b) (lowerAscii b)); [|congruence].
  apply IH. exact H.
Qed.

Lemma afterPrefix_lower : forall p s,
    afterPrefixNoCase p (lowerString s) = None ->
    afterPrefixNoCase p s = None.
Proof.
  induction p as [|a p IH]; intros s H; [discriminate|].
  destruct s as [|b s]; [reflexivity|].
  simpl in H. simpl. rewrite lowerAscii_idem in H.
  destruct (Ascii.eqb (lowerAscii a) (lowerAscii b)); [|reflexivity].
  apply IH. exact H.
Qed.

Lemma append_empty : forall s : string, s ++ "" = s.
Proof. induction s as [|c s IH]; [reflexivity|]. simpl. now rewrite IH. Qed.

(** What the request hook needs of a token that spells a role name. *)
Lemma role_name_shape : forall name,
    In (lowerString name) roleNames ->
    name <> ""
    /\ forallb (fun c => negb (isSpace c)) (list_ascii_of_string name) = true
    /\ String.prefix "oidc." name = false
    /\ String.prefix "saml." name = false
    /\ afterPrefixNoCase "bearer" name = None.
Proof.
  intros name Hin.
  assert (Hfacts :
            lowerString name <> ""
            /\ forallb (fun c => negb (isSpace c))
                 (list_ascii_of_string (lowerString name)) = true
            /\ String.prefix "oidc." (lowerString name) = false
            /\ String.prefix "saml." (lowerString name) = false
            /\ afterPrefixNoCase "bearer" (lowerString name) = None).
  { simpl in Hin.
    destruct Hin as [H | [H | [H | [H | []]]]]; rewrite <- H;
      repeat split; try reflexivity; discriminate. }
  destruct Hfacts as [Hne [Hsolid [Ho [Hs Hb]]]].
  split; [intros ->; apply Hne; reflexivity|].
  split; [rewrite <- spaces_lower; exact Hsolid|].
  split; [|split].
  - destruct (String.prefix "oidc." name) eqn:E; [|reflexivity].
    apply prefix_lower in E.
    change (lowerString "oidc.") with "oidc." in E.
    rewrite Ho in E. discriminate.
  - destruct (String.prefix "saml." name) eqn:E; [|reflexivity].
    apply prefix_lower in E.
    change (lowerString "saml.") with "saml." in E.
    rewrite Hs in E. discriminate.
  - apply afterPrefix_lower. exact Hb.
Qed.

Lemma role_name_token : forall decode name,
    In (lowerString name) roleNames ->
    decode name = None ->
    parseSimpleToken decode name
    = Some {| user_id := lowerString name ++ "-token";
              organizationId := None;
              roles := [];
              scopes := [lowerString name];
              provider := Some "token" |}.
Proof.
  intros decode name Hin Hdec. unfold parseSimpleToken. rewrite Hdec.
  assert (H : existsb (String.eqb (lowerString name)) roleNames = true).
  { apply existsb_exists. exists (lowerString name).
    split; [exact Hin | apply String.eqb_refl]. }
  rewrite H. reflexivity.
Qed.

(** X16. A role name as the token: when the Authorization header is
    [Bearer], white space, one of the four role names in any letter case,
    and optional trailing white space (or the bare role name with no
    [Bearer] at all), and the name does not decode as a JSON token, the
    request is admitted as the user [<role>-token] holding exactly the
    lower-case role as its scope, whatever the anonymous setting. That
    user passes the operator gate unless the role is talent, and the
    engineer gate exactly for admin and engineer. *)
Theorem role_token_admitted :
  forall (options : AuthOptions) (name lead trail : string),
    In (lowerString name) roleNames ->
    decodeToken options name = None ->
    lead <> "" ->
    forallb isSpace (list_ascii_of_string lead) = true ->
    forallb isSpace (list_ascii_of_string trail) = true ->
    let user := {| user_id := lowerString name ++ "-token";
                   organizationId := None;
                   roles := [];
                   scopes := [lowerString name];
                   provider := Some "token" |} in
    onRequest options (Some ("Bearer" ++ lead ++ name ++ trail))
    = Authenticated user
    /\ onRequest options (Some name) = Authenticated user
    /\ (requireOperator (Some user) = None <-> lowerString name <> "talent")
    /\ (requireEngineer (Some user) = None
        <-> lowerString name = "admin" \/ lowerString name = "engineer").
Proof.
  intros options name lead trail Hin Hdec Hlead Hls Hts user.
  destruct (role_name_shape name Hin) as [Hne [Hsolid [Ho [Hs Hb]]]].
  assert (Hparse := role_name_token (decodeToken options) name Hin Hdec).
  assert (Htoken1 : trim (stripBearer ("Bearer" ++ lead ++ name ++ trail))
                    = name).
  { destruct lead as [|c lead]; [congruence|].
    simpl in Hls. apply andb_prop in Hls. destruct Hls as [Hc Hls].
    unfold trim, stripBearer.
    change (afterPrefixNoCase "bearer"
              ("Bearer" ++ String c lead ++ name ++ trail))
      with (Some (String c (lead ++ name ++ trail))).
    cbv beta iota. rewrite Hc.
    rewrite (dropSpaces_pad lead _ Hls).
    rewrite !(dropSpaces_solid name Hsolid trail Hne).
    rewrite (trimEnd_pad name trail Hts).
    apply trimEnd_solid. exact Hsolid. }
  assert (Htoken2 : trim (stripBearer name) = name).
  { unfold trim, stripBearer. rewrite Hb.
    rewrite <- (append_empty name) at 1.
    rewrite (dropSpaces_solid name Hsolid "" Hne), append_empty.
    apply trimEnd_solid. exact Hsolid. }
  split; [|split; [|split]].
  - unfold onRequest.
    replace (truthy (Some ("Bearer" ++ lead ++ name ++ trail))) with true
      by reflexivity.
    cbn [negb orEmpty]. rewrite Htoken1, Ho, Hs, Hparse. reflexivity.
  - unfold onRequest.
    replace (truthy (Some name)) with true
      by (destruct name; [congruence | reflexivity]).
    cbn [negb orEmpty]. rewrite Htoken2, Ho, Hs, Hparse. reflexivity.
  - unfold requireOperator. rewrite requireScopes_passes.
    subst user. simpl in Hin.
    destruct Hin as [H | [H | [H | [H | []]]]]; rewrite <- H;
      split; intros G; try reflexivity; try discriminate; congruence.
  - unfold requireEngineer. rewrite requireScopes_passes.
    subst user. simpl in Hin.
    destruct Hin as [H | [H | [H | [H | []]]]]; rewrite <- H;
      split; intros G; try reflexivity; try discriminate; auto;
        destruct G; discriminate.
Qed.

Lemma role_token_admitted_witness :
  onRequest closedOptions (Some "Bearer  EnGiNeer ")
  = Authenticated {| user_id := "engineer-token";
                     organizationId := None;
                     roles := [];
                     scopes := ["engineer"];
                     provider := Some "token" |}.
Proof.
  destruct (role_token_admitted closedOptions "EnGiNeer" "  " " ")
    as [H _].
  - simpl. tauto.
  - reflexivity.
  - discriminate.
  - reflexivity.
  - reflexivity.
  - exact H.
Defined.

End AuthFacts.

(** ** Sequence numbers and slugs of the CouchDB manager *)

Module CouchFacts.

Import Api Numbers Couch Samples MoreSamples.

Example parseIntAuto_samples :
  parseIntAuto "42" = Some 42 /\ parseIntAuto " -7up" = Some (-7)
  /\ parseIntAuto "0x1F" = Some 31 /\ parseIntAuto "0x" = None
  /\ parseIntAuto "NaN" = None /\ parseIntAuto "" = None
  /\ parseInt "0x1F" = Some 0.
Proof. repeat split; reflexivity. Qed.

Lemma decimal_digits : forall fuel n acc,
    0 <= n ->
    (forall c, In c (list_ascii_of_string acc) -> digitOf c <> None) ->
    forall c, In c (list_ascii_of_string (decimal fuel n acc)) ->
              digitOf c <> None.
Proof.
  assert (Hstep : forall n acc,
             0 <= n ->
             (forall c, In c (list_ascii_of_string acc) -> digitOf c <> None) ->
             forall c,
               In c (list_ascii_of_string
                       (String (digitChar (n mod 10)) acc)) ->
               digitOf c <> None).
  { intros n acc Hn Hacc c [<- | Hin]; [|apply Hacc; exact Hin].
    destruct (NumberFacts.digitChar_facts (n mod 10)) as [-> _];
      [apply Z.mod_pos_bound; lia | discriminate]. }
  induction fuel as [f IH | f IH | ]; intros n acc Hn Hacc; cbn [decimal];
    destruct (n <? 10); try (apply Hstep; assumption);
    (apply IH; [apply Z.div_pos; lia | apply Hstep; assumption]).
Qed.

Lemma unsigned_digits : forall t,
    (forall c, In c (list_ascii_of_string t) -> digitOf c <> None) ->
    unsigned t = digitsPrefix t None.
Proof.
  intros [|z [|x rest]] H; try reflexivity.
  unfold unsigned.
  destruct (Ascii.eqb x "x") eqn:Ex.
  { apply Ascii.eqb_eq in Ex. subst x.
    exfalso. apply (H "x"%char); [simpl; tauto | reflexivity]. }
  destruct (Ascii.eqb x "X") eqn:EX.
  { apply Ascii.eqb_eq in EX. subst x.
    exfalso. apply (H "X"%char); [simpl; tauto | reflexivity]. }
  rewrite andb_false_r. reflexivity.
Qed.

Lemma parseIntAuto_head : forall c rest,
    isWhiteSpace c = false -> c <> "-"%char -> c <> "+"%char ->
    parseIntAuto (String c rest)
    = option_map nearestDouble (unsigned (String c rest)).
Proof.
  intros c rest Hw Hm Hp. unfold parseIntAuto. cbn [trimStart]. rewrite Hw.
  destruct c as [b0 b1 b2 b3 b4 b5 b6 b7].
  destruct b0, b1, b2, b3, b4, b5, b6, b7; try reflexivity;
    exfalso; [apply Hp | apply Hm]; reflexivity.
Qed.

(** Both readings of a counter agree on what [toString] wrote. *)
Lemma counter_text : forall n,
    0 <= n <= 2 ^ 53 ->
    parseIntAuto (numberToString n) = Some n
    /\ parseInt (numberToString n) = Some n.
Proof.
  intros n Hrange. rewrite (NumberFacts.numberToString_small n Hrange).
  assert (Hn : 0 <= n) by lia.
  destruct (NumberFacts.parseInt_natural n "" Hrange eq_refl) as [Hp Hd].
  rewrite AuthFacts.append_empty in Hp. split; [|exact Hp].
  destruct (NumberFacts.decimal_head (Z.to_pos n) n "" Hn)
    as [d [rest [Hd10 E]]].
  destruct (NumberFacts.digitChar_facts d Hd10) as [_ [Hw [Hm Hpl]]].
  rewrite E, (parseIntAuto_head _ _ Hw Hm Hpl), <- E.
  rewrite unsigned_digits.
  - rewrite (Hd _ (eq_sym (AuthFacts.append_empty _))). simpl. f_equal.
    apply NumberFacts.nearestDouble_small. lia.
  - apply decimal_digits; [exact Hn | intros c []].
Qed.

Lemma get_put_same : forall doc docs,
    find (fun d => String.eqb (counter_id d) (counter_id doc)) (put doc docs)
    = Some doc.
Proof.
  intros doc. induction docs as [|d rest IH]; simpl.
  - rewrite String.eqb_refl. reflexivity.
  - destruct (String.eqb (counter_id d) (counter_id doc)) eqn:E; simpl.
    + rewrite String.eqb_refl. reflexivity.
    + rewrite E. exact IH.
Qed.

Lemma get_put_other : forall other doc docs,
    other <> counter_id doc ->
    find (fun d => String.eqb (counter_id d) other) (put doc docs)
    = find (fun d => String.eqb (counter_id d) other) docs.
Proof.
  intros other doc docs Hne.
  assert (Hdoc : String.eqb (counter_id doc) other = false)
    by (apply String.eqb_neq; congruence).
  induction docs as [|d rest IH]; simpl.
  - rewrite Hdoc. reflexivity.
  - destruct (String.eqb (counter_id d) (counter_id doc)) eqn:E; simpl.
    + apply String.eqb_eq in E. rewrite E, Hdoc. reflexivity.
    + rewrite IH. reflexivity.
Qed.

Lemma get_id : forall id db doc, get id db = Some doc -> counter_id doc = id.
Proof.
  intros id db doc H. apply find_some in H. destruct H as [_ H].
  apply String.eqb_eq in H. exact H.
Qed.

(** One call on a counter that stands at [k]. *)
Lemma next_sequence_step : forall collectionName db k,
    DbManager.connected (base db) = true ->
    0 <= k -> k + 1 <= 2 ^ 53 ->
    (get ("counter_" ++ collectionName) db = None /\ k = 0)
    \/ option_map counter_value (get ("counter_" ++ collectionName) db)
       = Some (numberToString k) ->
    exists db',
      getNextSequence collectionName db = (ret (Some (k + 1)), db')
      /\ base db' = base db
      /\ option_map counter_value (get ("counter_" ++ collectionName) db')
         = Some (numberToString (k + 1))
      /\ forall other, other <> "counter_" ++ collectionName ->
                       get other db' = get other db.
Proof.
  intros collectionName db k Hc Hk Hmax Hstored.
  unfold getNextSequence. rewrite Hc.
  destruct (counter_text (k + 1) ltac:(lia)) as [_ Hread].
  destruct Hstored as [[Hnone ->] | Hsome].
  - rewrite Hnone. eexists. split; [reflexivity|].
    split; [reflexivity|]. split.
    + unfold get, insert. cbn [counters].
      rewrite (get_put_same
                 {| counter_id := "counter_" ++ collectionName;
                    counter_value := "1" |}).
      reflexivity.
    + intros other Hne. unfold get, insert. cbn [counters].
      apply get_put_other. exact Hne.
  - destruct (get ("counter_" ++ collectionName) db) as [doc|] eqn:Eg;
      [|discriminate].
    simpl in Hsome. injection Hsome as Hvalue.
    assert (Hid := get_id _ _ _ Eg).
    destruct (counter_text k ltac:(lia)) as [Hauto _].
    rewrite Hvalue, Hauto. cbn [option_map numberText counter_value].
    rewrite Hread, Hid. eexists. split; [reflexivity|].
    split; [reflexivity|]. split.
    + unfold get, insert. cbn [counters].
      rewrite (get_put_same
                 {| counter_id := "counter_" ++ collectionName;
                    counter_value := numberToString (k + 1) |}).
      reflexivity.
    + intros other Hne. unfold get, insert. cbn [counters].
      apply get_put_other. exact Hne.
Qed.

Lemma draw_counts : forall n collectionName db k,
    DbManager.connected (base db) = true ->
    0 <= k -> k + Z.of_nat n <= 2 ^ 53 ->
    (get ("counter_" ++ collectionName) db = None /\ k = 0)
    \/ option_map counter_value (get ("counter_" ++ collectionName) db)
       = Some (numberToString k) ->
    fst (drawSequences n collectionName db)
    = map (fun i => ret (Some (k + Z.of_nat i))) (seq 1 n)
    /\ ((get ("counter_" ++ collectionName)
           (snd (drawSequences n collectionName db)) = None
         /\ k + Z.of_nat n = 0)
        \/ option_map counter_value
             (get ("counter_" ++ collectionName)
                (snd (drawSequences n collectionName db)))
           = Some (numberToString (k + Z.of_nat n)))
    /\ forall other, other <> "counter_" ++ collectionName ->
                     get other (snd (drawSequences n collectionName db))
                     = get other db.
Proof.
  induction n as [|n IH]; intros collectionName db k Hc Hk Hmax Hstored.
  - cbn [drawSequences fst snd seq map]. split; [reflexivity|].
    split; [|reflexivity].
    replace (k + Z.of_nat 0) with k by lia. exact Hstored.
  - destruct (next_sequence_step collectionName db k Hc Hk
                ltac:(lia) Hstored)
      as [db' [Hcall [Hbase [Hvalue Hothers]]]].
    cbn [drawSequences]. rewrite Hcall.
    assert (Hc' : DbManager.connected (base db') = true) by congruence.
    assert (Hk' : 0 <= k + 1) by lia.
    destruct (IH collectionName db' (k + 1) Hc' Hk' ltac:(lia)
                (or_intror Hvalue))
      as [Hres [Hlast Hrest]].
    destruct (drawSequences n collectionName db') as [results db''].
    cbn [fst snd] in *. split; [|split].
    + rewrite Hres. cbn [seq map]. f_equal.
      rewrite <- (seq_shift n 1), map_map. apply map_ext. intros i.
      do 2 f_equal. lia.
    + replace (k + Z.of_nat (S n)) with (k + 1 + Z.of_nat n) by lia.
      exact Hlast.
    + intros other Hne. rewrite Hrest by exact Hne. apply Hothers. exact Hne.
Qed.

(** X17. Sequence numbers count up: on a reachable database whose counter
    for the collection is missing ([k] = 0) or holds the text of [k],
    [n] calls of [getNextSequence] in a row return [k+1], ..., [k+n] (as
    long as these are exact JavaScript integers), leave the text of [k+n]
    in the counter, and touch no other document. *)
Theorem sequence_numbers_count_up :
  forall (n : nat) (collectionName : string) (db : Couch.t) (k : Z),
    DbManager.connected (base db) = true ->
    0 <= k ->
    k + Z.of_nat n <= 2 ^ 53 ->
    (get ("counter_" ++ collectionName) db = None /\ k = 0)
    \/ option_map counter_value (get ("counter_" ++ collectionName) db)
       = Some (numberToString k) ->
    fst (drawSequences n collectionName db)
    = map (fun i => ret (Some (k + Z.of_nat i))) (seq 1 n)
    /\ (n <> O ->
        option_map counter_value
          (get ("counter_" ++ collectionName)
             (snd (drawSequences n collectionName db)))
        = Some (numberToString (k + Z.of_nat n)))
    /\ forall other, other <> "counter_" ++ collectionName ->
                     get other (snd (drawSequences n collectionName db))
                     = get other db.
Proof.
  intros n collectionName db k Hc Hk Hmax Hstored.
  destruct (draw_counts n collectionName db k Hc Hk Hmax Hstored)
    as [Hres [Hlast Hrest]].
  split; [exact Hres|]. split; [|exact Hrest].
  intros Hn. destruct Hlast as [[_ Hzero] | Hlast]; [lia | exact Hlast].
Qed.

Lemma sequence_numbers_count_up_witness :
  fst (drawSequences 2 "productions" numberedDb) = [ret (Some 4); ret (Some 5)]
  /\ fst (drawSequences 2 "ingests" numberedDb) = [ret (Some 1); ret (Some 2)].
Proof.
  split.
  - destruct (sequence_numbers_count_up 2 "productions" numberedDb 3)
      as [H _]; [reflexivity | lia | | right; reflexivity | exact H].
    apply Z.leb_le. reflexivity.
  - destruct (sequence_numbers_count_up 2 "ingests" numberedDb 0)
      as [H _]; [reflexivity | lia | | left; split; reflexivity | exact H].
    apply Z.leb_le. reflexivity.
Defined.

(** X18. A counter that is not a number stays broken: when the stored
    value does not start with digits, [getNextSequence] returns [NaN]
    instead of failing and writes the text NaN back, so the next call
    returns [NaN] again and leaves NaN in place. *)
Theorem sequence_not_a_number :
  forall (collectionName : string) (db : Couch.t) (doc : CounterDoc),
    DbManager.connected (base db) = true ->
    get ("counter_" ++ collectionName) db = Some doc ->
    parseIntAuto (counter_value doc) = None ->
    fst (getNextSequence collectionName db) = ret None
    /\ fst (getNextSequence collectionName
              (snd (getNextSequence collectionName db))) = ret None
    /\ option_map counter_value
         (get ("counter_" ++ collectionName)
            (snd (getNextSequence collectionName
                    (snd (getNextSequence collectionName db)))))
       = Some "NaN".
Proof.
  intros collectionName db doc Hc Hget Hnan.
  assert (Hid := get_id _ _ _ Hget).
  assert (Hfirst : getNextSequence collectionName db
                   = (ret None,
                      insert {| counter_id := "counter_" ++ collectionName;
                                counter_value := "NaN" |} db)).
  { unfold getNextSequence. rewrite Hc, Hget, Hnan, Hid. reflexivity. }
  rewrite Hfirst. cbn [fst snd].
  set (bad := {| counter_id := "counter_" ++ collectionName;
                 counter_value := "NaN" |}).
  assert (Hstored : forall db0, get ("counter_" ++ collectionName)
                                  (insert bad db0) = Some bad).
  { intros db0. unfold get, insert. cbn [counters].
    apply (get_put_same bad). }
  assert (Hsecond : getNextSequence collectionName (insert bad db)
                    = (ret None, insert bad (insert bad db))).
  { unfold getNextSequence. cbn [insert base]. rewrite Hc, Hstored.
    reflexivity. }
  rewrite Hsecond. cbn [fst snd]. rewrite Hstored.
  split; [reflexivity|]. split; reflexivity.
Qed.

Lemma sequence_not_a_number_witness :
  fst (getNextSequence "productions" spoiltDb) = ret None.
Proof.
  destruct (sequence_not_a_number "productions" spoiltDb
              {| counter_id := "counter_productions";
                 counter_value := "three" |}) as [H _];
    [reflexivity | reflexivity | reflexivity | exact H].
Defined.

Example slugify_samples :
  slugify lowerString "Global Production" = "global-production"
  /\ slugify lowerString "  --Studio  #1!! " = "studio-1"
  /\ slugify lowerString "a--b" = "a-b"
  /\ slugify lowerString "***" = "".
Proof. repeat split; reflexivity. Qed.

Lemma slugChar_not_dash : forall c, isSlugChar c = true -> isDash c = false.
Proof.
  intros c H. unfold isDash. destruct (Ascii.eqb c "-") eqn:E; [|reflexivity].
  apply Ascii.eqb_eq in E. subst c. discriminate.
Qed.

Lemma isDash_eq : forall c, isDash c = true -> c = "-"%char.
Proof. intros c H. apply Ascii.eqb_eq. exact H. Qed.

Lemma dashed_weaken : forall s, dashed true s = true -> dashed false s = true.
Proof.
  intros [|c rest] H; [reflexivity|].
  simpl in *. destruct (isSlugChar c); [exact H|].
  rewrite andb_false_r in H. discriminate.
Qed.

Lemma dashRuns_dashed : forall s inRun, dashed inRun (dashRuns inRun s) = true.
Proof.
  induction s as [|c rest IH]; intros inRun; [reflexivity|].
  cbn [dashRuns]. destruct (isSlugChar c) eqn:E.
  - cbn [dashed]. rewrite E. apply IH.
  - destruct inRun; [apply IH|].
    cbn [dashed]. rewrite (IH true). reflexivity.
Qed.

Lemma dropDashes_dashed : forall s,
    dashed false s = true -> dashed true (dropDashes s) = true.
Proof.
  induction s as [|c rest IH]; intros H; [reflexivity|].
  cbn [dropDashes]. destruct (isDash c) eqn:Ed.
  - apply IH. apply dashed_weaken.
    cbn [dashed] in H. destruct (isSlugChar c) eqn:Es.
    + rewrite (slugChar_not_dash c Es) in Ed. discriminate.
    + apply andb_prop in H. apply H.
  - cbn [dashed] in *. destruct (isSlugChar c); [exact H|].
    rewrite Ed in H. discriminate.
Qed.

Lemma dropEndDashes_dashed : forall s b,
    dashed b s = true -> dashed b (dropEndDashes s) = true.
Proof.
  induction s as [|c rest IH]; intros b H; [reflexivity|].
  cbn [dropEndDashes]. cbn [dashed] in H.
  destruct (isSlugChar c) eqn:Es.
  - specialize (IH false H).
    destruct (dropEndDashes rest) as [|d kept].
    + rewrite (slugChar_not_dash c Es). cbn [dashed]. rewrite Es. reflexivity.
    + cbn [dashed] in *. rewrite Es. exact IH.
  - apply andb_prop in H. destruct H as [H Hrest].
    specialize (IH true Hrest).
    destruct (dropEndDashes rest) as [|d kept].
    + apply andb_prop in H. destruct H as [Hd _]. rewrite Hd. reflexivity.
    + cbn [dashed] in *. rewrite Es, H. exact IH.
Qed.

Lemma dropEndDashes_idem : forall s,
    dropEndDashes (dropEndDashes s) = dropEndDashes s.
Proof.
  induction s as [|c rest IH]; [reflexivity|].
  cbn [dropEndDashes].
  destruct (dropEndDashes rest) as [|d kept] eqn:E.
  - destruct (isDash c) eqn:Ed; [reflexivity|].
    cbn [dropEndDashes]. rewrite Ed. reflexivity.
  - change (dropEndDashes (String c (String d kept)))
      with (match dropEndDashes (String d kept) with
            | EmptyString =>
                if isDash c then EmptyString else String c EmptyString
            | String x y => String c (String x y)
            end).
    rewrite IH. reflexivity.
Qed.

Lemma dropEndDashes_dash : forall a,
    dropEndDashes (a ++ "-") = dropEndDashes a.
Proof.
  induction a as [|c rest IH]; [reflexivity|].
  change (String c rest ++ "-") with (String c (rest ++ "-")).
  cbn [dropEndDashes]. rewrite IH. reflexivity.
Qed.

Lemma dropEndDashes_length : forall s,
    (String.length (dropEndDashes s) <= String.length s)%nat.
Proof.
  induction s as [|c rest IH]; [apply le_n|].
  cbn [dropEndDashes].
  destruct (dropEndDashes rest) as [|d kept].
  - destruct (isDash c); simpl; lia.
  - simpl in *. lia.
Qed.

Lemma append_length : forall a b,
    String.length (a ++ b) = (String.length a + String.length b)%nat.
Proof.
  induction a as [|c rest IH]; intros b; [reflexivity|].
  simpl. rewrite IH. reflexivity.
Qed.

Lemma dropEndDashes_no_end : forall s a, dropEndDashes s <> a ++ "-".
Proof.
  intros s a E.
  assert (H := dropEndDashes_idem s). rewrite E, dropEndDashes_dash in H.
  assert (L := dropEndDashes_length a).
  rewrite H, append_length in L. simpl in L. lia.
Qed.

Lemma dashed_no_double : forall a b afterDash,
    dashed afterDash (a ++ "--" ++ b) = false.
Proof.
  induction a as [|c rest IH]; intros b afterDash.
  - simpl. apply andb_false_r.
  - change (String c rest ++ "--" ++ b)
      with (String c (rest ++ "--" ++ b)).
    cbn [dashed]. rewrite !IH. rewrite andb_false_r.
    destruct (isSlugChar c); reflexivity.
Qed.

Lemma dashed_chars : forall s afterDash c,
    dashed afterDash s = true ->
    In c (list_ascii_of_string s) ->
    isSlugChar c = true \/ c = "-"%char.
Proof.
  induction s as [|x rest IH]; intros afterDash c H Hin; [destruct Hin|].
  cbn [dashed] in H. destruct (isSlugChar x) eqn:Es.
  - destruct Hin as [<- | Hin]; [left; exact Es | exact (IH _ _ H Hin)].
  - apply andb_prop in H. destruct H as [H Hrest].
    apply andb_prop in H. destruct H as [Hd _].
    destruct Hin as [<- | Hin];
      [right; apply isDash_eq; exact Hd | exact (IH _ _ Hrest Hin)].
Qed.

Lemma dashed_no_start : forall s,
    dashed true s = true -> String.prefix "-" s = false /\ dropDashes s = s.
Proof.
  intros [|c rest] H; [split; reflexivity|].
  cbn [dashed] in H. destruct (isSlugChar c) eqn:Es.
  - assert (Hd := slugChar_not_dash c Es). split.
    + destruct (String.prefix "-" (String c rest)) eqn:E; [|reflexivity].
      apply String.prefix_correct in E. simpl in E.
      injection E as E _. subst c. discriminate.
    + cbn [dropDashes]. rewrite Hd. reflexivity.
  - rewrite andb_false_r in H. discriminate.
Qed.

Lemma dashRuns_fixed : forall s inRun,
    dashed inRun s = true -> dashRuns inRun s = s.
Proof.
  induction s as [|c rest IH]; intros inRun H; [reflexivity|].
  cbn [dashed] in H. cbn [dashRuns]. destruct (isSlugChar c) eqn:Es.
  - rewrite (IH false H). reflexivity.
  - apply andb_prop in H. destruct H as [H Hrest].
    apply andb_prop in H. destruct H as [Hd Hrun].
    destruct inRun; [discriminate|].
    rewrite (IH true Hrest), (isDash_eq c Hd). reflexivity.
Qed.

Lemma squeeze_fixed : forall s inRun,
    dashed inRun s = true -> squeeze inRun s = s.
Proof.
  induction s as [|c rest IH]; intros inRun H; [reflexivity|].
  cbn [dashed] in H. cbn [squeeze]. destruct (isSlugChar c) eqn:Es.
  - rewrite (slugChar_not_dash c Es), (IH false H). reflexivity.
  - apply andb_prop in H. destruct H as [H Hrest].
    apply andb_prop in H. destruct H as [Hd Hrun].
    destruct inRun; [discriminate|].
    rewrite Hd, (IH true Hrest), (isDash_eq c Hd). reflexivity.
Qed.

(** What [slugify] returns, before the last pass is seen to change nothing. *)
Lemma slugify_trimmed : forall toLowerCase value,
    slugify toLowerCase value
    = trimDashes (dashRuns false (toLowerCase value))
    /\ dashed true (slugify toLowerCase value) = true.
Proof.
  intros toLowerCase value. unfold slugify.
  assert (H : dashed true (trimDashes (dashRuns false (toLowerCase value)))
              = true).
  { unfold trimDashes. apply dropEndDashes_dashed, dropDashes_dashed.
    apply dashRuns_dashed. }
  rewrite (squeeze_fixed _ false (dashed_weaken _ H)).
  split; [reflexivity | exact H].
Qed.

(** X19. The shape of a slug: whatever the input and whatever
    [toLowerCase] does to it, [slugify] returns a string of the characters
    a-z, 0-9 and the dash that neither starts nor ends with a dash and has
    no two dashes in a row; and making a slug of a slug changes nothing,
    as long as [toLowerCase] leaves the slug alone. *)
Theorem slugify_shape :
  forall (toLowerCase : string -> string) (value : string),
    let slug := slugify toLowerCase value in
    (forall c, In c (list_ascii_of_string slug) ->
               isSlugChar c = true \/ c = "-"%char)
    /\ String.prefix "-" slug = false
    /\ (forall a, slug <> a ++ "-")
    /\ (forall a b, slug <> a ++ "--" ++ b)
    /\ (toLowerCase slug = slug -> slugify toLowerCase slug = slug).
Proof.
  intros toLowerCase value slug.
  destruct (slugify_trimmed toLowerCase value) as [Hslug Hdashed].
  fold slug in Hslug, Hdashed.
  destruct (dashed_no_start slug Hdashed) as [Hstart Hdrop].
  split; [intros c; apply (dashed_chars slug true c Hdashed)|].
  split; [exact Hstart|]. split; [|split].
  - intros a. rewrite Hslug. unfold trimDashes. apply dropEndDashes_no_end.
  - intros a b E.
    assert (H := dashed_no_double a b true). rewrite <- E in H. congruence.
  - intros Hlower. unfold slugify at 1. rewrite Hlower.
    rewrite (dashRuns_fixed slug false (dashed_weaken _ Hdashed)).
    unfold trimDashes. rewrite Hdrop.
    assert (Hend : dropEndDashes slug = slug).
    { rewrite Hslug at 1. unfold trimDashes.
      rewrite dropEndDashes_idem. symmetry. exact Hslug. }
    rewrite Hend. apply squeeze_fixed, dashed_weaken. exact Hdashed.
Qed.

Lemma slugify_shape_witness :
  slugify lowerString (slugify lowerString "Global  Production!")
  = slugify lowerString "Global  Production!".
Proof.
  destruct (slugify_shape lowerString "Global  Production!")
    as [_ [_ [_ [_ H]]]].
  apply H. reflexivity.
Defined.

End CouchFacts.

(** ** The media pipeline registry *)

Module RegistryFacts.

Import MoreSamples.

Module MPR := MediaPipelineRegistry.

#[local] Abbreviation idOf := MPR.pipeline_id.
#[local] Abbreviation hasId i :=
  (fun p : MPR.ProductionMediaPipeline => String.eqb (idOf p) i).
#[local] Abbreviation lacksId i :=
  (fun p : MPR.ProductionMediaPipeline => negb (String.eqb (idOf p) i)).

Lemma upsert_payload : forall uuid draft registry,
    fst (MPR.upsert uuid draft registry)
    = MPR.withId draft (match MPR.draft_id draft with
                        | Some i => i
                        | None => uuid
                        end).
Proof.
  intros uuid draft registry. unfold MPR.upsert.
  destruct (MPR.findIndex _ registry); reflexivity.
Qed.

Lemma upsert_nil : forall uuid draft,
    snd (MPR.upsert uuid draft []) = [fst (MPR.upsert uuid draft [])].
Proof. reflexivity. Qed.

Lemma upsert_cons : forall uuid draft x rest,
    snd (MPR.upsert uuid draft (x :: rest))
    = if String.eqb (idOf x) (idOf (fst (MPR.upsert uuid draft rest)))
      then fst (MPR.upsert uuid draft rest) :: rest
      else x :: snd (MPR.upsert uuid draft rest).
Proof.
  intros uuid draft x rest. rewrite upsert_payload.
  unfold MPR.upsert. cbn [MPR.findIndex MPR.withId MPR.pipeline_id].
  destruct (String.eqb (idOf x) _); [reflexivity|].
  destruct (MPR.findIndex _ rest); reflexivity.
Qed.

Lemma filter_length_all : forall {A} (f : A -> bool) l,
    List.length (filter f l) = List.length l -> filter f l = l.
Proof.
  intros A f. induction l as [|x l IH]; intros H; [reflexivity|].
  simpl in *. destruct (f x); simpl in H.
  - f_equal. apply IH. lia.
  - assert (L := filter_length_le f l). lia.
Qed.

Lemma lacks_all : forall i registry,
    ~ In i (map idOf registry) -> filter (lacksId i) registry = registry.
Proof.
  intros i. induction registry as [|x rest IH]; intros H; [reflexivity|].
  simpl in *. destruct (String.eqb (idOf x) i) eqn:E.
  - apply String.eqb_eq in E. tauto.
  - simpl. f_equal. apply IH. tauto.
Qed.

Lemma upsert_find : forall uuid draft registry,
    find (hasId (idOf (fst (MPR.upsert uuid draft registry))))
      (snd (MPR.upsert uuid draft registry))
    = Some (fst (MPR.upsert uuid draft registry)).
Proof.
  intros uuid draft registry. rewrite upsert_payload.
  induction registry as [|x rest IH].
  - rewrite upsert_nil, upsert_payload. simpl. rewrite String.eqb_refl.
    reflexivity.
  - rewrite upsert_cons, upsert_payload. cbn [MPR.withId MPR.pipeline_id] in *.
    destruct (String.eqb (idOf x) _) eqn:E; simpl.
    + rewrite String.eqb_refl. reflexivity.
    + rewrite E. exact IH.
Qed.

Lemma upsert_ids : forall uuid draft registry,
    map idOf (snd (MPR.upsert uuid draft registry))
    = (if existsb (hasId (idOf (fst (MPR.upsert uuid draft registry))))
            registry
       then map idOf registry
       else map idOf registry
              ++ [idOf (fst (MPR.upsert uuid draft registry))])%list.
Proof.
  intros uuid draft registry. rewrite upsert_payload.
  induction registry as [|x rest IH].
  - rewrite upsert_nil, upsert_payload. reflexivity.
  - rewrite upsert_cons, upsert_payload. cbn [MPR.withId MPR.pipeline_id] in *.
    cbn [existsb]. destruct (String.eqb (idOf x) _) eqn:E; simpl.
    + apply String.eqb_eq in E. rewrite E. reflexivity.
    + rewrite IH. destruct (existsb _ rest); reflexivity.
Qed.

Lemma upsert_others : forall uuid draft registry,
    filter (lacksId (idOf (fst (MPR.upsert uuid draft registry))))
      (snd (MPR.upsert uuid draft registry))
    = filter (lacksId (idOf (fst (MPR.upsert uuid draft registry)))) registry.
Proof.
  intros uuid draft registry. rewrite upsert_payload.
  induction registry as [|x rest IH].
  - rewrite upsert_nil, upsert_payload. simpl. rewrite String.eqb_refl.
    reflexivity.
  - rewrite upsert_cons, upsert_payload. cbn [MPR.withId MPR.pipeline_id] in *.
    destruct (String.eqb (idOf x) _) eqn:E; simpl.
    + rewrite String.eqb_refl, E. reflexivity.
    + rewrite E. simpl. rewrite IH. reflexivity.
Qed.

(** X20. [upsert] registers the pipeline under its id: the id is the one
    given, or the drawn UUID when none is given; afterwards a lookup of
    that id finds the returned pipeline; the ids keep their order, the new
    one added at the end unless it was there already (so the registry
    grows by at most one); every pipeline with another id is as before;
    and ids that were unique stay unique. *)
Theorem upsert_registers :
  forall (uuid : string) (draft : MPR.Draft) (registry : MPR.t),
    let id := match MPR.draft_id draft with
              | Some i => i
              | None => uuid
              end in
    let payload := fst (MPR.upsert uuid draft registry) in
    let registry' := snd (MPR.upsert uuid draft registry) in
    payload = MPR.withId draft id
    /\ find (hasId id) (MPR.list registry') = Some payload
    /\ map idOf registry'
       = (if existsb (hasId id) registry
          then map idOf registry
          else map idOf registry ++ [id])%list
    /\ filter (lacksId id) registry' = filter (lacksId id) registry
    /\ (NoDup (map idOf registry) -> NoDup (map idOf registry')).
Proof.
  intros uuid draft registry id payload registry'.
  assert (Hpayload : payload = MPR.withId draft id)
    by apply upsert_payload.
  assert (Hid : idOf payload = id) by (rewrite Hpayload; reflexivity).
  assert (Hfind := upsert_find uuid draft registry).
  assert (Hids := upsert_ids uuid draft registry).
  assert (Hothers := upsert_others uuid draft registry).
  fold payload registry' in Hfind, Hids, Hothers.
  rewrite Hid in Hfind, Hids, Hothers.
  split; [exact Hpayload|]. split; [exact Hfind|]. split; [exact Hids|].
  split; [exact Hothers|].
  intros Hnd. rewrite Hids.
  destruct (existsb (hasId id) registry) eqn:E; [exact Hnd|].
  apply NoDup_app; [exact Hnd | constructor; [intros [] | constructor] |].
  intros i Hin [<- | []].
  apply in_map_iff in Hin. destruct Hin as [p [Hp Hin]].
  assert (Hex : existsb (hasId id) registry = true).
  { apply existsb_exists. exists p. split; [exact Hin|].
    apply String.eqb_eq. exact Hp. }
  congruence.
Qed.

Lemma upsert_registers_witness :
  NoDup (map idOf (snd (MPR.upsert "8b1c" captions [recorder])))
  /\ NoDup (map idOf (snd (MPR.upsert "8b1c" pausedRecorder [recorder]))).
Proof.
  destruct (upsert_registers "8b1c" captions [recorder])
    as [_ [_ [_ [_ H1]]]].
  destruct (upsert_registers "8b1c" pausedRecorder [recorder])
    as [_ [_ [_ [_ H2]]]].
  assert (Hnd : NoDup (map idOf [recorder]))
    by (constructor; [intros [] | constructor]).
  split; [apply H1 | apply H2]; exact Hnd.
Defined.

Lemma others_kept : forall id other registry,
    other <> id ->
    filter (hasId other) (filter (lacksId id) registry)
    = filter (hasId other) registry.
Proof.
  intros id other registry Hne.
  induction registry as [|x rest IH]; [reflexivity|].
  simpl. destruct (String.eqb (idOf x) id) eqn:E; simpl.
  - apply String.eqb_eq in E.
    replace (String.eqb (idOf x) other) with false
      by (symmetry; apply String.eqb_neq; congruence).
    exact IH.
  - destruct (String.eqb (idOf x) other); [f_equal|]; exact IH.
Qed.

(** X21. [remove] reports what it did: it answers [true] exactly when a
    pipeline with the id was registered; afterwards none has that id,
    while the others stay, in their order; an unknown id leaves the
    registry as it was; and removing a pipeline just added under a new id
    gives back the registry from before. *)
Theorem remove_outcomes :
  forall (id : string) (registry : MPR.t),
    let removed := fst (MPR.remove id registry) in
    let registry' := snd (MPR.remove id registry) in
    (removed = true <-> In id (map idOf registry))
    /\ ~ In id (map idOf registry')
    /\ (forall other, other <> id ->
                      filter (hasId other) registry'
                      = filter (hasId other) registry)
    /\ (removed = false -> registry' = registry)
    /\ (removed = false ->
        forall uuid draft,
          idOf (fst (MPR.upsert uuid draft registry)) = id ->
          MPR.remove id (snd (MPR.upsert uuid draft registry))
          = (true, registry)).
Proof.
  intros id registry removed registry'.
  assert (Hall : ~ In id (map idOf registry) -> registry' = registry)
    by (apply lacks_all).
  assert (Hiff : removed = true <-> In id (map idOf registry)).
  { subst removed. unfold MPR.remove. cbn [fst]. split.
    - intros H.
      destruct (in_dec string_dec id (map idOf registry)) as [|Hno];
        [assumption|].
      rewrite (lacks_all id registry Hno), Nat.eqb_refl in H. discriminate.
    - intros Hin. apply negb_true_iff, Nat.eqb_neq. intros Hlen.
      apply filter_length_all in Hlen.
      apply in_map_iff in Hin. destruct Hin as [p [Hp Hin]].
      rewrite <- Hlen in Hin. apply filter_In in Hin.
      destruct Hin as [_ Hin]. rewrite Hp, String.eqb_refl in Hin.
      discriminate. }
  assert (Hno : removed = false -> ~ In id (map idOf registry)).
  { intros H Hin. apply Hiff in Hin. congruence. }
  split; [exact Hiff|]. split; [|split; [|split]].
  - subst registry'. unfold MPR.remove. cbn [snd]. intros Hin.
    apply in_map_iff in Hin. destruct Hin as [p [Hp Hin]].
    apply filter_In in Hin. destruct Hin as [_ Hin].
    rewrite Hp, String.eqb_refl in Hin. discriminate.
  - intros other Hne. subst registry'. unfold MPR.remove. cbn [snd].
    apply others_kept. exact Hne.
  - intros H. apply Hall, Hno, H.
  - intros H uuid draft Hid.
    specialize (Hno H).
    assert (Hids := upsert_ids uuid draft registry).
    assert (Hothers := upsert_others uuid draft registry).
    rewrite Hid in Hids, Hothers.
    assert (Hex : existsb (hasId id) registry = false).
    { destruct (existsb (hasId id) registry) eqn:E; [|reflexivity].
      apply existsb_exists in E. destruct E as [p [Hin Hp]].
      apply String.eqb_eq in Hp. exfalso. apply Hno.
      apply in_map_iff. exists p. split; assumption. }
    rewrite Hex in Hids.
    unfold MPR.remove. rewrite Hothers, (lacks_all id registry Hno).
    assert (Hlen : List.length (snd (MPR.upsert uuid draft registry))
                   = S (List.length registry)).
    { rewrite <- (length_map idOf), Hids, length_app, length_map.
      simpl. lia. }
    rewrite Hlen.
    replace (Nat.eqb (List.length registry) (S (List.length registry)))
      with false by (symmetry; apply Nat.eqb_neq; lia).
    reflexivity.
Qed.

Lemma remove_outcomes_witness :
  MPR.remove "8b1c" (snd (MPR.upsert "8b1c" captions [recorder]))
  = (true, [recorder]).
Proof.
  destruct (remove_outcomes "8b1c" [recorder]) as [_ [_ [_ [_ H]]]].
  apply H; reflexivity.
Defined.

End RegistryFacts.

(** ** The QoS telemetry collector *)

Module QoSFacts.

Import QoS MoreSamples.

Section Collector.

Context {A : Arithmetic}.

#[local] Abbreviation ofSession i :=
  (fun e : QoSSample => String.eqb (sessionId e) i).

Lemma set_ids : forall value entries,
    map sessionId (set value entries)
    = (if existsb (ofSession (sessionId value)) entries
       then map sessionId entries
       else map sessionId entries ++ [sessionId value])%list.
Proof.
  intros value. induction entries as [|e rest IH]; [reflexivity|].
  cbn [set existsb].
  destruct (String.eqb (sessionId e) (sessionId value)) eqn:E; simpl.
  - apply String.eqb_eq in E. rewrite E. reflexivity.
  - rewrite IH. destruct (existsb _ rest); reflexivity.
Qed.

Lemma absent_ids : forall i entries,
    existsb (ofSession i) entries = false -> ~ In i (map sessionId entries).
Proof.
  intros i entries H Hin. apply in_map_iff in Hin.
  destruct Hin as [e [He Hin]].
  assert (Hex : existsb (ofSession i) entries = true).
  { apply existsb_exists. exists e. split; [exact Hin|].
    apply String.eqb_eq. exact He. }
  congruence.
Qed.

Lemma absent_filter : forall i entries,
    ~ In i (map sessionId entries) -> filter (ofSession i) entries = [].
Proof.
  intros i. induction entries as [|e rest IH]; intros H; [reflexivity|].
  simpl in *. destruct (String.eqb (sessionId e) i) eqn:E.
  - apply String.eqb_eq in E. tauto.
  - apply IH. tauto.
Qed.

Lemma set_unique : forall value entries,
    NoDup (map sessionId entries) -> NoDup (map sessionId (set value entries)).
Proof.
  intros value entries H. rewrite set_ids.
  destruct (existsb _ entries) eqn:E; [exact H|].
  apply NoDup_app; [exact H | constructor; [intros [] | constructor] |].
  intros i Hin [<- | []]. exact (absent_ids _ _ E Hin).
Qed.

Lemma drop_ids : forall i entries,
    map sessionId (dropSample i entries)
    = filter (fun j => negb (String.eqb j i)) (map sessionId entries).
Proof.
  intros i. induction entries as [|e rest IH]; [reflexivity|].
  unfold dropSample in *. simpl.
  destruct (String.eqb (sessionId e) i); simpl; rewrite IH; reflexivity.
Qed.

Lemma reachable_unique : forall samples,
    Reachable samples -> NoDup (map sessionId samples).
Proof.
  intros samples H. induction H as [|samples now sample _ IH|samples i _ IH].
  - constructor.
  - apply set_unique. exact IH.
  - rewrite drop_ids. apply NoDup_filter. exact IH.
Qed.

Lemma set_only : forall value entries,
    NoDup (map sessionId entries) ->
    filter (ofSession (sessionId value)) (set value entries) = [value].
Proof.
  intros value. induction entries as [|e rest IH]; intros H.
  - simpl. rewrite String.eqb_refl. reflexivity.
  - simpl in H. apply NoDup_cons_iff in H. destruct H as [Hnew Hrest].
    cbn [set].
    destruct (String.eqb (sessionId e) (sessionId value)) eqn:E; simpl.
    + rewrite String.eqb_refl. f_equal. apply absent_filter.
      apply String.eqb_eq in E. rewrite <- E. exact Hnew.
    + rewrite E. apply IH. exact Hrest.
Qed.

Lemma set_others : forall value other entries,
    other <> sessionId value ->
    filter (ofSession other) (set value entries)
    = filter (ofSession other) entries.
Proof.
  intros value other entries Hne.
  assert (Hv : String.eqb (sessionId value) other = false)
    by (apply String.eqb_neq; congruence).
  induction entries as [|e rest IH]; simpl.
  - rewrite Hv. reflexivity.
  - destruct (String.eqb (sessionId e) (sessionId value)) eqn:E; simpl.
    + apply String.eqb_eq in E. rewrite E, Hv. reflexivity.
    + rewrite IH. reflexivity.
Qed.

Lemma drop_others : forall i other entries,
    other <> i ->
    filter (ofSession other) (dropSample i entries)
    = filter (ofSession other) entries.
Proof.
  intros i other entries Hne. unfold dropSample.
  induction entries as [|e rest IH]; [reflexivity|].
  simpl. destruct (String.eqb (sessionId e) i) eqn:E; simpl.
  - apply String.eqb_eq in E.
    replace (String.eqb (sessionId e) other) with false
      by (symmetry; apply String.eqb_neq; congruence).
    exact IH.
  - destruct (String.eqb (sessionId e) other); [f_equal|]; exact IH.
Qed.

Lemma aggregates_count : forall samples,
    sampleCount (getAggregates samples) = List.length (getSnapshot samples).
Proof. intros [|e rest]; reflexivity. Qed.

(** X22. One sample per session: in a collector built by [recordSample]
    and [dropSample] no two samples belong to the same session, and
    [sampleCount] is the number of sessions with a sample. After
    [recordSample] the session's only sample is the reported one, stamped
    with its own [observedAt] or else with the time of the call, and the
    count has grown by one exactly when the session had no sample; after
    [dropSample] the session has none. Neither touches the samples of
    other sessions. *)
Theorem one_sample_per_session :
  forall (samples : QoS.t) (now : Z) (report : Report) (id : string),
    Reachable samples ->
    NoDup (map sessionId (getSnapshot samples))
    /\ sampleCount (getAggregates samples) = List.length (getSnapshot samples)
    /\ filter (ofSession (r_sessionId report))
         (getSnapshot (recordSample now report samples))
       = [normalize now report]
    /\ observedAt (normalize now report)
       = match r_observedAt report with Some at_ => at_ | None => now end
    /\ sampleCount (getAggregates (recordSample now report samples))
       = (if existsb (ofSession (r_sessionId report)) samples
          then sampleCount (getAggregates samples)
          else S (sampleCount (getAggregates samples)))
    /\ ~ In id (map sessionId (getSnapshot (dropSample id samples)))
    /\ forall other,
        (other <> r_sessionId report ->
         filter (ofSession other) (getSnapshot (recordSample now report samples))
         = filter (ofSession other) (getSnapshot samples))
        /\ (other <> id ->
            filter (ofSession other) (getSnapshot (dropSample id samples))
            = filter (ofSession other) (getSnapshot samples)).
Proof.
  intros samples now report id Hreach.
  assert (Hnd := reachable_unique samples Hreach).
  unfold getSnapshot.
  split; [exact Hnd|]. split; [apply aggregates_count|].
  split; [apply (set_only (normalize now report)); exact Hnd|].
  split; [reflexivity|]. split; [|split].
  - rewrite !aggregates_count. unfold getSnapshot, recordSample.
    rewrite <- !(length_map sessionId), set_ids.
    change (sessionId (normalize now report)) with (r_sessionId report).
    destruct (existsb _ samples); [reflexivity|].
    rewrite length_app. simpl. lia.
  - rewrite drop_ids. intros Hin. apply filter_In in Hin.
    destruct Hin as [_ Hin]. rewrite String.eqb_refl in Hin. discriminate.
  - intros other. split; intros Hne.
    + apply (set_others (normalize now report)). exact Hne.
    + apply drop_others. exact Hne.
Qed.

(** X23. The QoS routes: with a collector, two reports posted for one
    session are both answered 202, and the GET that follows answers 200
    with the later report as that session's only sample and the same
    sample count as after the first report. Without a collector POST and
    GET answer 503 and nothing is kept. *)
Theorem qos_routes :
  forall (samples : QoS.t) (now1 now2 : Z) (first second : Report),
    Reachable samples ->
    r_sessionId first = r_sessionId second ->
    let once := postQos (Some samples) now1 first in
    let twice := postQos (snd once) now2 second in
    code (fst once) = 202 /\ code (fst twice) = 202
    /\ (exists snapshot aggregates,
           getQos (snd twice)
           = {| code := 200; body := QosReport snapshot aggregates |}
           /\ filter (ofSession (r_sessionId second)) snapshot
              = [normalize now2 second]
           /\ sampleCount aggregates = List.length snapshot
           /\ (exists before,
                  body (getQos (snd once))
                  = QosReport (getSnapshot (recordSample now1 first samples))
                      before
                  /\ sampleCount aggregates = sampleCount before))
    /\ code (fst (postQos None now1 first)) = 503
    /\ snd (postQos None now1 first) = None
    /\ code (getQos None) = 503.
Proof.
  intros samples now1 now2 first second Hreach Hsame once twice.
  subst once twice. cbn [postQos fst snd code].
  split; [reflexivity|]. split; [reflexivity|].
  split; [|repeat split].
  assert (Hone : Reachable (recordSample now1 first samples))
    by (apply reach_record; exact Hreach).
  assert (Hnd := reachable_unique _ Hone).
  eexists. eexists. split; [reflexivity|].
  split; [apply (set_only (normalize now2 second)); exact Hnd|].
  split; [apply aggregates_count|].
  eexists. split; [reflexivity|].
  rewrite !aggregates_count. unfold getSnapshot.
  unfold recordSample at 1.
  rewrite <- !(length_map sessionId), set_ids.
  change (sessionId (normalize now2 second)) with (r_sessionId second).
  assert (Hin : existsb (ofSession (r_sessionId second))
                  (recordSample now1 first samples) = true).
  { destruct (existsb (ofSession (r_sessionId second))
                (recordSample now1 first samples)) eqn:E; [reflexivity|].
    assert (Hf := set_only (normalize now1 first) samples
                    (reachable_unique _ Hreach)).
    change (sessionId (normalize now1 first)) with (r_sessionId first) in Hf.
    rewrite Hsame in Hf. unfold recordSample in E.
    rewrite (absent_filter _ _ (absent_ids _ _ E)) in Hf. discriminate. }
  rewrite Hin. reflexivity.
Qed.

End Collector.

Lemma one_sample_per_session_witness :
  filter (fun e => String.eqb (sessionId e) "7d0c")
    (getSnapshot
       (recordSample 9000 laterReport (recordSample 1000 firstReport new)))
  = [normalize 9000 laterReport].
Proof.
  destruct (one_sample_per_session (recordSample 1000 firstReport new)
              9000 laterReport "7d0c") as [_ [_ [H _]]].
  - apply reach_record, reach_new.
  - exact H.
Defined.

Lemma qos_routes_witness :
  code (fst (postQos (snd (postQos (Some new) 1000 firstReport))
               9000 laterReport)) = 202.
Proof.
  destruct (qos_routes new 1000 9000 firstReport laterReport)
    as [_ [H _]].
  - apply reach_new.
  - reflexivity.
  - exact H.
Defined.

End QoSFacts.
